(** * ipydb: the metadata cache of an interactive SQL completion tool

    A shallow embedding of [ipydb/metadata.py] (class
    [CompletionDataAccessor], one shared sqlite file with a [db_key]
    column) and of [ipydb/metadata/__init__.py] (class
    [MetaDataAccessor], one sqlite file per database), with the
    properties of the cache that the specification states. *)

From Stdlib Require Import ZArith Lia Ascii String List.
From stdpp Require Import base option list gmap strings pretty.

Open Scope string_scope.
Open Scope list_scope.
Open Scope Z_scope.

Set Warnings "-clear-no-such-hyp".


(** ** Python values shared by both modules *)

(** The exceptions that the modelled code can raise. *)
Inductive exn : Type :=
| IndexError
| ValueError
| KeyError
| IntegrityError
| OperationalError
| ReflectorError.

#[global] Instance exn_eq_dec : EqDecision exn.
Proof. solve_decision. Defined.

(** [str.lower()] on a Python 2 byte string in the C locale: the letters
    [A]..[Z] are moved to [a]..[z], every other byte is kept. *)
Definition lower_ascii (c : ascii) : ascii :=
  let n := nat_of_ascii c in
  if (Nat.leb 65 n && Nat.leb n 90)%bool then ascii_of_nat (n + 32) else c.

Fixpoint lower (s : string) : string :=
  match s with
  | EmptyString => EmptyString
  | String c r => String (lower_ascii c) (lower r)
  end.

(** [s.split('.')]: the pieces between the dots, at least one piece. *)
Fixpoint split_dot_aux (s : string) (cur : string) : list string :=
  match s with
  | EmptyString => [cur]
  | String c r =>
      if Ascii.eqb c "."%char then cur :: split_dot_aux r EmptyString
      else split_dot_aux r (cur +:+ String c EmptyString)
  end.

Definition split_dot (s : string) : list string := split_dot_aux s EmptyString.

(** Truth value of a Python [str] or [None]. *)
Definition truthy (o : option string) : bool :=
  match o with
  | Some s => negb (String.eqb s EmptyString)
  | None => false
  end.

(** ** The schema model of [metadata.py] *)

(** [ForeignKey = namedtuple('ForeignKey', 'table columns reftable refcolumns')] *)
Record ForeignKey : Type := mkForeignKey {
  table : string;
  columns : list string;
  reftable : string;
  refcolumns : list string
}.

#[global] Instance ForeignKey_eq_dec : EqDecision ForeignKey.
Proof. solve_decision. Defined.

(** One pass of the [for idx, col in enumerate(fk.columns)] loop of
    [fk_as_join]; [fk.refcolumns[idx]] raises [IndexError] when the
    referenced columns run out. *)
Fixpoint fk_as_join_loop (fk : ForeignKey) (idx : nat) (cols : list string)
    (joinstr sep : string) : exn + string :=
  match cols with
  | [] => inr joinstr
  | col :: rest =>
      match refcolumns fk !! idx with
      | None => inl IndexError
      | Some refcol =>
          fk_as_join_loop fk (S idx) rest
            (joinstr +:+ (sep +:+
               (reftable fk +:+ "." +:+ refcol +:+ " = " +:+ table fk +:+ "." +:+ col)))
            " and "
      end
  end.

Definition fk_as_join (fk : ForeignKey) : exn + string :=
  fk_as_join_loop fk 0 (columns fk)
    (reftable fk +:+ " inner join " +:+ table fk +:+ " on ") "".

(** The equality rendered for one pair of columns. *)
Definition join_equality (fk : ForeignKey) (refcol col : string) : string :=
  reftable fk +:+ "." +:+ refcol +:+ " = " +:+ table fk +:+ "." +:+ col.

(** The join clause as the specification words it: the head, then the
    equalities of the positional pairs joined by [" and "]. *)
Definition join_clause (fk : ForeignKey) : string :=
  reftable fk +:+ " inner join " +:+ table fk +:+ " on " +:+
  String.concat " and " (zip_with (join_equality fk) (refcolumns fk) (columns fk)).

(** [MetaData]: one cache entry. [created] counts microseconds from
    [datetime(MINYEAR, 1, 1)], the value a new entry starts with. *)
Record MetaData : Type := mkMetaData {
  isempty : bool;
  reflecting : bool;
  created : Z;
  tables : gset string;
  fields : gset string;
  dottedfields : gset string;
  types : gmap string string;
  foreign_keys : list ForeignKey
}.

Definition MetaData_new : MetaData :=
  {| isempty := true; reflecting := false; created := 0;
     tables := ∅; fields := ∅; dottedfields := ∅; types := ∅;
     foreign_keys := [] |}.

(** [MetaData.tables_referencing]: the loop over [self.foreign_keys]. *)
Definition tables_referencing_step (t : string) (refs : gset string)
    (fk : ForeignKey) : gset string :=
  if decide (t = table fk) then refs ∪ {[ reftable fk ]}
  else if decide (t = reftable fk) then refs ∪ {[ table fk ]}
  else refs.

Definition tables_referencing (m : MetaData) (t : string) : gset string :=
  foldl (tables_referencing_step t) ∅ (foreign_keys m).

(** ** State and exceptions

    A computation runs on a state of type [S]; it leaves a state behind
    whether it returns or raises, as a Python method does. *)
Definition M (S A : Type) : Type := S → S * (exn + A).

Definition ret {S A} (x : A) : M S A := λ s, (s, inr x).
Definition raise {S A} (e : exn) : M S A := λ s, (s, inl e).
Definition bind {S A B} (c : M S A) (k : A → M S B) : M S B :=
  λ s, match c s with
       | (s', inr x) => k x s'
       | (s', inl e) => (s', inl e)
       end.
Definition modify {S} (f : S → S) : M S unit := λ s, (f s, inr tt).
Definition gets {S A} (f : S → A) : M S A := λ s, (s, inr (f s)).

(** [try: c  except e: h]: only the exception [e] is handled. *)
Definition try_except {S A} (c : M S A) (e : exn) (h : M S A) : M S A :=
  λ s, match c s with
       | (s', inl e') => if decide (e' = e) then h s' else (s', inl e')
       | r => r
       end.

(** Lifting a result that needs no state. *)
Definition lift {S A} (r : exn + A) : M S A := λ s, (s, r).

Notation "'let*' x ':=' c 'in' k" := (bind c (λ x, k))
  (at level 10, x name, c at level 100, k at level 200).
Notation "c1 ';;' c2" := (bind c1 (λ _, c2))
  (at level 100, c2 at level 200, right associativity).

(** ** What the reflector (SQLAlchemy) hands over *)

(** [sqlalchemy.ForeignKey] as far as the code reads it: [fk.constraint]
    ([None], or a constraint whose [name] may be [None]) and
    [fk.target_fullname]. *)
Record SAForeignKey : Type := mkSAForeignKey {
  fk_constraint : option (option string);
  target_fullname : string
}.

(** A reflected column: [col.name], [str(col.type)], [col.foreign_keys]. *)
Record SAColumn : Type := mkSAColumn {
  col_name : string;
  col_type : string;
  col_foreign_keys : list SAForeignKey
}.

(** A reflected [sa.Table]: [t.name] and [t.columns]. *)
Record SATable : Type := mkSATable {
  sa_name : string;
  sa_columns : list SAColumn
}.

(** The foreign-key attributes of a column: [constraint_name],
    [position_in_constraint], [referenced_table], [referenced_column].
    [_get_foreign_key_info] sets the last three together or not at all,
    so the four-tuple of the source is [None] or one [FKInfo]. *)
Record FKInfo : Type := mkFKInfo {
  constraint_name : option string;
  position_in_constraint : Z;
  referenced_table : string;
  referenced_column : string
}.

#[global] Instance FKInfo_eq_dec : EqDecision FKInfo.
Proof. solve_decision. Defined.

(** [CompletionDataAccessor._get_foreign_key_info]: the first foreign
    key of the column; the unpacking of [target_fullname.split('.')]
    into two names raises [ValueError] for any other number of pieces. *)
Definition _get_foreign_key_info (column : SAColumn) : exn + option FKInfo :=
  match col_foreign_keys column with
  | [] => inr None
  | fk :: _ =>
      match fk_constraint fk with
      | None => inr None
      | Some name =>
          match split_dot (target_fullname fk) with
          | [rt; rc] => inr (Some (mkFKInfo name 1 rt rc))
          | _ => inl ValueError
          end
      end
  end.

(** ** The sqlite store of [metadata.py] *)

Record dbtable_row : Type := mk_dbtable_row {
  t_id : Z;
  t_db_key : string;
  t_name : string;
  t_created : Z
}.

Record dbfield_row : Type := mk_dbfield_row {
  f_id : Z;
  f_table_id : Z;
  f_name : string;
  f_type : string;
  f_fk : option FKInfo
}.

#[global] Instance dbtable_row_eq_dec : EqDecision dbtable_row.
Proof. solve_decision. Defined.
#[global] Instance dbfield_row_eq_dec : EqDecision dbfield_row.
Proof. solve_decision. Defined.

(** The two tables of [create_schema]; [None] is a table that does not
    exist. *)
Record Store : Type := mkStore {
  dbtable : option (list dbtable_row);
  dbfield : option (list dbfield_row)
}.

(** sqlite's choice for an [integer primary key] that the statement
    leaves out: one more than the largest id of the table, 1 in an empty
    table. *)
Definition next_rowid (ids : list Z) : Z := 1 + foldr Z.max 0 ids.

(** [create table if not exists dbtable ...; ... dbfield ...] *)
Definition create_schema (s : Store) : Store :=
  {| dbtable := Some (default [] (dbtable s));
     dbfield := Some (default [] (dbfield s)) |}.

(** [drop table dbfield; drop table dbtable] *)
Definition delete_schema : M Store unit := λ s,
  match dbfield s with
  | None => (s, inl OperationalError)
  | Some _ =>
      let s1 := {| dbtable := dbtable s; dbfield := None |} in
      match dbtable s1 with
      | None => (s1, inl OperationalError)
      | Some _ => ({| dbtable := None; dbfield := None |}, inr tt)
      end
  end.

Definition table_key_matches (db_key name : string) (r : dbtable_row) : bool :=
  bool_decide (t_db_key r = db_key ∧ t_name r = name).

Definition field_key_matches (table_id : Z) (name : string) (r : dbfield_row) : bool :=
  bool_decide (f_table_id r = table_id ∧ f_name r = name).

(** [select id from dbtable where db_key=:db_key and name=:table],
    then [fetchone()]. *)
Definition select_table_id (db_key name : string) : M Store (option Z) := λ s,
  match dbtable s with
  | None => (s, inl OperationalError)
  | Some rows => (s, inr (t_id <$> List.find (table_key_matches db_key name) rows))
  end.

(** [insert into dbtable(db_key, name) values (...)]; the result is
    [lastrowid]. The constraint [unique (db_key, name)] refuses a second
    row with the same key. *)
Definition insert_dbtable (db_key name : string) (now : Z) : M Store Z := λ s,
  match dbtable s with
  | None => (s, inl OperationalError)
  | Some rows =>
      if existsb (table_key_matches db_key name) rows then (s, inl IntegrityError)
      else
        let id := next_rowid (t_id <$> rows) in
        ({| dbtable := Some (rows ++ [mk_dbtable_row id db_key name now]);
            dbfield := dbfield s |}, inr id)
  end.

(** [insert into dbfield(table_id, name, type, ...) values (...)] under
    the constraint [unique (table_id, name)], as a statement that runs
    in a transaction of its own: refused, it changes nothing. The
    constraint is declared [on conflict rollback]; what that does to a
    transaction that is open is in [execute] below. *)
Definition insert_dbfield (table_id : Z) (name type_ : string)
    (info : option FKInfo) : M Store unit := λ s,
  match dbfield s with
  | None => (s, inl OperationalError)
  | Some rows =>
      if existsb (field_key_matches table_id name) rows then (s, inl IntegrityError)
      else
        let id := next_rowid (f_id <$> rows) in
        ({| dbtable := dbtable s;
            dbfield := Some (rows ++ [mk_dbfield_row id table_id name type_ info]) |},
         inr tt)
  end.

(** The row update of [write_table]: type and foreign-key attributes. *)
Definition set_field_all (type_ : string) (info : option FKInfo)
    (r : dbfield_row) : dbfield_row :=
  mk_dbfield_row (f_id r) (f_table_id r) (f_name r) type_ info.

(** The row update of [write]: the type only. *)
Definition set_field_type (type_ : string) (r : dbfield_row) : dbfield_row :=
  mk_dbfield_row (f_id r) (f_table_id r) (f_name r) type_ (f_fk r).

(** [update dbfield set ... where table_id = :table_id and name = :field] *)
Definition update_dbfield (table_id : Z) (name : string)
    (f : dbfield_row → dbfield_row) : M Store unit := λ s,
  match dbfield s with
  | None => (s, inl OperationalError)
  | Some rows =>
      ({| dbtable := dbtable s;
          dbfield := Some ((λ r, if field_key_matches table_id name r then f r else r)
                             <$> rows) |}, inr tt)
  end.

(** The [table_id] of both writers: the id of the row found, else the
    [lastrowid] of a fresh insert. *)
Definition table_id_of (db_key name : string) (now : Z) : M Store Z :=
  let* row := select_table_id db_key name in
  match row with
  | Some id => ret id
  | None => insert_dbtable db_key name now
  end.

(** The body of the [for column in table.columns] loop of [write_table]. *)
Definition write_column (table_id : Z) (column : SAColumn) : M Store unit :=
  let* info := lift (_get_foreign_key_info column) in
  try_except
    (insert_dbfield table_id (col_name column) (col_type column) info)
    IntegrityError
    (update_dbfield table_id (col_name column) (set_field_all (col_type column) info)).

Fixpoint write_columns (table_id : Z) (cols : list SAColumn) : M Store unit :=
  match cols with
  | [] => ret tt
  | column :: rest => write_column table_id column ;; write_columns table_id rest
  end.

(** [CompletionDataAccessor.write_table(sqconn, db_key, table)]; [now]
    is the [current_timestamp] a new [dbtable] row would get. *)
Definition write_table (db_key : string) (t : SATable) (now : Z) : M Store unit :=
  let* table_id := table_id_of db_key (sa_name t) now in
  write_columns table_id (sa_columns t).

(** [CompletionDataAccessor.write(sqconn, db_key, table, field, type_)],
    each statement in a transaction of its own, as it is on a connection
    that has no transaction open; [Sqconn.write] below is the call on a
    connection with its transaction. *)
Definition write (db_key table_name field type_ : string) (now : Z) : M Store unit :=
  let* table_id := table_id_of db_key table_name now in
  try_except
    (insert_dbfield table_id field type_ None)
    IntegrityError
    (update_dbfield table_id field (set_field_type type_)).

(** ** [write] on a [sqlite3] connection *)

(** [write_table] gets the engine [self.db], which runs every statement
    in a transaction of its own: the definitions above are the
    statements as they end there. [write] is written for a [sqlite3]
    connection ([except sqlite3.IntegrityError]) and [write_all] calls
    it inside one [with sqlite3.connect(...)] block. Such a connection
    has the store as it is committed and the store as the connection
    sees it, with the statements of its open transaction: Python's
    module opens a transaction before an [insert] or an [update] and
    leaves it open until the [with] block ends. *)
Record Connection : Type := mkConnection {
  committed : Store;
  seen : Store
}.

(** [sqconn.execute(...)] on a connection. Both unique constraints of
    the schema are declared [on conflict rollback]: a statement that one
    of them refuses raises [IntegrityError] after sqlite has rolled the
    open transaction back. A statement that fails for a missing table
    leaves the transaction as it is. *)
Definition execute {A : Type} (statement : M Store A) : M Connection A := λ c,
  match statement (seen c) with
  | (s, inr x) => (mkConnection (committed c) s, inr x)
  | (_, inl IntegrityError) =>
      (mkConnection (committed c) (committed c), inl IntegrityError)
  | (_, inl e) => (c, inl e)
  end.

(** The end of the [with] block that returns: the transaction is
    committed. *)
Definition commit (c : Connection) : Connection :=
  mkConnection (seen c) (seen c).

Module Sqconn.

(** [CompletionDataAccessor.write(sqconn, db_key, table, field, type_)]
    with a [sqlite3] connection for [sqconn]. *)
Definition write (db_key table_name field type_ : string) (now : Z)
    : M Connection unit :=
  let* row := execute (select_table_id db_key table_name) in
  let* table_id := match row with
                   | Some id => ret id
                   | None => execute (insert_dbtable db_key table_name now)
                   end in
  try_except
    (execute (insert_dbfield table_id field type_ None))
    IntegrityError
    (execute (update_dbfield table_id field (set_field_type type_))).

End Sqconn.

(** ** Connection descriptors and database keys *)

(** [sqlalchemy.engine.url.URL] as carried by an engine. *)
Record URL : Type := mkURL {
  drivername : string;
  username : option string;
  password : option string;
  host : option string;
  port : option Z;
  database : option string;
  query : list (string * string)
}.

(** An engine ([db], [engine], [target_db] in the source): the code reads
    its [url]. *)
Record Engine : Type := mkEngine { url : URL }.

(** [str(URL(drivername, username, host=host, port=port,
    database=database))]: SQLAlchemy's rendering of a URL that has
    neither password nor query, [driver://user@host:port/database] with
    the absent parts left out. *)
Definition URL_str (drivername : string) (username host : option string)
    (port : option Z) (database : option string) : string :=
  drivername +:+ "://" +:+
  match username with Some u => u +:+ "@" | None => "" end +:+
  match host with Some h => h | None => "" end +:+
  match port with Some p => ":" +:+ pretty p | None => "" end +:+
  match database with Some d => "/" +:+ d | None => "" end.

(** [CompletionDataAccessor.get_db_key(url)] *)
Definition get_db_key (u : URL) : string :=
  URL_str (drivername u) (username u) (host u) (port u) (database u).

(** ** The accessor of [metadata.py] *)

Definition CACHE_MAX_AGE : Z := 60 * 10.

(** [timedelta(seconds=n)] in microseconds. *)
Definition timedelta_seconds (n : Z) : Z := n * 1000000.

(** [CompletionDataAccessor]: the [defaultdict] of entries, the sqlite
    store [self.db], the [reflect_metadata] tasks handed to [self.pool]
    and not yet finished, and the module's [write_queue]. *)
Record Accessor : Type := mkAccessor {
  metadata : gmap string MetaData;
  db : Store;
  pool : list Engine;
  write_queue : list (string * SATable)
}.

Definition set_metadata (f : gmap string MetaData → gmap string MetaData)
    (a : Accessor) : Accessor :=
  mkAccessor (f (metadata a)) (db a) (pool a) (write_queue a).
Definition set_db (f : Store → Store) (a : Accessor) : Accessor :=
  mkAccessor (metadata a) (f (db a)) (pool a) (write_queue a).
Definition set_pool (f : list Engine → list Engine) (a : Accessor) : Accessor :=
  mkAccessor (metadata a) (db a) (f (pool a)) (write_queue a).
Definition set_write_queue (f : list (string * SATable) → list (string * SATable))
    (a : Accessor) : Accessor :=
  mkAccessor (metadata a) (db a) (pool a) (f (write_queue a)).

(** [self.metadata[db_key]] reads the entry of a [defaultdict]: a key
    not seen yet stands for a new [MetaData()]. *)
Definition entry (a : Accessor) (db_key : string) : MetaData :=
  default MetaData_new (metadata a !! db_key).

(** An attribute assignment or a container method on
    [self.metadata[db_key]]. *)
Definition update_entry (db_key : string) (f : MetaData → MetaData)
    (a : Accessor) : Accessor :=
  set_metadata (λ md, <[db_key := f (default MetaData_new (md !! db_key))]> md) a.

Definition set_isempty (b : bool) (m : MetaData) : MetaData :=
  mkMetaData b (reflecting m) (created m) (tables m) (fields m)
    (dottedfields m) (types m) (foreign_keys m).
Definition set_reflecting (b : bool) (m : MetaData) : MetaData :=
  mkMetaData (isempty m) b (created m) (tables m) (fields m)
    (dottedfields m) (types m) (foreign_keys m).
Definition set_created (t : Z) (m : MetaData) : MetaData :=
  mkMetaData (isempty m) (reflecting m) t (tables m) (fields m)
    (dottedfields m) (types m) (foreign_keys m).
Definition set_foreign_keys (fks : list ForeignKey) (m : MetaData) : MetaData :=
  mkMetaData (isempty m) (reflecting m) (created m) (tables m) (fields m)
    (dottedfields m) (types m) fks.

(** [tables.add(tablename)] *)
Definition add_table (tablename : string) (m : MetaData) : MetaData :=
  mkMetaData (isempty m) (reflecting m) (created m) (tables m ∪ {[ tablename ]})
    (fields m) (dottedfields m) (types m) (foreign_keys m).

(** [fields.add(fieldname); dottedfields.add(dottedname);
    types[dottedname] = type_] *)
Definition add_field (fieldname dottedname type_ : string) (m : MetaData) : MetaData :=
  mkMetaData (isempty m) (reflecting m) (created m) (tables m)
    (fields m ∪ {[ fieldname ]}) (dottedfields m ∪ {[ dottedname ]})
    (<[dottedname := type_]> (types m)) (foreign_keys m).

(** The value kept per constraint name in the local dict [fks]. *)
Record FkDict : Type := mkFkDict {
  d_table : string;
  d_columns : list string;
  d_referenced_table : string;
  d_referenced_columns : list string
}.

Definition fk_of_dict (d : FkDict) : ForeignKey :=
  mkForeignKey (d_table d) (d_columns d) (d_referenced_table d) (d_referenced_columns d).

Definition dict_append (col refcol : string) (d : FkDict) : FkDict :=
  mkFkDict (d_table d) (d_columns d ++ [col]) (d_referenced_table d)
    (d_referenced_columns d ++ [refcol]).

(** [if name not in fks: fks[name] = {...}] followed by the two
    [append]s. The dict is kept in the order in which its keys were
    first inserted. *)
Definition fks_append {K : Type} `{EqDecision K} (name : K)
    (tbl rtbl col refcol : string) (fks : list (K * FkDict)) : list (K * FkDict) :=
  if bool_decide (name ∈ fks.*1)
  then (λ kd, if decide (kd.1 = name) then (kd.1, dict_append col refcol kd.2) else kd) <$> fks
  else fks ++ [(name, mkFkDict tbl [col] rtbl [refcol])].

(** One row of the join that [read] selects. *)
Record ResultRow : Type := mkResultRow {
  r_tablename : string;
  r_fieldname : string;
  r_type : string;
  r_fk : option FKInfo
}.

(** [dbtable t inner join dbfield f on f.table_id = t.id
    where t.db_key = :db_key]. The [select] has no [order by], so the
    store may return the rows in any order; [read_rows] gives them in
    the order of insertion, table by table. What is proved of [read]
    either does not depend on the order of the rows or is stated for
    every order of them. *)
Definition read_rows (db_key : string) (ts : list dbtable_row)
    (fs : list dbfield_row) : list ResultRow :=
  t ← filter (λ t, t_db_key t = db_key) ts;
  f ← filter (λ f, f_table_id f = t_id t) fs;
  [mkResultRow (t_name t) (f_name f) (f_type f) (f_fk f)].

(** The body of [for r in result] in [read]. *)
Definition read_row (st : MetaData * list (string * FkDict)) (r : ResultRow)
    : MetaData * list (string * FkDict) :=
  let dottedfield := r_tablename r +:+ "." +:+ r_fieldname r in
  let m := add_field (r_fieldname r) dottedfield (r_type r)
             (add_table (r_tablename r) (set_isempty false st.1)) in
  match r_fk r with
  | Some i =>
      if truthy (constraint_name i)
      then (m, fks_append (default "" (constraint_name i)) (r_tablename r)
                 (referenced_table i) (r_fieldname r) (referenced_column i) st.2)
      else (m, st.2)
  | None => (m, st.2)
  end.

(** [select max(created) from dbtable where db_key = :db_key] *)
Definition max_created (db_key : string) (ts : list dbtable_row) : option Z :=
  foldr (λ t acc, Some (match acc with Some c => Z.max (t_created t) c
                                  | None => t_created t end))
        None (filter (λ t, t_db_key t = db_key) ts).

(** [CompletionDataAccessor.read(db_key)]; [now] is the clock reading
    taken when the store has no table row for the key. *)
Definition read (db_key : string) (now : Z) : M Accessor unit := λ a,
  match dbtable (db a), dbfield (db a) with
  | Some ts, Some fs =>
      let st := foldl read_row (entry a db_key, []) (read_rows db_key ts fs) in
      let m := set_foreign_keys (fk_of_dict <$> st.2.*2) st.1 in
      let c := default now (max_created db_key ts) in
      (update_entry db_key (λ _, set_created c m) a, inr tt)
  | _, _ => (a, inl OperationalError)
  end.

(** The condition of the [if] that guards the hand-over in
    [get_metadata], read on the entry [m] at the clock reading [now]. *)
Definition refresh_warranted (force : bool) (now : Z) (m : MetaData) : bool :=
  (force || isempty m || (timedelta_seconds CACHE_MAX_AGE <? now - created m))
  && negb (reflecting m).

(** Lines 207-211 of [get_metadata]: the entry is looked up (and made if
    new); an empty one is read from the store and marked not empty. *)
Definition sync_load (e : Engine) (t_read : Z) : M Accessor unit :=
  let db_key := get_db_key (url e) in
  modify (update_entry db_key id) ;;
  let* empty := gets (λ a, isempty (entry a db_key)) in
  if empty : bool
  then read db_key t_read ;; modify (update_entry db_key (set_isempty false))
  else ret tt.

(** [CompletionDataAccessor.get_metadata(db, noisy, force)]. [t_read] and
    [t_now] are the readings of [datetime.now()] inside [read] and in
    [get_metadata] itself. The result is the cache entry that the call
    returns, as it stands at the return. *)
Definition get_metadata (e : Engine) (force : bool) (t_read t_now : Z)
    : M Accessor MetaData :=
  let db_key := get_db_key (url e) in
  sync_load e t_read ;;
  let* m := gets (λ a, entry a db_key) in
  (if refresh_warranted force t_now m
   then modify (update_entry db_key (set_reflecting true)) ;;
        modify (set_pool (λ p, p ++ [e]))
   else ret tt) ;;
  gets (λ a, entry a db_key).

(** [all_fks.remove(fk)] inside [try ... except ValueError: pass]: the
    first occurrence goes, an absent value changes nothing. *)
Fixpoint remove_first (fk : ForeignKey) (l : list ForeignKey) : list ForeignKey :=
  match l with
  | [] => []
  | x :: r => if decide (x = fk) then r else x :: remove_first fk r
  end.

Definition merge_fk (all_fks : list ForeignKey) (fk : ForeignKey) : list ForeignKey :=
  remove_first fk all_fks ++ [fk].

(** The dict [fks] after a column whose foreign-key attributes are
    [info] ([if refcolumn: ...]). *)
Definition fks_of_column (tablename : string) (col : SAColumn) (info : option FKInfo)
    (fks : list (option string * FkDict)) : list (option string * FkDict) :=
  match info with
  | Some i =>
      if truthy (Some (referenced_column i))
      then fks_append (constraint_name i) tablename (referenced_table i)
             (col_name col) (referenced_column i) fks
      else fks
  | None => fks
  end.

(** The [for col in t.columns] loop of [reflect_table]. *)
Fixpoint reflect_columns (db_key tablename : string) (cols : list SAColumn)
    (fks : list (option string * FkDict))
    : M Accessor (list (option string * FkDict)) :=
  match cols with
  | [] => ret fks
  | col :: rest =>
      let fieldname := lower (col_name col) in
      let dottedname := tablename +:+ "." +:+ fieldname in
      modify (update_entry db_key (add_field fieldname dottedname (col_type col))) ;;
      let* info := lift (_get_foreign_key_info col) in
      reflect_columns db_key tablename rest (fks_of_column tablename col info fks)
  end.

(** [CompletionDataAccessor.reflect_table((target_db, db_key,
    tablename))]; [loaded] is what [sa.Table(tablename, metadata,
    autoload=True)] gives: the table, or the exception it raises. *)
Definition reflect_table (db_key : string) (loaded : exn + SATable)
    : M Accessor unit :=
  let* t := lift loaded in
  let tablename := lower (sa_name t) in
  modify (update_entry db_key (λ m, set_isempty false (add_table tablename m))) ;;
  let* fks := reflect_columns db_key tablename (sa_columns t) [] in
  modify (update_entry db_key
            (λ m, set_foreign_keys
                    (foldl merge_fk (foreign_keys m) (fk_of_dict <$> fks.*2)) m)) ;;
  modify (set_write_queue (λ q, q ++ [(db_key, t)])).

Fixpoint reflect_tables (db_key : string) (ts : list (exn + SATable))
    : M Accessor unit :=
  match ts with
  | [] => ret tt
  | t :: rest => reflect_table db_key t ;; reflect_tables db_key rest
  end.

(** [CompletionDataAccessor.reflect_metadata(target_db)]. [reflected] is
    the answer of the reflector: [target_db.table_names()] raising, or
    the tables in the order of [sorted(table_names)], each as
    [sa.Table] loads it. [pool.map] is run here one table after the
    other and stops at the first exception, which it raises again. *)
Definition reflect_metadata (target_db : Engine)
    (reflected : exn + list (exn + SATable)) (now : Z) : M Accessor unit :=
  let db_key := get_db_key (url target_db) in
  let* ts := lift reflected in
  reflect_tables db_key ts ;;
  modify (update_entry db_key (set_created now)) ;;
  modify (update_entry db_key (set_reflecting false)).

(** [CompletionDataAccessor.flush()]: the pool is terminated, the cache
    replaced by a new [defaultdict], the two tables dropped and made
    again. [pool.join()] returns only if no [reflect_metadata] worker is
    waiting in [self.pool.map] on the same pool; [flush] is the call as
    it ends once [join] has returned. *)
Definition flush : M Accessor unit :=
  modify (set_pool (λ _, [])) ;;
  modify (set_metadata (λ _, ∅)) ;;
  (λ a, let r := delete_schema (db a) in (set_db (λ _, r.1) a, r.2)) ;;
  modify (set_db create_schema).

(** [CompletionDataAccessor.__init__] on the sqlite file as it is found. *)
Definition Accessor_init (s : Store) : Accessor :=
  mkAccessor ∅ (create_schema s) [] [].

(** One turn of [MetadataSavingThread.run]: the head of the queue is
    written to the store. *)
Definition save_step (now : Z) (a : Accessor) : Accessor :=
  match write_queue a with
  | [] => a
  | (db_key, t) :: q =>
      set_write_queue (λ _, q) (set_db (λ s, (write_table db_key t now s).1) a)
  end.

(** A pool worker takes the [i]-th task and runs [reflect_metadata] to
    its end (return or exception). *)
Definition run_reflection (i : nat) (reflected : exn + list (exn + SATable))
    (now : Z) : M Accessor unit := λ a,
  match pool a !! i with
  | None => (a, inr tt)
  | Some target_db =>
      reflect_metadata target_db reflected now (set_pool (delete i) a)
  end.

(** What happens to an accessor, one event at a time: a call of
    [get_metadata] from the session, a worker finishing a reflection,
    the saving thread writing a table, a call of [flush]. *)
Inductive event : Type :=
| EvGetMetadata (e : Engine) (force : bool) (t_read t_now : Z)
| EvReflection (i : nat) (reflected : exn + list (exn + SATable)) (now : Z)
| EvSave (now : Z)
| EvFlush.

Definition run_event (ev : event) (a : Accessor) : Accessor :=
  match ev with
  | EvGetMetadata e force t_read t_now => (get_metadata e force t_read t_now a).1
  | EvReflection i reflected now => (run_reflection i reflected now a).1
  | EvSave now => save_step now a
  | EvFlush => (flush a).1
  end.

Definition run_events (evs : list event) (a : Accessor) : Accessor :=
  foldl (λ a ev, run_event ev a) a evs.

(** The reflections of a key that are scheduled or running. *)
Definition active_reflections (db_key : string) (a : Accessor) : nat :=
  length (filter (λ e, get_db_key (url e) = db_key) (pool a)).

(** ** The queries of [MetaData] *)

(** What a query hands back: a set of the entry itself, or a list that
    the query has built. *)
Inductive Names : Type :=
| NameSet (s : gset string)
| NameList (l : list string).

(** [for x in names]. Python does not fix the order in which a set is
    gone through; [elements] stands for it. *)
Definition iterate (n : Names) : list string :=
  match n with
  | NameSet s => elements s
  | NameList l => l
  end.

(** [[df.split('.')[1] for df in dfs if df.startswith(start)]]; the
    subscript raises [IndexError] on a list of one piece. *)
Fixpoint get_fields_loop (start : string) (dfs : list string) : exn + list string :=
  match dfs with
  | [] => inr []
  | df :: rest =>
      if String.prefix start df
      then match split_dot df !! 1%nat with
           | Some fld =>
               match get_fields_loop start rest with
               | inr l => inr (fld :: l)
               | inl e => inl e
               end
           | None => inl IndexError
           end
      else get_fields_loop start rest
  end.

(** [MetaData.get_fields(table=None)] *)
Definition get_fields (m : MetaData) (table : option string) : exn + Names :=
  if truthy table
  then match get_fields_loop (default "" table +:+ ".") (elements (dottedfields m)) with
       | inr l => inr (NameList l)
       | inl e => inl e
       end
  else inr (NameSet (fields m)).

(** [MetaData.get_dottedfields(table=None)] *)
Definition get_dottedfields (m : MetaData) (table : option string) : Names :=
  if truthy table
  then NameList (filter (λ df, String.prefix (default "" table +:+ ".") df = true)
                   (elements (dottedfields m)))
  else NameSet (dottedfields m).

(** [MetaData.fields_referencing(table, field=None)]: the body of the
    loop over [self.foreign_keys], then the loop. *)
Definition fields_referencing_step (t : string) (field : option string)
    (refs : list ForeignKey) (fk : ForeignKey) : list ForeignKey :=
  if decide (t = reftable fk)
  then if truthy field && bool_decide (default "" field ∈ refcolumns fk)
       then refs ++ [fk]
       else if negb (truthy field) then refs ++ [fk] else refs
  else refs.

Definition fields_referencing (m : MetaData) (t : string) (field : option string)
    : list ForeignKey :=
  foldl (fields_referencing_step t field) [] (foreign_keys m).

(** [MetaData.get_all_joins(table)] *)
Definition get_all_joins_step (t : string) (refs : list ForeignKey) (fk : ForeignKey)
    : list ForeignKey :=
  if decide (t ∈ [reftable fk; table fk]) then refs ++ [fk] else refs.

Definition get_all_joins (m : MetaData) (t : string) : list ForeignKey :=
  foldl (get_all_joins_step t) [] (foreign_keys m).

(** [MetaData.get_joins(t1, t2)] *)
Definition get_joins_step (t1 t2 : string) (joins : list ForeignKey) (fk : ForeignKey)
    : list ForeignKey :=
  if decide (t1 ∈ [table fk; reftable fk] ∧ t2 ∈ [table fk; reftable fk])
  then joins ++ [fk] else joins.

Definition get_joins (m : MetaData) (t1 t2 : string) : list ForeignKey :=
  foldl (get_joins_step t1 t2) [] (foreign_keys m).

(** ** The read accessors of [CompletionDataAccessor]

    They carry the names of attributes of [MetaData], so they are kept
    in a module of their own. Each of them looks the entry up in the
    [defaultdict], which makes the entry of a key not seen before. *)

Module CompletionDataAccessor.

(** [CompletionDataAccessor.tables(db)] *)
Definition tables (e : Engine) : M Accessor (gset string) :=
  let db_key := get_db_key (url e) in
  modify (update_entry db_key id) ;;
  gets (λ a, tables (entry a db_key)).

(** The loop of [fields] and of [dottedfields]:
    [tbl, fld = df.split('.')], which raises [ValueError] unless there
    are two pieces, then [if tbl == table: acc.append(fld)]. *)
Fixpoint split_loop (table : string) (dfs acc : list string) : exn + list string :=
  match dfs with
  | [] => inr acc
  | df :: rest =>
      match split_dot df with
      | [tbl; fld] =>
          split_loop table rest (if decide (tbl = table) then acc ++ [fld] else acc)
      | _ => inl ValueError
      end
  end.

(** [CompletionDataAccessor.dottedfields(db, table=None)] *)
Definition dottedfields (e : Engine) (table : option string) : M Accessor Names :=
  let db_key := get_db_key (url e) in
  modify (update_entry db_key id) ;;
  let* all_fields := gets (λ a, dottedfields (entry a db_key)) in
  if truthy table
  then let* flds := lift (split_loop (default "" table) (elements all_fields) []) in
       ret (NameList flds)
  else ret (NameSet all_fields).

(** [CompletionDataAccessor.fields(db, table=None)] *)
Definition fields (e : Engine) (table : option string) : M Accessor Names :=
  if truthy table
  then let* dfs := dottedfields e None in
       let* cols := lift (split_loop (default "" table) (iterate dfs) []) in
       ret (NameList cols)
  else
    let db_key := get_db_key (url e) in
    modify (update_entry db_key id) ;;
    gets (λ a, NameSet (fields (entry a db_key))).

(** [CompletionDataAccessor.reflecting(db)] *)
Definition reflecting (e : Engine) : M Accessor bool :=
  let db_key := get_db_key (url e) in
  modify (update_entry db_key id) ;;
  gets (λ a, reflecting (entry a db_key)).

(** [CompletionDataAccessor.types(db)] *)
Definition types (e : Engine) : M Accessor (gmap string string) :=
  let db_key := get_db_key (url e) in
  modify (update_entry db_key id) ;;
  gets (λ a, types (entry a db_key)).

End CompletionDataAccessor.

(** ** [MetadataSavingThread] *)

(** One turn of the loop of [run]: what [write_queue.get()] hands over
    and the value of [self.stop_now] that the thread reads next, with
    the clock of the write. The queue holds the pairs that
    [reflect_table] has put and the pair of [None]s of [stop]; [stop]
    sets [stop_now] before it puts its pair, so the thread meets that
    pair with [stop_now] set. *)
Inductive turn : Type :=
| Got (db_key : string) (table : SATable) (stop_now : bool) (now : Z)
| GotNones.

(** How [run] stands after its turns: blocked in [write_queue.get()],
    gone through [return], or gone through the [except Exception]
    clause, which prints the exception. *)
Inductive thread_end : Type :=
| Waiting
| Returned
| Printed (e : exn).

(** [MetadataSavingThread.run()] on the store [self.metadata.db]. *)
Fixpoint MetadataSavingThread_run (turns : list turn) (s : Store) : Store * thread_end :=
  match turns with
  | [] => (s, Waiting)
  | GotNones :: _ => (s, Returned)
  | Got db_key table stop_now now :: rest =>
      if stop_now then (s, Returned)
      else match write_table db_key table now s with
           | (s', inr _) => MetadataSavingThread_run rest s'
           | (s', inl e) => (s', Printed e)
           end
  end.

(** ** [base64.urlsafe_b64encode] *)

Definition b64_alphabet : list ascii :=
  list_ascii_of_string
    "ABCDEFGHIJKLMNOPQRSTUVWXYZabcdefghijklmnopqrstuvwxyz0123456789+/".

(** The character of a sextet. *)
Definition b64_char (n : N) : ascii :=
  nth (N.to_nat (n mod 64)) b64_alphabet "A"%char.

(** The standard encoding: three bytes give four characters, a last
    group of one or two bytes is padded with [=]. *)
Fixpoint b64encode (l : list ascii) : list ascii :=
  match l with
  | [] => []
  | [a] =>
      let n := (N_of_ascii a * 65536)%N in
      [b64_char (n / 262144); b64_char (n / 4096); "="%char; "="%char]
  | [a; b] =>
      let n := (N_of_ascii a * 65536 + N_of_ascii b * 256)%N in
      [b64_char (n / 262144); b64_char (n / 4096); b64_char (n / 64); "="%char]
  | a :: b :: c :: rest =>
      let n := (N_of_ascii a * 65536 + N_of_ascii b * 256 + N_of_ascii c)%N in
      b64_char (n / 262144) :: b64_char (n / 4096) :: b64_char (n / 64)
        :: b64_char n :: b64encode rest
  end.

(** The translation table of the url-safe variant: [+] becomes [-] and
    [/] becomes [_]. *)
Definition urlsafe_translate (c : ascii) : ascii :=
  if Ascii.eqb c "+"%char then "-"%char
  else if Ascii.eqb c "/"%char then "_"%char
  else c.

Definition urlsafe_b64encode (s : string) : string :=
  string_of_list_ascii (urlsafe_translate <$> b64encode (list_ascii_of_string s)).

(** The characters of a url-safe base64 text: letters, digits, [-], [_]
    and the padding [=]. None of them is a path separator. *)
Definition filename_char (c : ascii) : bool :=
  let n := nat_of_ascii c in
  ((Nat.leb 65 n && Nat.leb n 90) || (Nat.leb 97 n && Nat.leb n 122)
   || (Nat.leb 48 n && Nat.leb n 57)
   || Ascii.eqb c "-"%char || Ascii.eqb c "_"%char || Ascii.eqb c "="%char)%bool.

Definition filesystem_safe (s : string) : Prop :=
  Forall (λ c, filename_char c = true) (list_ascii_of_string s).

(** ** The accessor of [metadata/__init__.py] *)

Module Pkg.

(** [get_db_key(engine)] of the package: the same URL text, encoded. *)
Definition get_db_key (e : Engine) : string :=
  urlsafe_b64encode
    (URL_str (drivername (url e)) (username (url e)) (host (url e))
       (port (url e)) (database (url e))).

(** The database an engine is connected to, named by its URL without
    the password. *)
Definition location (e : Engine) : string :=
  URL_str (drivername (url e)) (username (url e)) (host (url e))
    (port (url e)) (database (url e)).

Section MetaDataAccessor.

(** [ipydb/metadata/model.py] and [ipydb/metadata/persist.py] are not
    among the sources. What [__init__.py] uses of them is taken as
    given: the content of a [model.Database] other than its
    [reflecting] flag, the rows of ipydb's tables in one database, the
    [model.Table] that [persist.write_table] returns, and the
    operations on them. A [Database] that is made or read starts with
    [reflecting] unset. *)
Variable Data : Type.
Variable PStore : Type.
Variable PTable : Type.
(** [model.Database()] *)
Variable Data_new : Data.
(** [db.age > MAX_CACHE_AGE], read at a given time *)
Variable age_exceeds : Z → Data → bool.
(** [db.update_tables(tables)] *)
Variable update_tables : list PTable → Data → Data.
(** [persist.read(session)] *)
Variable persist_read : PStore → Data.
(** [persist.write_table(session, satable)] *)
Variable persist_write_table : SATable → PStore → PStore * PTable.
(** ipydb's tables right after [create_all] *)
Variable PStore_empty : PStore.
(** [locate_profile()] *)
Variable profile : string.

Record Database : Type := mkDatabase {
  data : Data;
  db_reflecting : bool
}.

(** A reflection handed to the pool: the arguments of [reflect_db]. The
    [Database] is an object shared with the cache and the callers, so
    the task holds its address. *)
Record Task : Type := mkTask {
  task_key : string;
  task_db : nat;
  task_url : URL
}.

(** [MetaDataAccessor] and the world it acts on: the [defaultdict]
    [self.databases] from keys to [Database] objects, the objects by
    address, ipydb's tables in each database that has them, and the
    tasks of the pool that have not finished. *)
Record State : Type := mkState {
  databases : gmap string nat;
  heap : list Database;
  files : gmap string PStore;
  pool : list Task
}.

Definition set_databases (f : gmap string nat → gmap string nat) (st : State) : State :=
  mkState (f (databases st)) (heap st) (files st) (pool st).
Definition set_heap (f : list Database → list Database) (st : State) : State :=
  mkState (databases st) (f (heap st)) (files st) (pool st).
Definition set_files (f : gmap string PStore → gmap string PStore) (st : State) : State :=
  mkState (databases st) (heap st) (f (files st)) (pool st).
Definition set_pool (f : list Task → list Task) (st : State) : State :=
  mkState (databases st) (heap st) (files st) (f (pool st)).

(** The object at an address. *)
Definition deref (st : State) (l : nat) : Database :=
  default (mkDatabase Data_new false) (heap st !! l).

(** A new object; the result is its address. *)
Definition alloc (d : Database) : M State nat :=
  λ st, (set_heap (λ h, h ++ [d]) st, inr (length (heap st))).

(** [engine_from_key(db_key)] *)
Definition engine_from_key (db_key : string) : Engine :=
  mkEngine (mkURL "sqlite" None None None None
              (Some ("/" +:+ profile +:+ "/ipydb/" +:+ db_key)) []).

(** [create_schema(engine)]: [Base.metadata.create_all(engine)] *)
Definition create_schema (e : Engine) : State → State :=
  set_files (λ fs, <[location e := default PStore_empty (fs !! location e)]> fs).

(** [delete_schema(engine)]: [Base.metadata.drop_all(engine)] *)
Definition delete_schema (e : Engine) : State → State :=
  set_files (delete (location e)).

(** [self.databases[db_key]] on the [defaultdict(m.Database)] *)
Definition lookup_database (db_key : string) : M State nat := λ st,
  match databases st !! db_key with
  | Some l => (st, inr l)
  | None =>
      let r := alloc (mkDatabase Data_new false) st in
      match r.2 with
      | inr l => (set_databases <[db_key := l]> r.1, inr l)
      | inl e => (r.1, inl e)
      end
  end.

(** [MetaDataAccessor.read_expunge(ipydb_engine)]: a new [Database]
    read from the store. *)
Definition read_expunge (ipydb_engine : Engine) : M State nat :=
  let* s := gets (λ st, default PStore_empty (files st !! location ipydb_engine)) in
  alloc (mkDatabase (persist_read s) false).

(** [MetaDataAccessor.spawn_reflection_thread] with the class
    attribute [debug = False]. *)
Definition spawn_reflection_thread (db_key : string) (l : nat) (u : URL)
    : M State unit :=
  modify (set_pool (λ p, p ++ [mkTask db_key l u])).

(** [MetaDataAccessor.get_metadata] from [if db.reflecting:] on; [l] is
    the address of [db], the object found in the cache. *)
Definition get_metadata_found (e : Engine) (force : bool) (t1 t2 : Z) (l : nat)
    : M State nat :=
  let db_key := get_db_key e in
  let ipydb_engine := engine_from_key db_key in
  let* d := gets (λ st, deref st l) in
  if db_reflecting d then ret l
  else if force then
    let* l' := read_expunge ipydb_engine in
    modify (set_databases <[db_key := l']>) ;;
    spawn_reflection_thread db_key l' (url e) ;;
    ret l'
  else if age_exceeds t1 (data d) then
    let* l' := read_expunge ipydb_engine in
    modify (set_databases <[db_key := l']>) ;;
    let* d' := gets (λ st, deref st l') in
    (if age_exceeds t2 (data d')
     then spawn_reflection_thread db_key l' (url e)
     else ret tt) ;;
    ret l'
  else ret l.

(** [MetaDataAccessor.get_metadata(engine, noisy, force)]; [t1] and
    [t2] are the times of the two readings of [db.age]. The result is
    the address of the [Database] returned. *)
Definition get_metadata (e : Engine) (force : bool) (t1 t2 : Z) : M State nat :=
  let db_key := get_db_key e in
  let ipydb_engine := engine_from_key db_key in
  modify (create_schema ipydb_engine) ;;
  let* l := lookup_database db_key in
  get_metadata_found e force t1 t2 l.

Definition set_db_reflecting (b : bool) (d : Database) : Database :=
  mkDatabase (data d) b.
Definition set_data (f : Data → Data) (d : Database) : Database :=
  mkDatabase (f (data d)) (db_reflecting d).

(** An assignment to an attribute of the object at address [l]. *)
Definition update_at (l : nat) (f : Database → Database) : State → State :=
  set_heap (λ h, match h !! l with Some d => <[l := f d]> h | None => h end).

(** The loop [for satable in db.sa_metadata.sorted_tables] of
    [reflect_db]. *)
Fixpoint persist_tables (l : nat) (ipydb_engine : Engine) (ts : list SATable)
    : M State unit :=
  match ts with
  | [] => ret tt
  | satable :: rest =>
      let* s := gets (λ st, default PStore_empty (files st !! location ipydb_engine)) in
      let w := persist_write_table satable s in
      modify (set_files <[location ipydb_engine := w.1]>) ;;
      modify (update_at l (set_data (update_tables [w.2]))) ;;
      persist_tables l ipydb_engine rest
  end.

(** [MetaDataAccessor.reflect_db(db_key, db, dburl_to_reflect)];
    [reflected] is what [db.sa_metadata.reflect()] yields: the sorted
    tables, or the exception it raises. *)
Definition reflect_db (t : Task) (reflected : exn + list SATable) : M State unit :=
  modify (update_at (task_db t) (set_db_reflecting true)) ;;
  let ipydb_engine := engine_from_key (task_key t) in
  let* ts := lift reflected in
  modify (delete_schema ipydb_engine) ;;
  modify (create_schema ipydb_engine) ;;
  persist_tables (task_db t) ipydb_engine ts ;;
  modify (update_at (task_db t) (set_db_reflecting false)).

(** [MetaDataAccessor.flush(engine)]; [del self.databases[key]] raises
    [KeyError] for a key that has no entry. *)
Definition flush (e : Engine) : M State unit :=
  modify (set_pool (λ _, [])) ;;
  (λ st, match databases st !! get_db_key e with
         | Some _ => (set_databases (delete (get_db_key e)) st, inr tt)
         | None => (st, inl KeyError)
         end) ;;
  modify (delete_schema e) ;;
  modify (create_schema e).

(** The tasks of a key that are in the pool. *)
Definition active_reflections (db_key : string) (st : State) : nat :=
  length (filter (λ t, task_key t = db_key) (pool st)).

(** The flag and the content of the object that a call finds in the
    cache; a key without an entry stands for a new [Database()]. *)
Definition found_reflecting (st : State) (e : Engine) : bool :=
  match databases st !! get_db_key e with
  | Some l => db_reflecting (deref st l)
  | None => false
  end.

Definition found_data (st : State) (e : Engine) : Data :=
  match databases st !! get_db_key e with
  | Some l => data (deref st l)
  | None => Data_new
  end.

(** What [read_expunge] reads for the key of an engine. *)
Definition stored_data (st : State) (e : Engine) : Data :=
  persist_read
    (default PStore_empty (files st !! location (engine_from_key (get_db_key e)))).

(** The accessor before any call. *)
Definition State_init (fs : gmap string PStore) : State := mkState ∅ [] fs [].

End MetaDataAccessor.

End Pkg.

(** ** Functions and predicates of the proofs *)

(** The equalities after the first one, each led by the separator. *)
Fixpoint and_clauses (l : list string) : string :=
  match l with
  | [] => ""
  | x :: r => " and " +:+ x +:+ and_clauses r
  end.

(** The columns that [write_table] gets to write, each with its
    foreign-key attributes: those before the first column whose
    attributes raise. *)
Fixpoint valid_prefix (cols : list SAColumn) : list (SAColumn * option FKInfo) :=
  match cols with
  | [] => []
  | c :: rest =>
      match _get_foreign_key_info c with
      | inr i => (c, i) :: valid_prefix rest
      | inl _ => []
      end
  end.

(** How the column loop ends on a store that has the table [dbfield]. *)
Fixpoint columns_result (cols : list SAColumn) : exn + unit :=
  match cols with
  | [] => inr tt
  | c :: rest =>
      match _get_foreign_key_info c with
      | inr _ => columns_result rest
      | inl e => inl e
      end
  end.

(** The update of one column, on one row. *)
Definition upd (table_id : Z) (ci : SAColumn * option FKInfo) (r : dbfield_row)
    : dbfield_row :=
  if field_key_matches table_id (col_name ci.1) r
  then set_field_all (col_type ci.1) ci.2 r else r.

(** Insert-or-update of one column, on the rows of [dbfield]. *)
Definition upsert (table_id : Z) (rows : list dbfield_row)
    (ci : SAColumn * option FKInfo) : list dbfield_row :=
  if existsb (field_key_matches table_id (col_name ci.1)) rows
  then upd table_id ci <$> rows
  else rows ++ [mk_dbfield_row (next_rowid (f_id <$> rows)) table_id
                  (col_name ci.1) (col_type ci.1) ci.2].

(** The updates of the columns [p], in their order, on one row. *)
Definition upd_all (table_id : Z) (p : list (SAColumn * option FKInfo))
    (r : dbfield_row) : dbfield_row :=
  foldl (λ r ci, upd table_id ci r) r p.

(** After the columns [done], every row is a fixed point of their
    updates and every one of their keys has a row. *)
Definition settled (tid : Z) (done : list (SAColumn * option FKInfo))
    (rows : list dbfield_row) : Prop :=
  (∀ r, r ∈ rows → upd_all tid done r = r)
  ∧ (∀ ci, ci ∈ done → existsb (field_key_matches tid (col_name ci.1)) rows = true).

(** The three outcomes of [table_id_of]. *)
Inductive table_id_of_spec (db_key name : string) (now : Z) (s : Store)
    : Store * (exn + Z) → Prop :=
| tio_no_table :
    dbtable s = None →
    table_id_of_spec db_key name now s (s, inl OperationalError)
| tio_found rows r :
    dbtable s = Some rows →
    List.find (table_key_matches db_key name) rows = Some r →
    table_id_of_spec db_key name now s (s, inr (t_id r))
| tio_inserted rows :
    dbtable s = Some rows →
    List.find (table_key_matches db_key name) rows = None →
    table_id_of_spec db_key name now s
      (mkStore (Some (rows ++ [mk_dbtable_row (next_rowid (t_id <$> rows)) db_key name now]))
         (dbfield s),
       inr (next_rowid (t_id <$> rows))).

(** Both tables of the store exist. *)
Definition schema_exists (s : Store) : Prop :=
  is_Some (dbtable s) ∧ is_Some (dbfield s).

(** The accessor with [m] as the entry of [db_key]. *)
Definition put_entry (db_key : string) (m : MetaData) (a : Accessor) : Accessor :=
  set_metadata <[db_key := m]> a.

(** [tablename + '.' + col.name.lower()] *)
Definition dotted_name (tablename : string) (col : SAColumn) : string :=
  tablename +:+ "." +:+ lower (col_name col).

(** What the first four lines of the column loop of [reflect_table] do
    to the entry. *)
Definition add_column (tablename : string) (m : MetaData) (col : SAColumn) : MetaData :=
  add_field (lower (col_name col)) (tablename +:+ "." +:+ lower (col_name col))
    (col_type col) m.

(** The entry after the column loop of [reflect_table]; a column whose
    foreign-key attributes raise is added before the loop ends there. *)
Fixpoint reflect_columns_entry (tablename : string) (cols : list SAColumn)
    (m : MetaData) : MetaData :=
  match cols with
  | [] => m
  | col :: rest =>
      match _get_foreign_key_info col with
      | inr _ => reflect_columns_entry tablename rest (add_column tablename m col)
      | inl _ => add_column tablename m col
      end
  end.

(** The dict [fks] after the column loop of [reflect_table], or the
    exception that ends the loop. *)
Fixpoint reflect_columns_fks (tablename : string) (cols : list SAColumn)
    (fks : list (option string * FkDict)) : exn + list (option string * FkDict) :=
  match cols with
  | [] => inr fks
  | col :: rest =>
      match _get_foreign_key_info col with
      | inr i => reflect_columns_fks tablename rest (fks_of_column tablename col i fks)
      | inl e => inl e
      end
  end.

(** The entry after the loop over [fks.iteritems()] of [reflect_table]. *)
Definition merged_entry (tablename : string) (fks : list (option string * FkDict))
    (m : MetaData) : MetaData :=
  set_foreign_keys (foldl merge_fk (foreign_keys m) (fk_of_dict <$> fks.*2)) m.

(** Everything that [m] holds, [m'] holds too. *)
Definition extends (m m' : MetaData) : Prop :=
  tables m ⊆ tables m' ∧ fields m ⊆ fields m' ∧ dottedfields m ⊆ dottedfields m'
  ∧ dom (types m) ⊆ dom (types m')
  ∧ ∀ fk, fk ∈ foreign_keys m → fk ∈ foreign_keys m'.

(** A value of the dict [fks] that belongs to the table [tn] and whose
    columns are names of [cols] as the reflector gave them. *)
Definition from_table (tn : string) (cols : list SAColumn) (d : FkDict) : Prop :=
  d_table d = tn ∧ ∀ c, c ∈ d_columns d → ∃ col, col ∈ cols ∧ c = col_name col.

(** The entry of [db_key] as [read] leaves it. *)
Definition read_entry (db_key : string) (now : Z) (a : Accessor) : MetaData :=
  let st := foldl read_row (entry a db_key, [])
              (read_rows db_key (default [] (dbtable (db a))) (default [] (dbfield (db a)))) in
  set_created (default now (max_created db_key (default [] (dbtable (db a)))))
    (set_foreign_keys (fk_of_dict <$> st.2.*2) st.1).

(** The entry of [db_key] at the staleness check of [get_metadata]. *)
Definition loaded_entry (db_key : string) (t_read : Z) (a : Accessor) : MetaData :=
  if isempty (entry a db_key)
  then set_isempty false (read_entry db_key t_read a)
  else entry a db_key.

(** The invariant of the accessor: the store has its tables, no key has
    two reflections in the pool, and a key that has one has its flag
    set. *)
Definition single_flight (a : Accessor) : Prop :=
  schema_exists (db a)
  ∧ ∀ key, (active_reflections key a ≤ 1)%nat
           ∧ (active_reflections key a = 1%nat → reflecting (entry a key) = true).

(** A name without a dot. *)
Fixpoint no_dot (s : string) : bool :=
  match s with
  | EmptyString => true
  | String c r => negb (Ascii.eqb c ".") && no_dot r
  end.

(** The foreign keys that [fields_referencing] keeps. *)
Definition refers_to (t : string) (field : option string) (fk : ForeignKey) : Prop :=
  t = reftable fk ∧ (truthy field = false ∨ default "" field ∈ refcolumns fk).

(** [df.split('.')[1]] where it exists. *)
Definition second_piece (df : string) : string :=
  default "" (split_dot df !! 1%nat).

(** The field names that the loop of [fields] collects for a table. *)
Definition fields_of_table (table : string) (dfs : list string) : list string :=
  second_piece <$> filter (λ df, split_dot df !! 0%nat = Some table) dfs.

(** The rows of [dbfield] after the insert-or-update of [write]. *)
Definition upsert_type (table_id : Z) (field type_ : string) (rows : list dbfield_row)
    : list dbfield_row :=
  if existsb (field_key_matches table_id field) rows
  then (λ r, if field_key_matches table_id field r then set_field_type type_ r else r)
         <$> rows
  else rows ++ [mk_dbfield_row (next_rowid (f_id <$> rows)) table_id field type_ None].

(** The constraint names that [read] groups the rows by: those that are
    neither [NULL] nor empty. *)
Definition constraint_names (rows : list ResultRow) : list string :=
  omap (λ r, i ← r_fk r;
             if truthy (constraint_name i) then constraint_name i else None) rows.

(** A foreign key with as many referenced columns as columns, and at
    least one. *)
Definition paired (fk : ForeignKey) : Prop :=
  length (refcolumns fk) = length (columns fk) ∧ (1 ≤ length (columns fk))%nat.

(** A key is added at the end of the keys of a dict unless it is there. *)
Definition add_key {K : Type} `{EqDecision K} (keys : list K) (name : K) : list K :=
  if bool_decide (name ∈ keys) then keys else keys ++ [name].

(** A value of the dict [fks] with as many referenced columns as
    columns, and at least one. *)
Definition paired_dict (d : FkDict) : Prop :=
  length (d_referenced_columns d) = length (d_columns d)
  ∧ (1 ≤ length (d_columns d))%nat.

(** Every foreign key of every entry of the cache is [paired]. *)
Definition fks_paired (a : Accessor) : Prop :=
  ∀ key, Forall paired (foreign_keys (entry a key)).

(** The turns in which the thread gets the pairs of a queue, one after
    the other, while [stop_now] is unset. *)
Definition turns_of (q : list (string * SATable)) (nows : list Z) : list turn :=
  zip_with (λ kt now, Got kt.1 kt.2 false now) q nows.

(** Every table of the queue has columns whose foreign-key attributes
    can be read. *)
Definition queue_writable (a : Accessor) : Prop :=
  Forall (λ kt, columns_result (sa_columns kt.2) = inr tt) (write_queue a).

(** What identifies a row of [dbfield]: its id, its table and its name. *)
Definition field_key (r : dbfield_row) : Z * Z * string :=
  (f_id r, f_table_id r, f_name r).

(** The place of a character in a list, the length of the list when it
    is not there. *)
Fixpoint index_of (c : ascii) (l : list ascii) : nat :=
  match l with
  | [] => 0
  | x :: r => if Ascii.eqb x c then 0 else S (index_of c r)
  end.

(** The sextet that a character of the url-safe alphabet stands for. *)
Definition sextet_of (c : ascii) : N :=
  N.of_nat (index_of c (urlsafe_translate <$> b64_alphabet)).

(** Reading a url-safe base64 text back, four characters at a time. *)
Fixpoint b64decode (l : list ascii) : list ascii :=
  match l with
  | c1 :: c2 :: c3 :: c4 :: rest =>
      let b1 := ascii_of_N (sextet_of c1 * 4 + sextet_of c2 / 16) in
      let b2 := ascii_of_N ((sextet_of c2 mod 16) * 16 + sextet_of c3 / 4) in
      let b3 := ascii_of_N ((sextet_of c3 mod 4) * 64 + sextet_of c4) in
      if Ascii.eqb c3 "=" then [b1]
      else if Ascii.eqb c4 "=" then [b1; b2]
      else b1 :: b2 :: b3 :: b64decode rest
  | _ => []
  end.

(** The rows of the store file and the content of the [Database] after
    the loop of [reflect_db] over the tables [ts]. *)
Definition persisted {Data PStore PTable : Type}
    (update_tables : list PTable → Data → Data)
    (persist_write_table : SATable → PStore → PStore * PTable)
    (ts : list SATable) (start : PStore * Data) : PStore * Data :=
  foldl (λ sd satable,
           let w := persist_write_table satable sd.1 in
           (w.1, update_tables [w.2] sd.2))
        start ts.

(** The row that [read] selects for a column that [write_table] has
    stored with the foreign-key attributes [ci.2]. *)
Definition row_of (tn : string) (ci : SAColumn * option FKInfo) : ResultRow :=
  mkResultRow tn (col_name ci.1) (col_type ci.1) ci.2.

(** What [read] does to its dict [fks] for such a row. *)
Definition read_fks_step (tn : string) (fks : list (string * FkDict))
    (ci : SAColumn * option FKInfo) : list (string * FkDict) :=
  match ci.2 with
  | Some i =>
      if truthy (constraint_name i)
      then fks_append (default "" (constraint_name i)) tn (referenced_table i)
             (col_name ci.1) (referenced_column i) fks
      else fks
  | None => fks
  end.

(** The columns that get into a foreign key of [read]. *)
Definition fk_columns (p : list (SAColumn * option FKInfo)) : list string :=
  omap (λ ci, i ← ci.2; if truthy (constraint_name i) then Some (col_name ci.1) else None) p.

(** A dict of [read] seen as a dict of [reflect_table]: the keys of the
    latter may be [None]. *)
Definition some_key (kd : string * FkDict) : option string * FkDict := (Some kd.1, kd.2).

(** A field row that holds what [write_table] writes for a column of
    [t] under the table id [tid]: the name, the type and the
    foreign-key attributes of the column. *)
Definition carries (tid : Z) (t : SATable) (r : dbfield_row) : Prop :=
  f_table_id r = tid
  ∧ ∃ c info, c ∈ sa_columns t ∧ _get_foreign_key_info c = inr info
              ∧ f_name r = col_name c ∧ f_type r = col_type c ∧ f_fk r = info.

(** The same for a list of columns with their attributes. *)
Definition carries_one (p : list (SAColumn * option FKInfo)) (r : dbfield_row) : Prop :=
  ∃ ci, ci ∈ p ∧ f_name r = col_name ci.1 ∧ f_type r = col_type ci.1 ∧ f_fk r = ci.2.

(** The table and the name of a field row: the key of the constraint
    [db_field_unique]. *)
Definition unique_key (r : dbfield_row) : Z * string := (f_table_id r, f_name r).

(** A connection on the store with its two tables and no row, nothing
    being uncommitted. *)
Definition fresh_connection : Connection :=
  mkConnection (mkStore (Some []) (Some [])) (mkStore (Some []) (Some [])).

(** The constraint name under which [read] files the row of a column:
    the name of its foreign key, when it has one that is not empty. *)
Definition fk_name (ci : SAColumn * option FKInfo) : option string :=
  i ← ci.2; if truthy (constraint_name i) then constraint_name i else None.

Definition ref_table (ci : SAColumn * option FKInfo) : string :=
  default "" (referenced_table <$> ci.2).

Definition ref_column (ci : SAColumn * option FKInfo) : string :=
  default "" (referenced_column <$> ci.2).

(** The columns of the constraint [k], in the order of [p]. *)
Definition named (k : string) (p : list (SAColumn * option FKInfo))
    : list (SAColumn * option FKInfo) :=
  filter (λ ci, fk_name ci = Some k) p.

(** The value that the dict of [read] has for the constraint [k] after
    the rows of [p]. *)
Definition dict_of (tn k : string) (p : list (SAColumn * option FKInfo)) : FkDict :=
  mkFkDict tn ((λ ci, col_name ci.1) <$> named k p)
    (default "" (ref_table <$> head (named k p)))
    (ref_column <$> named k p).

(** The pairs of a column and the column it refers to. *)
Definition links (fk : ForeignKey) : list (string * string) :=
  zip (columns fk) (refcolumns fk).

(** Two foreign keys that tie the same two tables by the same pairs of
    columns, in whatever order the pairs come. *)
Definition same_links (fk1 fk2 : ForeignKey) : Prop :=
  table fk1 = table fk2 ∧ reftable fk1 = reftable fk2 ∧ links fk1 ≡ₚ links fk2.

(** ** Schemas, engines and states of the examples *)

(** The schema of the specification's example: [orders.customer_id]
    refers to [customers.id]. *)
Definition orders_customers : MetaData :=
  set_foreign_keys [mkForeignKey "orders" ["customer_id"] "customers" ["id"]]
    MetaData_new.

(** A sqlite file in which ipydb has made no table yet. *)
Definition empty_store : Store := mkStore None None.

(** A store with the table [orders] of key ["k"] and its field [id]. *)
Definition store_with_orders_id : Store :=
  mkStore (Some [mk_dbtable_row 1 "k" "orders" 0])
          (Some [mk_dbfield_row 1 1 "id" "INTEGER" None]).

(** A table as a reflector spells it on a database that keeps case. *)
Definition orders_table : SATable :=
  mkSATable "Orders"
    [mkSAColumn "ID" "INTEGER" [];
     mkSAColumn "Customer_ID" "INTEGER"
       [mkSAForeignKey (Some (Some "fk_customer")) "Customers.ID"]].

(** A table whose foreign key refers to a table of another schema:
    [target_fullname] has three parts. *)
Definition qualified_fk_table : SATable :=
  mkSATable "orders"
    [mkSAColumn "customer_id" "INTEGER"
       [mkSAForeignKey (Some (Some "fk_customer")) "sales.customers.id"]].

Definition old_table : SATable := mkSATable "old" [mkSAColumn "id" "INTEGER" []].
Definition new_table : SATable := mkSATable "new" [mkSAColumn "id" "INTEGER" []].

(** Two engines for the same database; they differ in password and
    query. *)
Definition shop : Engine :=
  mkEngine (mkURL "postgresql" (Some "bob") (Some "secret") (Some "localhost")
              (Some 5432) (Some "shop") []).

Definition shop_other_password : Engine :=
  mkEngine (mkURL "postgresql" (Some "bob") (Some "changed") (Some "localhost")
              (Some 5432) (Some "shop") [("sslmode", "require")]).

(** The accessor after a first reflection of [shop], which had the one
    table [old] then, completed at time 1000. *)
Definition after_first_reflection : Accessor :=
  (reflect_metadata shop (inr [inr old_table]) 1000 (Accessor_init empty_store)).1.

Definition demo_profile : string := "/home/bob/.ipython/profile_default".

(** An accessor of the package that holds an entry for [shop], and the
    store file of [shop] with the rows of two tables, named here by the
    tables. *)
Definition pkg_after_reflection : Pkg.State unit (list string) :=
  Pkg.mkState unit (list string)
    {[ Pkg.get_db_key shop := 0%nat ]}
    [Pkg.mkDatabase unit tt false]
    {[ Pkg.location (Pkg.engine_from_key demo_profile (Pkg.get_db_key shop))
         := ["customers"; "orders"] ]}
    [].

(** A table with a foreign key whose constraint has no name. *)
Definition unnamed_fk_table : SATable :=
  mkSATable "orders"
    [mkSAColumn "customer_id" "INTEGER" [mkSAForeignKey (Some None) "customers.id"]].

(** An accessor of the package whose one [Database] is at address 0,
    with a reflection of it in the pool. *)
Definition pkg_scheduled : Pkg.State unit (list string) :=
  Pkg.mkState unit (list string)
    {[ Pkg.get_db_key shop := 0%nat ]}
    [Pkg.mkDatabase unit tt false]
    {[ Pkg.location (Pkg.engine_from_key demo_profile (Pkg.get_db_key shop))
         := ["stale"] ]}
    [Pkg.mkTask (Pkg.get_db_key shop) 0 (url shop)].

(** A table that the reflector gives without a column. *)
Definition bare_table : SATable := mkSATable "bare" [].

(** * Properties *)

(** ** [fk_as_join] *)

Lemma string_app_assoc (a b c : string) : (a +:+ b) +:+ c = a +:+ (b +:+ c).
Proof.
  induction a as [|x a IH]; [reflexivity|].
  change (String x ((a +:+ b) +:+ c) = String x (a +:+ (b +:+ c))).
  by rewrite IH.
Qed.

Lemma string_app_nil_r (a : string) : a +:+ "" = a.
Proof.
  induction a as [|x a IH]; [reflexivity|].
  change (String x (a +:+ "") = String x a). by rewrite IH.
Qed.

Lemma concat_and_cons (x : string) (l : list string) :
  String.concat " and " (x :: l) = x +:+ and_clauses l.
Proof.
  revert x. induction l as [|y l IH]; intros x.
  - simpl. by rewrite string_app_nil_r.
  - change (String.concat " and " (x :: y :: l))
      with (x +:+ " and " +:+ String.concat " and " (y :: l)).
    rewrite IH. reflexivity.
Qed.

Lemma fk_as_join_loop_and (fk : ForeignKey) (cols : list string) :
  ∀ (idx : nat) (joinstr : string),
    (length cols ≤ length (drop idx (refcolumns fk)))%nat →
    fk_as_join_loop fk idx cols joinstr " and "
    = inr (joinstr +:+
           and_clauses (zip_with (join_equality fk) (drop idx (refcolumns fk)) cols)).
Proof.
  induction cols as [|col cols IH]; intros idx joinstr Hlen.
  - simpl. destruct (drop idx (refcolumns fk)); simpl; by rewrite string_app_nil_r.
  - simpl in Hlen. simpl.
    destruct (refcolumns fk !! idx) as [refcol|] eqn:Hidx.
    + rewrite (drop_S _ _ _ Hidx) in Hlen |- *. simpl in Hlen.
      rewrite IH by lia. simpl. f_equal. unfold join_equality.
      rewrite !string_app_assoc. reflexivity.
    + apply lookup_ge_None in Hidx. rewrite drop_ge in Hlen by lia.
      simpl in Hlen. lia.
Qed.

(** C5. For a foreign key with n >= 1 source columns paired by position
    with n referenced columns, [fk_as_join] returns the head
    ["<reftable> inner join <table> on "] followed by the n equalities
    ["<reftable>.<refcol_i> = <table>.<col_i>"] in pair order, joined by
    [" and "]; for [orders.customer_id -> customers.id] it returns
    ["customers inner join orders on customers.id = orders.customer_id"]. *)
Theorem fk_as_join_renders (fk : ForeignKey) :
  (1 ≤ length (columns fk))%nat →
  length (refcolumns fk) = length (columns fk) →
  fk_as_join fk = inr (join_clause fk)
  ∧ fk_as_join (mkForeignKey "orders" ["customer_id"] "customers" ["id"])
    = inr "customers inner join orders on customers.id = orders.customer_id".
Proof.
  intros Hn Hlen. split; [|reflexivity].
  unfold fk_as_join, join_clause.
  destruct (columns fk) as [|col cols] eqn:Hc; [simpl in Hn; lia|].
  destruct (refcolumns fk) as [|refcol refcols] eqn:Hr; [discriminate|].
  simpl in Hlen. cbn [fk_as_join_loop]. rewrite Hr. cbn [lookup list_lookup].
  rewrite fk_as_join_loop_and by (rewrite Hr; rewrite skipn_cons, drop_0; lia).
  rewrite Hr. cbn [drop zip_with]. rewrite concat_and_cons.
  f_equal. unfold join_equality. rewrite !string_app_assoc. reflexivity.
Qed.

Lemma fk_as_join_renders_witness :
  fk_as_join (mkForeignKey "o" ["a"; "b"] "c" ["x"; "y"])
  = inr "c inner join o on c.x = o.a and c.y = o.b".
Proof.
  exact (proj1 (fk_as_join_renders (mkForeignKey "o" ["a"; "b"] "c" ["x"; "y"])
                 ltac:(simpl; lia) eq_refl)).
Defined.

(** ** [tables_referencing] *)

Lemma tables_referencing_fold (t x : string) (fks : list ForeignKey) :
  ∀ refs : gset string,
    x ∈ foldl (tables_referencing_step t) refs fks ↔
    x ∈ refs ∨ ∃ fk, fk ∈ fks ∧
      ((table fk = t ∧ x = reftable fk) ∨ (reftable fk = t ∧ x = table fk)).
Proof.
  induction fks as [|fk fks IH]; intros refs; simpl.
  - split; [auto|]. intros [?|(fk & Hin & _)]; [done|]. by apply elem_of_nil in Hin.
  - rewrite IH. unfold tables_referencing_step.
    split.
    + intros [Hx|(fk' & Hin & H)].
      * repeat case_decide; subst.
        -- apply elem_of_union in Hx as [?|Hx]; [auto|].
           apply elem_of_singleton in Hx. right. exists fk. split; [left|]. auto.
        -- apply elem_of_union in Hx as [?|Hx]; [auto|].
           apply elem_of_singleton in Hx. right. exists fk. split; [left|]. auto.
        -- auto.
      * right. exists fk'. split; [by right|done].
    + intros [Hx|(fk' & Hin & H)].
      * left. repeat case_decide; set_solver.
      * apply elem_of_cons in Hin as [->|Hin].
        -- left. destruct H as [[<- ->]|[<- ->]].
           ++ rewrite decide_True by done. set_solver.
           ++ case_decide as Ht; [|rewrite decide_True by done; set_solver].
              rewrite <- Ht. set_solver.
        -- right. eauto.
Qed.

(** C6. [tables_referencing(t)] holds exactly the tables tied to [t] by a
    foreign key in either direction: the [reftable] of every key whose
    [table] is [t] and the [table] of every key whose [reftable] is [t],
    and nothing else. *)
Theorem tables_referencing_exact (m : MetaData) (t x : string) :
  x ∈ tables_referencing m t ↔
  ∃ fk, fk ∈ foreign_keys m ∧
    ((table fk = t ∧ x = reftable fk) ∨ (reftable fk = t ∧ x = table fk)).
Proof.
  unfold tables_referencing. rewrite tables_referencing_fold.
  split; [intros [H|H]; [set_solver|done]|auto].
Qed.

Lemma tables_referencing_orders_customers :
  tables_referencing orders_customers "customers" = {[ "orders" ]}
  ∧ tables_referencing orders_customers "orders" = {[ "customers" ]}.
Proof. split; vm_compute; reflexivity. Qed.

(** ** The writers of the store: [write_table] and [write] *)

Lemma write_column_ok tid c i s rows :
  dbfield s = Some rows → _get_foreign_key_info c = inr i →
  write_column tid c s = (mkStore (dbtable s) (Some (upsert tid rows (c, i))), inr tt).
Proof.
  intros Hf Hi. unfold write_column, bind, lift, try_except, insert_dbfield,
    update_dbfield, upsert, upd. rewrite Hi, Hf. simpl.
  destruct (existsb _ rows); simpl; [rewrite Hf|]; reflexivity.
Qed.

Lemma write_column_raises tid c e s :
  _get_foreign_key_info c = inl e → write_column tid c s = (s, inl e).
Proof. intros Hi. unfold write_column, bind, lift. by rewrite Hi. Qed.

Lemma write_column_no_table tid c i s :
  dbfield s = None → _get_foreign_key_info c = inr i →
  write_column tid c s = (s, inl OperationalError).
Proof.
  intros Hf Hi. unfold write_column, bind, lift, try_except, insert_dbfield.
  rewrite Hi, Hf. reflexivity.
Qed.

Lemma write_columns_some tid cols : ∀ s rows,
  dbfield s = Some rows →
  write_columns tid cols s
  = (mkStore (dbtable s) (Some (foldl (upsert tid) rows (valid_prefix cols))),
     columns_result cols).
Proof.
  induction cols as [|c cols IH]; intros s rows Hf; simpl.
  - unfold ret. destruct s; simpl in *; by subst.
  - unfold bind. destruct (_get_foreign_key_info c) as [e|i] eqn:Hi.
    + rewrite (write_column_raises _ _ _ _ Hi). simpl. destruct s; simpl in *; by subst.
    + rewrite (write_column_ok _ _ _ _ _ Hf Hi).
      by rewrite (IH (mkStore (dbtable s) (Some (upsert tid rows (c, i)))) _ eq_refl).
Qed.

Lemma write_columns_none tid cols s :
  dbfield s = None →
  write_columns tid cols s
  = (s, match cols with
        | [] => inr tt
        | c :: _ => match _get_foreign_key_info c with
                    | inr _ => inl OperationalError
                    | inl e => inl e
                    end
        end).
Proof.
  intros Hf. destruct cols as [|c cols]; [reflexivity|]. simpl. unfold bind.
  destruct (_get_foreign_key_info c) as [e|i] eqn:Hi.
  - by rewrite (write_column_raises _ _ _ _ Hi).
  - by rewrite (write_column_no_table _ _ _ _ Hf Hi).
Qed.

Lemma upd_key tid ci tid' n r :
  field_key_matches tid' n (upd tid ci r) = field_key_matches tid' n r.
Proof. unfold upd. by destruct (field_key_matches tid _ r). Qed.

Lemma upd_all_snoc tid p ci r : upd_all tid (p ++ [ci]) r = upd tid ci (upd_all tid p r).
Proof. unfold upd_all. by rewrite foldl_app. Qed.

Lemma upd_all_shape tid p : ∀ r,
  f_id (upd_all tid p r) = f_id r ∧ f_table_id (upd_all tid p r) = f_table_id r
  ∧ f_name (upd_all tid p r) = f_name r.
Proof.
  induction p as [|ci p IH]; intros r; [done|]. simpl.
  destruct (IH (upd tid ci r)) as (-> & -> & ->).
  unfold upd. by destruct (field_key_matches _ _ r).
Qed.

Lemma upd_absorb tid ci a b :
  f_id a = f_id b → f_table_id a = f_table_id b → f_name a = f_name b →
  field_key_matches tid (col_name ci.1) b = true →
  upd tid ci a = upd tid ci b.
Proof.
  intros H1 H2 H3 Hm. unfold upd.
  assert (field_key_matches tid (col_name ci.1) a = true) as ->.
  { unfold field_key_matches in *. rewrite H2, H3. done. }
  rewrite Hm. unfold set_field_all. by rewrite H1, H2, H3.
Qed.

Lemma upd_upd_all_upd tid ci p r :
  upd tid ci (upd_all tid p (upd tid ci r)) = upd tid ci (upd_all tid p r).
Proof.
  destruct (field_key_matches tid (col_name ci.1) r) eqn:Hm.
  - destruct (upd_all_shape tid p (upd tid ci r)) as (E1 & E2 & E3).
    destruct (upd_all_shape tid p r) as (G1 & G2 & G3).
    apply upd_absorb.
    + rewrite E1, G1. unfold upd. by rewrite Hm.
    + rewrite E2, G2. unfold upd. by rewrite Hm.
    + rewrite E3, G3. unfold upd. by rewrite Hm.
    + unfold field_key_matches in *. by rewrite G2, G3.
  - assert (upd tid ci r = r) as -> by (unfold upd; by rewrite Hm). done.
Qed.

Lemma upd_all_no_match tid p : ∀ r,
  (∀ ci, ci ∈ p → field_key_matches tid (col_name ci.1) r = false) →
  upd_all tid p r = r.
Proof.
  induction p as [|ci p IH]; intros r H; [done|]. simpl.
  unfold upd at 1. rewrite (H ci) by left. apply IH. intros; apply H. by right.
Qed.

Lemma existsb_fmap_upd tid ci tid' n rows :
  existsb (field_key_matches tid' n) (upd tid ci <$> rows)
  = existsb (field_key_matches tid' n) rows.
Proof.
  induction rows as [|r rows IH]; [done|].
  rewrite fmap_cons. cbn [existsb]. by rewrite upd_key, IH.
Qed.

Lemma existsb_upsert tid ci tid' n rows :
  existsb (field_key_matches tid' n) rows = true →
  existsb (field_key_matches tid' n) (upsert tid rows ci) = true.
Proof.
  intros H. unfold upsert. destruct (existsb (field_key_matches tid (col_name ci.1)) rows) eqn:E.
  - by rewrite existsb_fmap_upd.
  - rewrite existsb_app, H. done.
Qed.

Lemma upsert_present tid ci rows :
  existsb (field_key_matches tid (col_name ci.1)) (upsert tid rows ci) = true.
Proof.
  unfold upsert. destruct (existsb (field_key_matches tid (col_name ci.1)) rows) eqn:E.
  - by rewrite existsb_fmap_upd.
  - rewrite existsb_app. simpl. unfold field_key_matches at 2. simpl.
    rewrite bool_decide_true by done. by rewrite orb_true_r.
Qed.

Lemma settled_step tid done ci rows :
  settled tid done rows → settled tid (done ++ [ci]) (upsert tid rows ci).
Proof.
  intros [Hfix Hpres]. split.
  - intros r' Hr'. rewrite upd_all_snoc. unfold upsert in Hr'.
    destruct (existsb (field_key_matches tid (col_name ci.1)) rows) eqn:E.
    + apply list_elem_of_fmap in Hr' as (r & -> & Hr).
      rewrite upd_upd_all_upd. by rewrite (Hfix r Hr).
    + assert (∀ r, r ∈ rows → field_key_matches tid (col_name ci.1) r = false) as Hno.
      { intros r Hr. destruct (field_key_matches _ _ r) eqn:Hm; [|done].
        assert (existsb (field_key_matches tid (col_name ci.1)) rows = true); [|congruence].
        apply existsb_exists. exists r. split; [by apply list_elem_of_In|done]. }
      apply elem_of_app in Hr' as [Hr|Hr].
      * rewrite (Hfix r' Hr). unfold upd. by rewrite (Hno r' Hr).
      * apply list_elem_of_singleton in Hr as ->.
        rewrite upd_all_no_match.
        -- unfold upd, field_key_matches. simpl. by rewrite bool_decide_true.
        -- intros cj Hcj. destruct (field_key_matches _ _ _) eqn:Hm; [|done].
           unfold field_key_matches in Hm. simpl in Hm.
           apply bool_decide_eq_true in Hm as [_ Hn].
           specialize (Hpres cj Hcj). rewrite <- Hn in Hpres. congruence.
  - intros cj Hcj. apply elem_of_app in Hcj as [Hcj|Hcj].
    + apply existsb_upsert. by apply Hpres.
    + apply list_elem_of_singleton in Hcj as ->. apply upsert_present.
Qed.

Lemma settled_fold tid p : ∀ done rows,
  settled tid done rows → settled tid (done ++ p) (foldl (upsert tid) rows p).
Proof.
  induction p as [|ci p IH]; intros done rows H; simpl.
  - by rewrite app_nil_r.
  - replace (done ++ ci :: p) with ((done ++ [ci]) ++ p) by by rewrite <- app_assoc.
    apply IH. by apply settled_step.
Qed.

Lemma upsert_all_present tid p : ∀ rows,
  (∀ ci, ci ∈ p → existsb (field_key_matches tid (col_name ci.1)) rows = true) →
  foldl (upsert tid) rows p = upd_all tid p <$> rows.
Proof.
  induction p as [|ci p IH]; intros rows H; simpl.
  - unfold upd_all. simpl. by rewrite list_fmap_id.
  - unfold upsert at 2. rewrite (H ci) by left. rewrite IH.
    + rewrite <- list_fmap_compose. reflexivity.
    + intros cj Hcj. rewrite existsb_fmap_upd. apply H. by right.
Qed.

Lemma fmap_fixed {A} (f : A → A) (l : list A) :
  (∀ x, x ∈ l → f x = x) → f <$> l = l.
Proof.
  induction l as [|x l IH]; intros H; [done|].
  rewrite fmap_cons, (H x) by left. f_equal. apply IH. intros; apply H. by right.
Qed.

Lemma upsert_twice tid p rows :
  foldl (upsert tid) (foldl (upsert tid) rows p) p = foldl (upsert tid) rows p.
Proof.
  destruct (settled_fold tid p [] rows) as [Hfix Hpres].
  { split; [done|]. intros ci Hci. by apply elem_of_nil in Hci. }
  simpl in *. rewrite upsert_all_present by done. by apply fmap_fixed.
Qed.

Lemma find_none_existsb {A} (f : A → bool) (l : list A) :
  List.find f l = None → existsb f l = false.
Proof.
  induction l as [|x l IH]; [done|]. simpl. destruct (f x); [done|]. exact IH.
Qed.

Lemma find_app_new {A} (f : A → bool) (l : list A) (x : A) :
  List.find f l = None → f x = true → List.find f (l ++ [x]) = Some x.
Proof.
  induction l as [|y l IH]; simpl; intros Hl Hx; [by rewrite Hx|].
  destruct (f y); [done|]. by apply IH.
Qed.

Lemma table_id_of_cases db_key name now s :
  table_id_of_spec db_key name now s (table_id_of db_key name now s).
Proof.
  unfold table_id_of, bind, select_table_id, insert_dbtable, ret.
  destruct (dbtable s) as [rows|] eqn:Ht; [|by constructor].
  destruct (List.find _ rows) as [r|] eqn:Hfind; simpl.
  - by econstructor.
  - rewrite Ht, (find_none_existsb _ _ Hfind). by constructor.
Qed.

Lemma table_id_of_again db_key name now now' s s1 tid :
  table_id_of db_key name now s = (s1, inr tid) →
  table_id_of db_key name now' s1 = (s1, inr tid).
Proof.
  intros H. pose proof (table_id_of_cases db_key name now s) as C.
  rewrite H in C. inversion C as [|rows r Ht Hf|rows Ht Hf]; subst.
  - unfold table_id_of, bind, select_table_id, ret. by rewrite Ht, Hf.
  - unfold table_id_of, bind, select_table_id, ret. simpl.
    rewrite (find_app_new _ _ _ Hf); [done|].
    unfold table_key_matches. simpl. by rewrite bool_decide_true.
Qed.

Lemma table_id_of_raises db_key name now s s1 e :
  table_id_of db_key name now s = (s1, inl e) → s1 = s ∧ e = OperationalError.
Proof.
  intros H. pose proof (table_id_of_cases db_key name now s) as C.
  rewrite H in C. by inversion C.
Qed.

Lemma write_columns_again tid cols s :
  write_columns tid cols (write_columns tid cols s).1
  = write_columns tid cols s.
Proof.
  destruct (dbfield s) as [rows|] eqn:Hf.
  - rewrite (write_columns_some _ _ _ _ Hf). simpl.
    erewrite write_columns_some by reflexivity. simpl. by rewrite upsert_twice.
  - rewrite (write_columns_none _ _ _ Hf). simpl.
    by rewrite (write_columns_none _ _ _ Hf).
Qed.

Lemma write_columns_dbtable tid cols s :
  dbtable (write_columns tid cols s).1 = dbtable s.
Proof.
  destruct (dbfield s) eqn:Hf.
  - by rewrite (write_columns_some _ _ _ _ Hf).
  - by rewrite (write_columns_none _ _ _ Hf).
Qed.

Lemma table_id_of_frame db_key name now s s' tid :
  dbtable s' = dbtable s →
  table_id_of db_key name now s = (s, inr tid) →
  table_id_of db_key name now s' = (s', inr tid).
Proof.
  intros Hs H. pose proof (table_id_of_cases db_key name now s) as C.
  rewrite H in C. inversion C as [|rows r Ht Hf|rows Ht Hf Hst]; subst.
  - unfold table_id_of, bind, select_table_id, ret. by rewrite Hs, Ht, Hf.
  - exfalso. rewrite <- Hst in Ht. simpl in Ht. injection Ht as Ht.
    apply (f_equal length) in Ht. rewrite length_app in Ht. simpl in Ht. lia.
Qed.

(** C3. Calling [write_table] a second time with the same key and table,
    on the store the first call left, leaves that store as it is and
    ends as the first call did: the second call changes no row. This
    holds from every store and whatever the clock shows at the two
    calls. *)
Theorem write_table_idempotent (db_key : string) (t : SATable) (now now' : Z) (s : Store) :
  write_table db_key t now' (write_table db_key t now s).1
  = write_table db_key t now s.
Proof.
  unfold write_table, bind.
  destruct (table_id_of db_key (sa_name t) now s) as [s1 [e|tid]] eqn:H1.
  - destruct (table_id_of_raises _ _ _ _ _ _ H1) as [-> ->]. simpl.
    pose proof (table_id_of_cases db_key (sa_name t) now s) as C. rewrite H1 in C.
    inversion C as [Ht| |].
    unfold table_id_of, bind, select_table_id. by rewrite Ht.
  - pose proof (table_id_of_again _ _ _ now' _ _ _ H1) as H2.
    rewrite (table_id_of_frame _ _ _ s1 _ tid); simpl;
      [|apply write_columns_dbtable|exact H2].
    apply write_columns_again.
Qed.

Lemma columns_result_no_integrity cols : columns_result cols ≠ inl IntegrityError.
Proof.
  induction cols as [|c cols IH]; [done|]. simpl.
  unfold _get_foreign_key_info in *.
  destruct (col_foreign_keys c) as [|fk ?]; [done|].
  destruct (fk_constraint fk); [|done].
  destruct (split_dot _) as [|? [|? [|? ?]]]; done.
Qed.

Lemma get_foreign_key_info_raises c e :
  _get_foreign_key_info c = inl e → e = ValueError.
Proof.
  unfold _get_foreign_key_info.
  destruct (col_foreign_keys c) as [|fk ?]; [done|].
  destruct (fk_constraint fk); [|done].
  destruct (split_dot _) as [|? [|? [|? ?]]]; congruence.
Qed.

Lemma write_columns_no_integrity tid cols s :
  (write_columns tid cols s).2 ≠ inl IntegrityError.
Proof.
  destruct (dbfield s) as [rows|] eqn:Hf.
  - rewrite (write_columns_some _ _ _ _ Hf). apply columns_result_no_integrity.
  - rewrite (write_columns_none _ _ _ Hf). simpl. destruct cols as [|c ?]; [done|].
    destruct (_get_foreign_key_info c) eqn:Hi; [|done].
    apply get_foreign_key_info_raises in Hi. by subst.
Qed.

(** ** Reflection into the cache: [reflect_table] and [reflect_metadata] *)

Lemma update_entry_put db_key f a :
  update_entry db_key f a = put_entry db_key (f (entry a db_key)) a.
Proof. reflexivity. Qed.

Lemma put_entry_put db_key m m' a :
  put_entry db_key m' (put_entry db_key m a) = put_entry db_key m' a.
Proof.
  unfold put_entry, set_metadata. simpl. by rewrite insert_insert_eq.
Qed.

Lemma entry_put db_key m a : entry (put_entry db_key m a) db_key = m.
Proof. unfold entry, put_entry. simpl. by rewrite lookup_insert_eq. Qed.

Lemma entry_put_ne db_key k m a :
  db_key ≠ k → entry (put_entry db_key m a) k = entry a k.
Proof. intros H. unfold entry, put_entry. simpl. by rewrite lookup_insert_ne. Qed.

Lemma reflect_columns_eq db_key tablename cols : ∀ fks m a,
  reflect_columns db_key tablename cols fks (put_entry db_key m a)
  = (put_entry db_key (reflect_columns_entry tablename cols m) a,
     reflect_columns_fks tablename cols fks).
Proof.
  induction cols as [|col cols IH]; intros fks m a; [reflexivity|].
  cbn [reflect_columns reflect_columns_entry reflect_columns_fks].
  unfold bind at 1. unfold modify at 1. rewrite update_entry_put, entry_put, put_entry_put.
  unfold bind at 1. unfold lift at 1.
  destruct (_get_foreign_key_info col) as [e|i]; [reflexivity|].
  apply IH.
Qed.

Lemma reflect_table_eq db_key t a :
  reflect_table db_key (inr t) a
  = let tablename := lower (sa_name t) in
    let m := set_isempty false (add_table tablename (entry a db_key)) in
    let m1 := reflect_columns_entry tablename (sa_columns t) m in
    match reflect_columns_fks tablename (sa_columns t) [] with
    | inr fks =>
        (set_write_queue (λ q, q ++ [(db_key, t)])
           (put_entry db_key (merged_entry tablename fks m1) a), inr tt)
    | inl e => (put_entry db_key m1 a, inl e)
    end.
Proof.
  unfold reflect_table. unfold bind at 1. unfold lift at 1.
  unfold bind at 1. unfold modify at 1. rewrite update_entry_put.
  unfold bind at 1. rewrite reflect_columns_eq. cbv zeta.
  destruct (reflect_columns_fks _ _ _) as [e|fks]; [reflexivity|].
  unfold bind, modify. rewrite update_entry_put, entry_put, put_entry_put.
  reflexivity.
Qed.

Lemma extends_refl m : extends m m.
Proof. unfold extends. set_solver. Qed.

Lemma extends_trans m1 m2 m3 : extends m1 m2 → extends m2 m3 → extends m1 m3.
Proof. unfold extends. intros (?&?&?&?&?) (?&?&?&?&?). set_solver. Qed.

Lemma rcf_ok_entry tn cols : ∀ fks fks' m,
  reflect_columns_fks tn cols fks = inr fks' →
  reflect_columns_entry tn cols m = foldl (add_column tn) m cols.
Proof.
  induction cols as [|col cols IH]; intros fks fks' m H; [done|]. simpl in *.
  destruct (_get_foreign_key_info col); [done|]. by eapply IH.
Qed.

Lemma fold_add_column tn cols : ∀ m,
  let m' := foldl (add_column tn) m cols in
  isempty m' = isempty m ∧ reflecting m' = reflecting m ∧ created m' = created m
  ∧ tables m' = tables m ∧ foreign_keys m' = foreign_keys m
  ∧ fields m' = fields m ∪ list_to_set ((λ c, lower (col_name c)) <$> cols)
  ∧ dottedfields m' = dottedfields m ∪ list_to_set (dotted_name tn <$> cols)
  ∧ dom (types m') = dom (types m) ∪ list_to_set (dotted_name tn <$> cols).
Proof.
  induction cols as [|col cols IH]; intros m; simpl.
  - repeat split; set_solver.
  - destruct (IH (add_column tn m col)) as (-> & -> & -> & -> & -> & -> & -> & ->).
    simpl. rewrite dom_insert_L. unfold dotted_name. clear IH.
    repeat split; set_solver.
Qed.

Lemma rce_extends tn cols : ∀ m,
  let m' := reflect_columns_entry tn cols m in
  extends m m' ∧ isempty m' = isempty m ∧ reflecting m' = reflecting m
  ∧ created m' = created m.
Proof.
  induction cols as [|col cols IH]; intros m; simpl.
  - split; [apply extends_refl|done].
  - assert (extends m (add_column tn m col)) as Hext.
    { unfold extends, add_column, add_field. simpl. rewrite dom_insert_L.
      clear IH. set_solver. }
    destruct (_get_foreign_key_info col); [by split|].
    destruct (IH (add_column tn m col)) as (H & -> & -> & ->).
    split; [by eapply extends_trans|done].
Qed.

Lemma elem_of_remove_first x fk l : x ∈ remove_first fk l → x ∈ l.
Proof.
  induction l as [|y l IH]; simpl; [done|]. case_decide; set_solver.
Qed.

Lemma elem_of_remove_first_or x fk l : x ∈ l → x = fk ∨ x ∈ remove_first fk l.
Proof.
  induction l as [|y l IH]; simpl; [set_solver|]. intros Hx.
  case_decide; subst; set_solver.
Qed.

Lemma elem_of_merge_fk x l fk : x ∈ merge_fk l fk ↔ x ∈ l ∨ x = fk.
Proof.
  unfold merge_fk. rewrite elem_of_app, list_elem_of_singleton. split.
  - intros [H|H]; [left; by eapply elem_of_remove_first|by right].
  - intros [H|H]; [|by right].
    destruct (elem_of_remove_first_or x fk l H); auto.
Qed.

Lemma elem_of_merge_fks x news : ∀ l,
  x ∈ foldl merge_fk l news ↔ x ∈ l ∨ x ∈ news.
Proof.
  induction news as [|fk news IH]; intros l; simpl.
  - set_solver.
  - rewrite IH, elem_of_merge_fk, elem_of_cons. tauto.
Qed.

Lemma merged_entry_extends tn fks m : extends m (merged_entry tn fks m).
Proof.
  unfold extends, merged_entry. simpl. repeat split; try done.
  intros fk H. apply elem_of_merge_fks. by left.
Qed.

(** What a run of [reflect_table] leaves untouched, and that the entry
    only grows, whether the run returns or raises. *)
Lemma reflect_table_frame db_key loaded a :
  let a' := (reflect_table db_key loaded a).1 in
  pool a' = pool a ∧ db a' = db a
  ∧ (∀ k, k ≠ db_key → metadata a' !! k = metadata a !! k)
  ∧ reflecting (entry a' db_key) = reflecting (entry a db_key)
  ∧ created (entry a' db_key) = created (entry a db_key)
  ∧ extends (entry a db_key) (entry a' db_key).
Proof.
  destruct loaded as [e|t].
  - simpl. split_and!; try done; apply extends_refl.
  - rewrite reflect_table_eq. cbv zeta.
    set (m := set_isempty false (add_table (lower (sa_name t)) (entry a db_key))).
    assert (extends (entry a db_key) m) as Hm.
    { unfold extends, m. simpl. set_solver. }
    destruct (rce_extends (lower (sa_name t)) (sa_columns t) m) as (H1 & H2 & H3 & H4).
    destruct (reflect_columns_fks _ _ _) as [e|fks]; simpl.
    + rewrite entry_put. split_and!; try done.
      * intros k Hk. by rewrite lookup_insert_ne.
      * by eapply extends_trans.
    + unfold set_write_queue, entry. simpl. rewrite lookup_insert_eq. simpl.
      split_and!; try done.
      * intros k Hk. by rewrite lookup_insert_ne.
      * eapply extends_trans; [exact Hm|]. eapply extends_trans; [exact H1|].
        apply merged_entry_extends.
Qed.

Lemma reflect_table_adds db_key t a :
  (reflect_table db_key (inr t) a).2 = inr tt →
  lower (sa_name t) ∈ tables (entry (reflect_table db_key (inr t) a).1 db_key).
Proof.
  rewrite reflect_table_eq. cbv zeta.
  destruct (reflect_columns_fks _ _ _) as [e|fks] eqn:Hf; [done|]. intros _.
  rewrite (rcf_ok_entry _ _ _ _ _ Hf). cbn [fst].
  match goal with
  | |- _ ∈ tables (entry (set_write_queue _ (put_entry _ ?m _)) _) =>
      change (lower (sa_name t) ∈ tables (entry (put_entry db_key m a) db_key))
  end.
  rewrite entry_put. unfold merged_entry. cbn [tables set_foreign_keys].
  destruct (fold_add_column (lower (sa_name t)) (sa_columns t)
              (set_isempty false (add_table (lower (sa_name t)) (entry a db_key))))
    as (_ & _ & _ & -> & _). cbn [tables set_isempty add_table]. set_solver.
Qed.

Lemma reflect_tables_frame db_key ts : ∀ a,
  let a' := (reflect_tables db_key ts a).1 in
  pool a' = pool a ∧ db a' = db a
  ∧ (∀ k, k ≠ db_key → metadata a' !! k = metadata a !! k)
  ∧ reflecting (entry a' db_key) = reflecting (entry a db_key)
  ∧ created (entry a' db_key) = created (entry a db_key)
  ∧ extends (entry a db_key) (entry a' db_key).
Proof.
  induction ts as [|t ts IH]; intros a; simpl.
  - split_and!; try done; apply extends_refl.
  - unfold bind. pose proof (reflect_table_frame db_key t a) as F. cbv zeta in F.
    destruct (reflect_table db_key t a) as [a1 [e|[]]]; simpl in *; [exact F|].
    destruct F as (F1 & F2 & F3 & F4 & F5 & F6).
    destruct (IH a1) as (G1 & G2 & G3 & G4 & G5 & G6).
    rewrite G1, G2, G4, G5, F1, F2, F4, F5. split_and!; try done.
    + intros k Hk. by rewrite G3, F3.
    + by eapply extends_trans.
Qed.

Lemma reflect_tables_adds db_key ts : ∀ a t,
  (reflect_tables db_key ts a).2 = inr tt → inr t ∈ ts →
  lower (sa_name t) ∈ tables (entry (reflect_tables db_key ts a).1 db_key).
Proof.
  induction ts as [|t0 ts IH]; intros a t Hok Hin; [by apply elem_of_nil in Hin|].
  simpl in *. unfold bind in *.
  pose proof (reflect_table_adds db_key) as A.
  destruct (reflect_table db_key t0 a) as [a1 [e|[]]] eqn:E; [done|].
  apply elem_of_cons in Hin as [<-|Hin].
  - destruct (reflect_tables_frame db_key ts a1) as (_&_&_&_&_&(G&_)).
    apply G. specialize (A t a). rewrite E in A. by apply A.
  - by apply IH.
Qed.

Lemma reflect_table_adds_columns db_key t a col :
  (reflect_table db_key (inr t) a).2 = inr tt → col ∈ sa_columns t →
  let m' := entry (reflect_table db_key (inr t) a).1 db_key in
  lower (col_name col) ∈ fields m'
  ∧ dotted_name (lower (sa_name t)) col ∈ dottedfields m'
  ∧ dotted_name (lower (sa_name t)) col ∈ dom (types m').
Proof.
  rewrite reflect_table_eq. cbv zeta.
  destruct (reflect_columns_fks _ _ _) as [e|fks] eqn:Hf; [done|]. intros _ Hcol.
  rewrite (rcf_ok_entry _ _ _ _ _ Hf). cbn [fst].
  match goal with
  | |- context [entry (set_write_queue ?f (put_entry _ ?m _)) _] =>
      change (entry (set_write_queue f (put_entry db_key m a)) db_key)
        with (entry (put_entry db_key m a) db_key)
  end.
  rewrite entry_put. unfold merged_entry.
  cbn [fields dottedfields types set_foreign_keys].
  destruct (fold_add_column (lower (sa_name t)) (sa_columns t)
              (set_isempty false (add_table (lower (sa_name t)) (entry a db_key))))
    as (_ & _ & _ & _ & _ & -> & -> & ->).
  assert (lower (col_name col)
          ∈ (list_to_set ((λ c, lower (col_name c)) <$> sa_columns t) : gset string)) as H1.
  { apply elem_of_list_to_set, list_elem_of_fmap. eauto. }
  assert (dotted_name (lower (sa_name t)) col
          ∈ (list_to_set (dotted_name (lower (sa_name t)) <$> sa_columns t) : gset string))
    as H2.
  { apply elem_of_list_to_set, list_elem_of_fmap. eauto. }
  set_solver.
Qed.

Lemma reflect_tables_adds_columns db_key ts : ∀ a t col,
  (reflect_tables db_key ts a).2 = inr tt → inr t ∈ ts → col ∈ sa_columns t →
  let m' := entry (reflect_tables db_key ts a).1 db_key in
  lower (col_name col) ∈ fields m'
  ∧ dotted_name (lower (sa_name t)) col ∈ dottedfields m'
  ∧ dotted_name (lower (sa_name t)) col ∈ dom (types m').
Proof.
  induction ts as [|t0 ts IH]; intros a t col Hok Hin Hcol; [by apply elem_of_nil in Hin|].
  simpl in *. unfold bind in *.
  pose proof (reflect_table_adds_columns db_key) as A.
  destruct (reflect_table db_key t0 a) as [a1 [e|[]]] eqn:E; [done|].
  apply elem_of_cons in Hin as [<-|Hin].
  - destruct (reflect_tables_frame db_key ts a1) as (_&_&_&_&_&(_&G2&G3&G4&_)).
    specialize (A t a col). rewrite E in A. destruct (A eq_refl Hcol) as (A1 & A2 & A3).
    cbn [fst] in *. split_and!; [by apply G2|by apply G3|by apply G4].
  - by apply IH.
Qed.

Lemma fks_append_from_table {K} `{EqDecision K} tn cols (name : K) rt col rc fks :
  col ∈ cols →
  Forall (λ kd, from_table tn cols kd.2) fks →
  Forall (λ kd, from_table tn cols kd.2) (fks_append name tn rt (col_name col) rc fks).
Proof.
  intros Hcol Hall. unfold fks_append. case_bool_decide.
  - apply Forall_fmap. eapply Forall_impl; [exact Hall|].
    intros [k d] [Ht Hc]. simpl in *. case_decide; simpl; [|by split].
    split; [done|]. intros c Hin. apply elem_of_app in Hin as [Hin|Hin]; [by apply Hc|].
    apply list_elem_of_singleton in Hin as ->. eauto.
  - apply Forall_app. split; [done|]. apply Forall_singleton. split; [done|].
    intros c Hin. apply list_elem_of_singleton in Hin as ->. eauto.
Qed.

Lemma fks_append_keeps {K} `{EqDecision K} (name : K) tn rt col rc fks k d c :
  (k, d) ∈ fks → c ∈ d_columns d →
  ∃ d', (k, d') ∈ fks_append name tn rt col rc fks ∧ c ∈ d_columns d'.
Proof.
  intros Hin Hc. unfold fks_append. case_bool_decide.
  - destruct (decide (k = name)) as [->|Hne].
    + exists (dict_append col rc d). split.
      * apply list_elem_of_fmap. exists (name, d). simpl. by rewrite decide_True.
      * simpl. apply elem_of_app. by left.
    + exists d. split; [|done]. apply list_elem_of_fmap. exists (k, d). simpl.
      by rewrite decide_False.
  - exists d. split; [|done]. apply elem_of_app. by left.
Qed.

Lemma fks_append_has {K} `{EqDecision K} (name : K) tn rt col rc fks :
  ∃ d, (name, d) ∈ fks_append name tn rt col rc fks ∧ col ∈ d_columns d.
Proof.
  unfold fks_append. case_bool_decide as Hin.
  - apply list_elem_of_fmap in Hin as ([k d] & -> & Hin). simpl.
    exists (dict_append col rc d). split.
    + apply list_elem_of_fmap. exists (k, d). simpl. by rewrite decide_True.
    + simpl. apply elem_of_app. right. by apply list_elem_of_singleton.
  - eexists. split; [apply elem_of_app; right; by apply list_elem_of_singleton|].
    simpl. by apply list_elem_of_singleton.
Qed.

Lemma rcf_from_table tn cols cs : ∀ fks fks',
  (∀ c, c ∈ cs → c ∈ cols) →
  Forall (λ kd, from_table tn cols kd.2) fks →
  reflect_columns_fks tn cs fks = inr fks' →
  Forall (λ kd, from_table tn cols kd.2) fks'.
Proof.
  induction cs as [|col cs IH]; intros fks fks' Hsub Hall H; simpl in H.
  - by simplify_eq.
  - destruct (_get_foreign_key_info col) as [e|i]; [done|].
    eapply IH; [| |exact H].
    + intros c Hc. apply Hsub. by right.
    + unfold fks_of_column. destruct i as [i|]; [|done].
      destruct (truthy _); [|done].
      apply fks_append_from_table; [|done]. apply Hsub. by left.
Qed.

Lemma rcf_keeps tn cs : ∀ fks fks' k d c,
  reflect_columns_fks tn cs fks = inr fks' →
  (k, d) ∈ fks → c ∈ d_columns d →
  ∃ d', (k, d') ∈ fks' ∧ c ∈ d_columns d'.
Proof.
  induction cs as [|col cs IH]; intros fks fks' k d c H Hin Hc; simpl in H.
  - simplify_eq. eauto.
  - destruct (_get_foreign_key_info col) as [e|i]; [done|].
    unfold fks_of_column in H. destruct i as [i|]; [|by eapply IH].
    destruct (truthy _); [|by eapply IH].
    destruct (fks_append_keeps (constraint_name i) tn (referenced_table i)
                (col_name col) (referenced_column i) fks k d c Hin Hc) as (d' & Hin' & Hc').
    by eapply IH.
Qed.

Lemma rcf_covers tn cs : ∀ fks fks' col i,
  reflect_columns_fks tn cs fks = inr fks' →
  col ∈ cs → _get_foreign_key_info col = inr (Some i) →
  referenced_column i ≠ "" →
  ∃ kd, kd ∈ fks' ∧ col_name col ∈ d_columns kd.2.
Proof.
  induction cs as [|c0 cs IH]; intros fks fks' col i H Hin Hi Hrc;
    [by apply elem_of_nil in Hin|].
  simpl in H. apply elem_of_cons in Hin as [->|Hin].
  - rewrite Hi in H. unfold fks_of_column in H.
    assert (truthy (Some (referenced_column i)) = true) as Ht.
    { simpl. apply negb_true_iff. by apply String.eqb_neq. }
    rewrite Ht in H.
    destruct (fks_append_has (constraint_name i) tn (referenced_table i)
                (col_name c0) (referenced_column i) fks) as (d & Hd & Hc).
    destruct (rcf_keeps _ _ _ _ _ _ _ H Hd Hc) as (d' & Hd' & Hc').
    exists (constraint_name i, d'). done.
  - destruct (_get_foreign_key_info c0) as [e|i0]; [done|]. by eapply IH.
Qed.

(** C10. After [reflect_table] has returned, what it added to [tables],
    [fields], [dottedfields] and the keys of [types] are the lowercased
    table and column names, while every column name inside a
    [ForeignKey] it built is the [name] of a reflected column as the
    reflector spelled it, and every column with a foreign key is in one
    of them under that spelling. *)
Theorem reflect_table_names (db_key : string) (t : SATable) (a : Accessor) :
  (reflect_table db_key (inr t) a).2 = inr tt →
  let m := entry a db_key in
  let m' := entry (reflect_table db_key (inr t) a).1 db_key in
  let tn := lower (sa_name t) in
  tables m' = tables m ∪ {[ tn ]}
  ∧ fields m' = fields m ∪ list_to_set ((λ c, lower (col_name c)) <$> sa_columns t)
  ∧ dottedfields m' = dottedfields m ∪ list_to_set (dotted_name tn <$> sa_columns t)
  ∧ dom (types m') = dom (types m) ∪ list_to_set (dotted_name tn <$> sa_columns t)
  ∧ (∀ fk, fk ∈ foreign_keys m' →
       fk ∈ foreign_keys m
       ∨ (table fk = tn
          ∧ ∀ c, c ∈ columns fk → ∃ col, col ∈ sa_columns t ∧ c = col_name col))
  ∧ (∀ col i, col ∈ sa_columns t →
       _get_foreign_key_info col = inr (Some i) → referenced_column i ≠ "" →
       ∃ fk, fk ∈ foreign_keys m' ∧ table fk = tn ∧ col_name col ∈ columns fk).
Proof.
  rewrite reflect_table_eq. cbv zeta.
  destruct (reflect_columns_fks _ _ _) as [e|fks] eqn:Hf; [done|]. intros _.
  rewrite (rcf_ok_entry _ _ _ _ _ Hf). cbn [fst].
  match goal with
  | |- context [entry (set_write_queue ?f (put_entry _ ?m _)) _] =>
      change (entry (set_write_queue f (put_entry db_key m a)) db_key)
        with (entry (put_entry db_key m a) db_key)
  end.
  rewrite entry_put. unfold merged_entry.
  cbn [tables fields dottedfields types foreign_keys set_foreign_keys].
  destruct (fold_add_column (lower (sa_name t)) (sa_columns t)
              (set_isempty false (add_table (lower (sa_name t)) (entry a db_key))))
    as (_ & _ & _ & -> & -> & -> & -> & ->).
  cbn [tables fields dottedfields types foreign_keys set_isempty add_table].
  assert (Forall (λ kd : option string * FkDict,
                    from_table (lower (sa_name t)) (sa_columns t) kd.2) fks) as Hall.
  { apply (rcf_from_table _ _ (sa_columns t) [] fks); [auto|constructor|exact Hf]. }
  split_and!; try done.
  - intros fk Hfk. apply elem_of_merge_fks in Hfk as [Hfk|Hfk]; [by left|right].
    apply list_elem_of_fmap in Hfk as (d & -> & Hd).
    apply list_elem_of_fmap in Hd as (kd & -> & Hkd).
    rewrite Forall_forall in Hall. exact (Hall kd Hkd).
  - intros col i Hcol Hi Hrc.
    destruct (rcf_covers _ _ _ _ _ _ Hf Hcol Hi Hrc) as (kd & Hkd & Hc).
    exists (fk_of_dict kd.2). split_and!.
    + apply elem_of_merge_fks. right. apply list_elem_of_fmap. exists kd.2.
      split; [done|]. apply list_elem_of_fmap. by exists kd.
    + rewrite Forall_forall in Hall. exact (proj1 (Hall kd Hkd)).
    + done.
Qed.

Lemma reflect_table_names_witness :
  (reflect_table "k" (inr orders_table) (Accessor_init empty_store)).2 = inr tt
  ∧ let m' := entry (reflect_table "k" (inr orders_table)
                       (Accessor_init empty_store)).1 "k" in
    tables m' = ∅ ∪ {[ "orders" ]}
    ∧ fields m' = ∅ ∪ {[ "id"; "customer_id" ]}
    ∧ foreign_keys m' = [mkForeignKey "orders" ["Customer_ID"] "Customers" ["ID"]].
Proof.
  split; [vm_compute; reflexivity|].
  destruct (reflect_table_names "k" orders_table (Accessor_init empty_store)
              ltac:(vm_compute; reflexivity)) as (H1 & H2 & _).
  split; [exact H1|]. split; [rewrite H2; vm_compute; reflexivity|].
  vm_compute. reflexivity.
Defined.

Lemma reflect_metadata_eq target reflected now a :
  reflect_metadata target reflected now a
  = let db_key := get_db_key (url target) in
    match reflected with
    | inl e => (a, inl e)
    | inr ts =>
        match reflect_tables db_key ts a with
        | (a1, inr _) =>
            (put_entry db_key
               (set_reflecting false (set_created now (entry a1 db_key))) a1, inr tt)
        | (a1, inl e) => (a1, inl e)
        end
    end.
Proof.
  unfold reflect_metadata, bind, lift. destruct reflected as [e|ts]; [reflexivity|].
  cbv zeta. destruct (reflect_tables _ ts a) as [a1 [e|[]]]; [reflexivity|].
  unfold modify. rewrite !update_entry_put, entry_put, put_entry_put. reflexivity.
Qed.

(** C8, as the code has it. When a reflection completes, the entry of
    the key is the entry from before, added to: every table, field,
    dotted field, type key and foreign key it held is still there, the
    lowercased names of the reflected tables are in [tables], [created]
    is the completion time and [reflecting] is unset. *)
Theorem reflection_merges_into_entry (target : Engine)
    (ts : list (exn + SATable)) (now : Z) (a : Accessor) :
  (reflect_metadata target (inr ts) now a).2 = inr tt →
  let db_key := get_db_key (url target) in
  let m := entry a db_key in
  let m' := entry (reflect_metadata target (inr ts) now a).1 db_key in
  tables m ⊆ tables m' ∧ fields m ⊆ fields m' ∧ dottedfields m ⊆ dottedfields m'
  ∧ dom (types m) ⊆ dom (types m')
  ∧ (∀ fk, fk ∈ foreign_keys m → fk ∈ foreign_keys m')
  ∧ (∀ t, inr t ∈ ts → lower (sa_name t) ∈ tables m')
  ∧ (∀ t col, inr t ∈ ts → col ∈ sa_columns t →
       lower (col_name col) ∈ fields m'
       ∧ dotted_name (lower (sa_name t)) col ∈ dottedfields m'
       ∧ dotted_name (lower (sa_name t)) col ∈ dom (types m'))
  ∧ created m' = now ∧ reflecting m' = false.
Proof.
  rewrite reflect_metadata_eq. cbv zeta.
  pose proof (reflect_tables_frame (get_db_key (url target)) ts a) as F.
  pose proof (reflect_tables_adds (get_db_key (url target)) ts a) as A.
  pose proof (reflect_tables_adds_columns (get_db_key (url target)) ts a) as C.
  cbv zeta in F, C.
  destruct (reflect_tables _ ts a) as [a1 [e|[]]]; [done|]. intros _.
  cbn [fst snd] in *. rewrite entry_put.
  destruct F as (_ & _ & _ & _ & _ & (F1 & F2 & F3 & F4 & F5)).
  cbn [tables fields dottedfields types foreign_keys created reflecting
         set_reflecting set_created].
  split_and!; try done.
  - intros t Ht. by apply A.
  - intros t col Ht Hcol. by apply C.
Qed.

Lemma reflection_merges_into_entry_witness :
  (reflect_metadata shop (inr [inr new_table]) 2000 after_first_reflection).2 = inr tt
  ∧ "old" ∈ tables (entry (reflect_metadata shop (inr [inr new_table]) 2000
                            after_first_reflection).1 (get_db_key (url shop))).
Proof.
  split; [vm_compute; reflexivity|].
  destruct (reflection_merges_into_entry shop [inr new_table] 2000 after_first_reflection
              ltac:(vm_compute; reflexivity)) as (H & _).
  apply H. vm_compute. reflexivity.
Defined.

(** C8 as stated fails: the database had the table [old] at the first
    reflection and has only [new] at the second; after the second has
    completed the entry still holds [old] and its field. *)
Lemma dropped_table_survives_reflection :
  let key := get_db_key (url shop) in
  let r := reflect_metadata shop (inr [inr new_table]) 2000 after_first_reflection in
  tables (entry after_first_reflection key) = {[ "old" ]}
  ∧ r.2 = inr tt
  ∧ tables (entry r.1 key) = {[ "old"; "new" ]}
  ∧ dottedfields (entry r.1 key) = {[ "old.id"; "new.id" ]}.
Proof. cbv zeta. split_and!; vm_compute; reflexivity. Qed.

(** So the tables of the entry after a reflection are not always among
    the tables that the reflection reported. *)
Lemma entry_not_replaced_by_reflection :
  ¬ (∀ (target : Engine) (ts : list SATable) (now : Z) (a : Accessor) (x : string),
       (reflect_metadata target (inr (inr <$> ts)) now a).2 = inr tt →
       x ∈ tables (entry (reflect_metadata target (inr (inr <$> ts)) now a).1
                     (get_db_key (url target))) →
       x ∈ (λ t, lower (sa_name t)) <$> ts).
Proof.
  intros H.
  specialize (H shop [new_table] 2000 after_first_reflection "old").
  assert ("old" ∈ (λ t, lower (sa_name t)) <$> [new_table]) as Hin.
  { apply H; vm_compute; reflexivity. }
  vm_compute in Hin. apply list_elem_of_singleton in Hin. discriminate.
Qed.

(** ** [get_metadata] *)

Lemma read_eq db_key now a :
  schema_exists (db a) →
  read db_key now a = (put_entry db_key (read_entry db_key now a) a, inr tt).
Proof.
  intros [[ts Ht] [fs Hf]]. unfold read, read_entry. rewrite Ht, Hf. reflexivity.
Qed.

Lemma read_entry_put db_key now a :
  read_entry db_key now (put_entry db_key (entry a db_key) a) = read_entry db_key now a.
Proof. unfold read_entry. rewrite entry_put. reflexivity. Qed.

Lemma sync_load_eq e t_read a :
  schema_exists (db a) →
  sync_load e t_read a
  = (put_entry (get_db_key (url e)) (loaded_entry (get_db_key (url e)) t_read a) a, inr tt).
Proof.
  intros Hs. unfold sync_load, loaded_entry. unfold bind at 1. unfold modify at 1.
  rewrite update_entry_put. change (id (entry a (get_db_key (url e))))
    with (entry a (get_db_key (url e))).
  unfold bind at 1. unfold gets at 1. rewrite entry_put.
  destruct (isempty (entry a (get_db_key (url e)))); [|reflexivity].
  unfold bind. rewrite read_eq by exact Hs. rewrite read_entry_put, put_entry_put.
  unfold modify. rewrite update_entry_put, entry_put, put_entry_put. reflexivity.
Qed.

Lemma sync_load_raises e t_read a :
  ¬ schema_exists (db a) →
  sync_load e t_read a
  = if isempty (entry a (get_db_key (url e)))
    then (put_entry (get_db_key (url e)) (entry a (get_db_key (url e))) a,
          inl OperationalError)
    else (put_entry (get_db_key (url e)) (entry a (get_db_key (url e))) a, inr tt).
Proof.
  intros Hs. unfold sync_load. unfold bind at 1. unfold modify at 1.
  rewrite update_entry_put. change (id (entry a (get_db_key (url e))))
    with (entry a (get_db_key (url e))).
  unfold bind at 1. unfold gets at 1. rewrite entry_put.
  destruct (isempty (entry a (get_db_key (url e)))); [|reflexivity].
  unfold bind, read. cbn [db put_entry set_metadata].
  destruct (dbtable (db a)) eqn:Ht; [|reflexivity].
  destruct (dbfield (db a)) eqn:Hf; [|reflexivity].
  exfalso. apply Hs. split; [by rewrite Ht|by rewrite Hf].
Qed.

Lemma get_metadata_eq e force t_read t_now a :
  schema_exists (db a) →
  get_metadata e force t_read t_now a
  = let db_key := get_db_key (url e) in
    let m := loaded_entry db_key t_read a in
    if refresh_warranted force t_now m
    then (set_pool (λ p, p ++ [e]) (put_entry db_key (set_reflecting true m) a),
          inr (set_reflecting true m))
    else (put_entry db_key m a, inr m).
Proof.
  intros Hs. unfold get_metadata. unfold bind at 1. rewrite sync_load_eq by exact Hs.
  unfold bind at 1. unfold gets at 1. rewrite entry_put. cbv zeta.
  destruct (refresh_warranted force t_now _).
  - unfold bind, modify, gets. rewrite update_entry_put, entry_put, put_entry_put.
    cbn [fst snd]. f_equal. f_equal.
    change (entry (set_pool ?f ?a) ?k) with (entry a k). by rewrite entry_put.
  - unfold bind, ret, gets. by rewrite entry_put.
Qed.

Lemma read_row_flags st r :
  reflecting (read_row st r).1 = reflecting st.1.
Proof. unfold read_row. destruct (r_fk r) as [i|]; [destruct (truthy _)|]; reflexivity. Qed.

Lemma read_rows_flags rows : ∀ st,
  reflecting (foldl read_row st rows).1 = reflecting st.1.
Proof.
  induction rows as [|r rows IH]; intros st; [done|]. simpl.
  by rewrite IH, read_row_flags.
Qed.

Lemma loaded_entry_reflecting db_key t_read a :
  reflecting (loaded_entry db_key t_read a) = reflecting (entry a db_key).
Proof.
  unfold loaded_entry. destruct (isempty (entry a db_key)); [|done].
  unfold read_entry. cbn [reflecting set_isempty set_created set_foreign_keys].
  by rewrite read_rows_flags.
Qed.

Lemma loaded_entry_not_empty db_key t_read a :
  isempty (loaded_entry db_key t_read a) = false.
Proof.
  unfold loaded_entry. destruct (isempty (entry a db_key)) eqn:E; [done|exact E].
Qed.

Lemma app_singleton_ne {A} (l : list A) (x : A) : l ++ [x] ≠ l.
Proof.
  intros H. apply (f_equal length) in H. rewrite length_app in H. simpl in H. lia.
Qed.

Lemma refresh_warranted_true force now m :
  refresh_warranted force now m = true ↔
  (force = true ∨ isempty m = true ∨ timedelta_seconds CACHE_MAX_AGE < now - created m)
  ∧ reflecting m = false.
Proof.
  unfold refresh_warranted.
  rewrite andb_true_iff, !orb_true_iff, negb_true_iff, Z.ltb_lt. tauto.
Qed.

(** The test of line 213, on the entry as it is when the code makes the
    test: after the load of lines 207-211, which leaves the flag
    [reflecting] as the caller found it. A call that hands over sets the
    flag and returns the entry; a call that is not warranted hands
    nothing over, changes nothing more and returns the entry. *)
Lemma get_metadata_schedules_iff_warranted
    (e : Engine) (force : bool) (t_read t_now : Z) (a : Accessor) :
  schema_exists (db a) →
  let db_key := get_db_key (url e) in
  let at_check := (sync_load e t_read a).1 in
  let m := entry at_check db_key in
  let r := get_metadata e force t_read t_now a in
  (pool r.1 = pool a ++ [e] ↔
     (force = true ∨ isempty m = true
      ∨ timedelta_seconds CACHE_MAX_AGE < t_now - created m)
     ∧ reflecting m = false)
  ∧ reflecting m = reflecting (entry a db_key)
  ∧ (pool r.1 = pool a ++ [e] →
       reflecting (entry r.1 db_key) = true ∧ r.2 = inr (entry r.1 db_key))
  ∧ (pool r.1 ≠ pool a ++ [e] →
       pool r.1 = pool a ∧ r.1 = at_check ∧ r.2 = inr m).
Proof.
  intros Hs. cbv zeta. rewrite get_metadata_eq, sync_load_eq by exact Hs.
  cbv zeta. cbn [fst]. rewrite entry_put.
  rewrite <- refresh_warranted_true.
  pose proof (loaded_entry_reflecting (get_db_key (url e)) t_read a) as Hr.
  destruct (refresh_warranted force t_now _) eqn:Hw; cbn [fst snd].
  - change (pool (set_pool ?f ?a)) with (f (pool a)).
    change (entry (set_pool ?f ?a) ?k) with (entry a k). rewrite entry_put.
    cbn [pool put_entry set_metadata]. split_and!; try done.
  - cbn [pool put_entry set_metadata]. split_and!; try done.
    + split; [|done]. intros H. symmetry in H. by apply app_singleton_ne in H.
    + intros H. symmetry in H. by apply app_singleton_ne in H.
Qed.

Lemma get_metadata_schedules_iff_warranted_witness :
  schema_exists (db after_first_reflection)
  ∧ let r := get_metadata shop false 2000 (1000 + timedelta_seconds 601)
               after_first_reflection in
    pool r.1 = pool after_first_reflection ++ [shop]
    ∧ reflecting (entry r.1 (get_db_key (url shop))) = true
    ∧ r.2 = inr (entry r.1 (get_db_key (url shop))).
Proof.
  assert (schema_exists (db after_first_reflection)) as Hs.
  { split; vm_compute; eauto. }
  split; [exact Hs|].
  destruct (get_metadata_schedules_iff_warranted shop false 2000
              (1000 + timedelta_seconds 601) after_first_reflection Hs)
    as (Hiff & _ & Hyes & _).
  cbv zeta in *.
  assert (pool (get_metadata shop false 2000 (1000 + timedelta_seconds 601)
                  after_first_reflection).1 = pool after_first_reflection ++ [shop]) as Hp.
  { apply Hiff. split; [|vm_compute; reflexivity].
    right. right. vm_compute. reflexivity. }
  destruct (Hyes Hp) as [H1 H2]. split; [exact Hp|]. split; [exact H1|exact H2].
Defined.

(** At the test of [get_metadata] the entry is never [isempty]: the load
    before it has cleared the flag. *)
Lemma entry_not_empty_at_check (e : Engine) (t_read : Z) (a : Accessor) :
  schema_exists (db a) →
  isempty (entry (sync_load e t_read a).1 (get_db_key (url e))) = false.
Proof.
  intros Hs. rewrite sync_load_eq by exact Hs. cbn [fst]. rewrite entry_put.
  apply loaded_entry_not_empty.
Qed.

(** An entry that is not [isempty] is tested as the caller finds it. *)
Lemma entry_at_check_unchanged (e : Engine) (t_read : Z) (a : Accessor) :
  schema_exists (db a) → isempty (entry a (get_db_key (url e))) = false →
  entry (sync_load e t_read a).1 (get_db_key (url e)) = entry a (get_db_key (url e)).
Proof.
  intros Hs He. rewrite sync_load_eq by exact Hs. cbn [fst]. rewrite entry_put.
  unfold loaded_entry. by rewrite He.
Qed.

(** The first call for a key whose store has no rows: the load sets
    [created] to the clock, so without [force] nothing is handed over. *)
Lemma first_call_on_empty_store :
  let r := get_metadata shop false 1000 1001 (Accessor_init empty_store) in
  pool r.1 = [] ∧ created (entry r.1 (get_db_key (url shop))) = 1000
  ∧ isempty (entry r.1 (get_db_key (url shop))) = false.
Proof. vm_compute. done. Qed.

Lemma loaded_entry_created (db_key : string) (t_read : Z) (a : Accessor)
    (ts : list dbtable_row) :
  dbtable (db a) = Some ts →
  created (loaded_entry db_key t_read a)
  = if isempty (entry a db_key) then default t_read (max_created db_key ts)
    else created (entry a db_key).
Proof.
  intros Ht. unfold loaded_entry. destruct (isempty (entry a db_key)); [|done].
  unfold read_entry. rewrite Ht. reflexivity.
Qed.

(** C1. What [get_metadata] decides on, read on the entry that the call
    finds. On a store that has its two tables the reflection is handed
    to the pool if and only if ([force], or [now - created] exceeds
    [CACHE_MAX_AGE]) and the entry is not [reflecting], where [created]
    is that of the entry if it is not [isempty], and else what the load
    of lines 207-211 gives it: the newest [created] of the rows of the
    key in the store, or the clock of the load when there are none. The
    flag [isempty] has no part in the decision: line 211 clears it
    before line 213 tests it. So an entry that is [isempty] and not
    [reflecting] is not reflected by a call without [force] unless the
    store holds rows of the key that are too old; the call hands nothing
    over and returns the entry, which is no longer [isempty]. *)
Theorem get_metadata_isempty_never_warrants
    (e : Engine) (force : bool) (t_read t_now : Z) (a : Accessor)
    (ts : list dbtable_row) :
  schema_exists (db a) → dbtable (db a) = Some ts →
  let db_key := get_db_key (url e) in
  let found := entry a db_key in
  let age_from := if isempty found then default t_read (max_created db_key ts)
                  else created found in
  let r := get_metadata e force t_read t_now a in
  (pool r.1 = pool a ++ [e] ↔
     (force = true ∨ timedelta_seconds CACHE_MAX_AGE < t_now - age_from)
     ∧ reflecting found = false)
  ∧ (pool r.1 ≠ pool a ++ [e] → pool r.1 = pool a)
  ∧ (isempty found = true → reflecting found = false → force = false →
     t_now - default t_read (max_created db_key ts) ≤ timedelta_seconds CACHE_MAX_AGE →
     pool r.1 = pool a
     ∧ ∃ m, r.2 = inr m ∧ isempty m = false ∧ reflecting m = false
            ∧ entry r.1 db_key = m).
Proof.
  intros Hs Ht. cbv zeta. rewrite get_metadata_eq by exact Hs. cbv zeta.
  pose proof (loaded_entry_reflecting (get_db_key (url e)) t_read a) as Hr.
  pose proof (loaded_entry_not_empty (get_db_key (url e)) t_read a) as He.
  pose proof (loaded_entry_created (get_db_key (url e)) t_read a ts Ht) as Hc.
  set (m := loaded_entry (get_db_key (url e)) t_read a) in *.
  destruct (refresh_warranted force t_now m) eqn:Hw; cbn [fst snd].
  - change (pool (set_pool ?f ?x)) with (f (pool x)). cbn [pool put_entry set_metadata].
    apply refresh_warranted_true in Hw as [Hw Hnr]. rewrite He, Hc in Hw.
    rewrite Hr in Hnr. split_and!.
    + split; [|done]. intros _. split; [|done].
      destruct Hw as [?|[?|?]]; [by left|done|by right].
    + done.
    + intros Hem _ -> Hage. rewrite Hem in Hw. destruct Hw as [?|[?|?]]; [done|done|lia].
  - cbn [pool put_entry set_metadata].
    assert (¬ ((force = true ∨ isempty m = true
                ∨ timedelta_seconds CACHE_MAX_AGE < t_now - created m)
               ∧ reflecting m = false)) as Hn.
    { rewrite <- refresh_warranted_true. congruence. }
    rewrite He, Hc, Hr in Hn. split_and!.
    + split; [intros H; symmetry in H; by apply app_singleton_ne in H|].
      intros [Hf Hnr]. exfalso. apply Hn. split; [|done].
      destruct Hf as [?|?]; [by left|by right; right].
    + done.
    + intros Hem Hnr _ _. split; [done|]. exists m. rewrite entry_put.
      split_and!; try done. by rewrite Hr.
Qed.

Lemma get_metadata_isempty_never_warrants_witness :
  let a := Accessor_init empty_store in
  isempty (entry a (get_db_key (url shop))) = true
  ∧ reflecting (entry a (get_db_key (url shop))) = false
  ∧ pool (get_metadata shop false 1000 1001 a).1 = [].
Proof.
  cbv zeta.
  destruct (get_metadata_isempty_never_warrants shop false 1000 1001
              (Accessor_init empty_store) [] ltac:(split; vm_compute; eauto) eq_refl)
    as (_ & _ & H).
  destruct H as [Hp _]; [reflexivity|reflexivity|reflexivity|vm_compute; discriminate|].
  split; [reflexivity|]. split; [reflexivity|]. exact Hp.
Defined.

(** ** One reflection per key *)

Lemma active_scheduled key e a :
  active_reflections key (set_pool (λ p, p ++ [e]) a)
  = (active_reflections key a
     + if decide (get_db_key (url e) = key) then 1 else 0)%nat.
Proof.
  unfold active_reflections. cbn [pool set_pool]. rewrite filter_app, length_app.
  f_equal. rewrite filter_cons, filter_nil. by case_decide.
Qed.

Lemma active_taken key i target a :
  pool a !! i = Some target →
  active_reflections key a
  = (active_reflections key (set_pool (delete i) a)
     + if decide (get_db_key (url target) = key) then 1 else 0)%nat.
Proof.
  intros Hi. unfold active_reflections. cbn [pool set_pool].
  rewrite <- (take_drop_middle _ _ _ Hi) at 1. rewrite delete_take_drop.
  rewrite !filter_app, filter_cons, !length_app.
  case_decide; simpl; lia.
Qed.

Lemma active_put key k m a :
  active_reflections key (put_entry k m a) = active_reflections key a.
Proof. reflexivity. Qed.

Lemma write_columns_schema tid cols s :
  schema_exists s → schema_exists (write_columns tid cols s).1.
Proof.
  intros [Ht [rows Hf]]. rewrite (write_columns_some _ _ _ _ Hf). by split.
Qed.

Lemma table_id_of_schema db_key name now s :
  schema_exists s → schema_exists (table_id_of db_key name now s).1.
Proof.
  intros [Ht Hf]. destruct (table_id_of_cases db_key name now s); by split.
Qed.

Lemma write_table_schema db_key t now s :
  schema_exists s → schema_exists (write_table db_key t now s).1.
Proof.
  intros Hs. unfold write_table, bind.
  pose proof (table_id_of_schema db_key (sa_name t) now s Hs) as H1.
  destruct (table_id_of db_key (sa_name t) now s) as [s1 [e|tid]]; [exact H1|].
  by apply write_columns_schema.
Qed.

Lemma flush_eq a :
  schema_exists (db a) →
  flush a = (mkAccessor ∅ (mkStore (Some []) (Some [])) [] (write_queue a), inr tt).
Proof.
  intros [[ts Ht] [fs Hf]]. unfold flush, bind, modify, delete_schema. simpl.
  rewrite Hf. simpl. rewrite Ht. reflexivity.
Qed.

Lemma reflect_metadata_frame target reflected now a :
  let db_key := get_db_key (url target) in
  let r := reflect_metadata target reflected now a in
  pool r.1 = pool a ∧ db r.1 = db a
  ∧ (∀ k, k ≠ db_key → entry r.1 k = entry a k)
  ∧ (r.2 = inr tt → reflecting (entry r.1 db_key) = false)
  ∧ (r.2 ≠ inr tt → reflecting (entry r.1 db_key) = reflecting (entry a db_key)).
Proof.
  cbv zeta. rewrite reflect_metadata_eq. cbv zeta.
  destruct reflected as [e|ts]; [by split_and!|].
  pose proof (reflect_tables_frame (get_db_key (url target)) ts a) as F. cbv zeta in F.
  destruct (reflect_tables _ ts a) as [a1 [e|[]]]; cbn [fst snd] in *;
    destruct F as (F1 & F2 & F3 & F4 & _).
  - split_and!; try done. intros k Hk. unfold entry. by rewrite F3.
  - rewrite entry_put. split_and!; try done.
    intros k Hk. rewrite entry_put_ne by done. unfold entry. by rewrite F3.
Qed.

Lemma single_flight_init s : single_flight (Accessor_init s).
Proof.
  split.
  - unfold Accessor_init, create_schema, schema_exists. simpl. by split.
  - intros key. unfold active_reflections. simpl. split; [lia|done].
Qed.

Lemma single_flight_event ev a : single_flight a → single_flight (run_event ev a).
Proof.
  intros [Hs Hinv]. destruct ev as [e force t_read t_now|i reflected now|now|]; simpl.
  - rewrite get_metadata_eq by done. cbv zeta.
    pose proof (loaded_entry_reflecting (get_db_key (url e)) t_read a) as Hr.
    destruct (refresh_warranted force t_now _) eqn:Hw; cbn [fst].
    + apply refresh_warranted_true in Hw as [_ Hw]. rewrite Hr in Hw.
      split; [done|]. intros key. rewrite active_scheduled, active_put.
      destruct (Hinv key) as [H1 H2]. case_decide as Hk.
      * subst key. change (entry (set_pool ?f ?a) ?k) with (entry a k).
        rewrite entry_put. split; [|done].
        destruct (active_reflections (get_db_key (url e)) a) as [|[|n]]; [lia| |lia].
        rewrite H2 in Hw; done.
      * change (entry (set_pool ?f ?a) ?k) with (entry a k).
        rewrite entry_put_ne by done. rewrite Nat.add_0_r. done.
    + split; [done|]. intros key. rewrite active_put. destruct (Hinv key) as [H1 H2].
      split; [done|]. destruct (decide (get_db_key (url e) = key)) as [<-|Hk].
      * rewrite entry_put, Hr. done.
      * by rewrite entry_put_ne.
  - unfold run_reflection. destruct (pool a !! i) as [target|] eqn:Hi; [|by split].
    destruct (reflect_metadata_frame target reflected now (set_pool (delete i) a))
      as (F1 & F2 & F3 & F4 & F5).
    split; [by rewrite F2|]. intros key.
    unfold active_reflections at 1 2. rewrite F1. fold (active_reflections key (set_pool (delete i) a)).
    destruct (Hinv key) as [H1 H2]. rewrite (active_taken key i target a Hi) in H1, H2.
    case_decide as Hk.
    + split; lia.
    + rewrite Nat.add_0_r in H1, H2. rewrite F3 by done. done.
  - unfold save_step. destruct (write_queue a) as [|[k t] q]; [by split|].
    split; [|exact Hinv]. simpl. by apply write_table_schema.
  - rewrite flush_eq by done. simpl. split; [by split|].
    intros key. unfold active_reflections. simpl. split; [lia|done].
Qed.

Lemma single_flight_events evs : ∀ a, single_flight a → single_flight (run_events evs a).
Proof.
  induction evs as [|ev evs IH]; intros a H; [done|]. simpl.
  apply IH. by apply single_flight_event.
Qed.

(** C2, as the code has it. In every state that calls of [get_metadata]
    and [flush], reflections that ended and tables that were saved lead
    to: a key has at most one reflection in the pool, and while it has
    one its flag is set; a call of [get_metadata] that finds the flag
    set hands nothing over and returns the entry; a call that hands over
    finds the flag unset and sets it; a reflection that returns unsets
    the flag, one that raises leaves it set. *)
Theorem single_flight_per_key (s : Store) (evs : list event) (key : string) :
  let a := run_events evs (Accessor_init s) in
  (active_reflections key a ≤ 1)%nat
  ∧ (active_reflections key a = 1%nat → reflecting (entry a key) = true)
  ∧ (∀ e force t_read t_now,
       get_db_key (url e) = key → reflecting (entry a key) = true →
       let r := get_metadata e force t_read t_now a in
       pool r.1 = pool a ∧ r.2 = inr (entry r.1 key)
       ∧ reflecting (entry r.1 key) = true)
  ∧ (∀ e force t_read t_now,
       get_db_key (url e) = key →
       let r := get_metadata e force t_read t_now a in
       pool r.1 = pool a ++ [e] →
       reflecting (entry a key) = false ∧ reflecting (entry r.1 key) = true
       ∧ active_reflections key r.1 = 1%nat)
  ∧ (∀ i target reflected now,
       pool a !! i = Some target → get_db_key (url target) = key →
       let r := run_reflection i reflected now a in
       active_reflections key r.1 = 0%nat
       ∧ (r.2 = inr tt → reflecting (entry r.1 key) = false)
       ∧ (r.2 ≠ inr tt → reflecting (entry r.1 key) = true)).
Proof.
  cbv zeta. pose proof (single_flight_events evs _ (single_flight_init s)) as Hsf.
  set (a := run_events evs (Accessor_init s)) in *.
  destruct (Hsf) as [Hs Hinv]. destruct (Hinv key) as [H1 H2].
  split; [exact H1|]. split; [exact H2|]. split_and!.
  - intros e force t_read t_now Hk Hfl. rewrite get_metadata_eq by done. cbv zeta.
    rewrite Hk. pose proof (loaded_entry_reflecting key t_read a) as Hr.
    destruct (refresh_warranted force t_now _) eqn:Hw.
    + apply refresh_warranted_true in Hw as [_ Hw]. congruence.
    + cbn [fst snd]. rewrite entry_put. split_and!; [done|done|congruence].
  - intros e force t_read t_now Hk. rewrite get_metadata_eq by done. cbv zeta.
    rewrite Hk. pose proof (loaded_entry_reflecting key t_read a) as Hr.
    destruct (refresh_warranted force t_now _) eqn:Hw; cbn [fst snd].
    + intros _. apply refresh_warranted_true in Hw as [_ Hw].
      change (entry (set_pool ?f ?a) ?k) with (entry a k). rewrite entry_put.
      split_and!; [congruence|done|]. rewrite active_scheduled, active_put.
      rewrite decide_True by done.
      destruct (active_reflections key a) as [|[|n]]; [done| |lia].
      rewrite H2 in Hr by done. congruence.
    + cbn [pool put_entry set_metadata]. intros Hp. symmetry in Hp.
      by apply app_singleton_ne in Hp.
  - intros i target reflected now Hi Hk. unfold run_reflection. rewrite Hi.
    destruct (reflect_metadata_frame target reflected now (set_pool (delete i) a))
      as (F1 & F2 & F3 & F4 & F5). rewrite Hk in *.
    pose proof (active_taken key i target a Hi) as Ht.
    rewrite decide_True in Ht by done.
    split_and!.
    + unfold active_reflections at 1. rewrite F1.
      fold (active_reflections key (set_pool (delete i) a)). lia.
    + exact F4.
    + intros Hne. rewrite (F5 Hne).
      change (entry (set_pool ?f ?a) ?k) with (entry a k). apply H2. lia.
Qed.

Lemma single_flight_per_key_witness :
  let a := run_events [EvGetMetadata shop true 0 0] (Accessor_init empty_store) in
  (active_reflections (get_db_key (url shop)) a ≤ 1)%nat
  ∧ (active_reflections (get_db_key (url shop)) a = 1%nat →
     reflecting (entry a (get_db_key (url shop))) = true).
Proof.
  destruct (single_flight_per_key empty_store [EvGetMetadata shop true 0 0]
              (get_db_key (url shop))) as (H1 & H2 & _).
  exact (conj H1 H2).
Defined.

(** C2 as stated fails: a forced call triggers a refresh and sets the
    flag; the reflection meets a foreign key to a table of another
    schema and raises; it has ended, no reflection of the key is in the
    pool, and the flag was never set back. *)
Lemma flag_stays_set_after_failed_reflection :
  let key := get_db_key (url shop) in
  let a1 := run_events [EvGetMetadata shop true 0 0] (Accessor_init empty_store) in
  let r := run_reflection 0 (inr [inr qualified_fk_table]) 10 a1 in
  pool a1 = [shop] ∧ reflecting (entry a1 key) = true
  ∧ r.2 = inl ValueError ∧ pool r.1 = []
  ∧ reflecting (entry r.1 key) = true.
Proof. cbv zeta. split_and!; vm_compute; reflexivity. Qed.

(** So the flag can be set while no reflection of the key is under
    way. *)
Lemma flag_set_without_reflection :
  ¬ (∀ (s : Store) (evs : list event) (key : string),
       let a := run_events evs (Accessor_init s) in
       reflecting (entry a key) = true → active_reflections key a = 1%nat).
Proof.
  intros H.
  specialize (H empty_store
                [EvGetMetadata shop true 0 0;
                 EvReflection 0 (inr [inr qualified_fk_table]) 10]
                (get_db_key (url shop))).
  cbv zeta in H.
  assert (0 = 1)%nat as Habs; [|discriminate].
  rewrite <- H; vm_compute; reflexivity.
Qed.

(** From then on not even a forced call hands a reflection over. *)
Lemma stuck_flag_blocks_forced_refresh :
  let a := run_events
             [EvGetMetadata shop true 0 0;
              EvReflection 0 (inr [inr qualified_fk_table]) 10]
             (Accessor_init empty_store) in
  pool a = [] ∧ pool (get_metadata shop true 20 20 a).1 = [].
Proof. vm_compute. done. Qed.

(** ** Database keys *)

Lemma b64_char_safe (n : N) : filename_char (urlsafe_translate (b64_char n)) = true.
Proof.
  unfold b64_char. assert (N.to_nat (n mod 64) < 64)%nat as H.
  { pose proof (N.mod_lt n 64). lia. }
  revert H. generalize (N.to_nat (n mod 64)). intros k Hk.
  do 64 (destruct k as [|k]; [reflexivity|]). lia.
Qed.

Lemma b64encode_safe_steps (l : list ascii) :
  Forall (λ c, filename_char (urlsafe_translate c) = true) (b64encode l)
  ∧ (∀ a, Forall (λ c, filename_char (urlsafe_translate c) = true) (b64encode (a :: l)))
  ∧ (∀ a b, Forall (λ c, filename_char (urlsafe_translate c) = true)
              (b64encode (a :: b :: l))).
Proof.
  induction l as [|x l (IH1 & IH2 & IH3)].
  - split_and!; [constructor| |]; intros; cbn [b64encode];
      repeat (constructor; [first [apply b64_char_safe|reflexivity]|]); constructor.
  - split_and!; [apply IH2|intros; apply IH3|].
    intros a b. cbn [b64encode].
    repeat (constructor; [apply b64_char_safe|]). exact IH1.
Qed.

Lemma urlsafe_b64encode_safe (s : string) : filesystem_safe (urlsafe_b64encode s).
Proof.
  unfold filesystem_safe, urlsafe_b64encode.
  rewrite list_ascii_of_string_of_list_ascii. apply Forall_fmap.
  apply b64encode_safe_steps.
Qed.

(** C7, as the code has it. Two URLs that agree on driver name,
    username, host, port and database name have the same key, in both
    modules, whatever their passwords and queries; the key of the
    package is a url-safe base64 text and so a filesystem-safe
    string. *)
Theorem db_key_from_identity_attributes (u1 u2 : URL) :
  drivername u1 = drivername u2 → username u1 = username u2 →
  host u1 = host u2 → port u1 = port u2 → database u1 = database u2 →
  get_db_key u1 = get_db_key u2
  ∧ Pkg.get_db_key (mkEngine u1) = Pkg.get_db_key (mkEngine u2)
  ∧ filesystem_safe (Pkg.get_db_key (mkEngine u1)).
Proof.
  intros H1 H2 H3 H4 H5. unfold get_db_key, Pkg.get_db_key. simpl.
  rewrite H1, H2, H3, H4, H5. split_and!; [done|done|apply urlsafe_b64encode_safe].
Qed.

Lemma db_key_from_identity_attributes_witness :
  get_db_key (url shop) = get_db_key (url shop_other_password)
  ∧ Pkg.get_db_key (mkEngine (url shop)) = Pkg.get_db_key (mkEngine (url shop_other_password))
  ∧ filesystem_safe (Pkg.get_db_key (mkEngine (url shop))).
Proof.
  exact (db_key_from_identity_attributes (url shop) (url shop_other_password)
           eq_refl eq_refl eq_refl eq_refl eq_refl).
Defined.

(** C7 as stated fails for [CompletionDataAccessor.get_db_key]: its key
    is the URL text, which has a [/] in it. *)
Lemma url_key_is_not_filesystem_safe :
  get_db_key (url shop) = "postgresql://bob@localhost:5432/shop"
  ∧ ¬ filesystem_safe (get_db_key (url shop)).
Proof.
  split; [vm_compute; reflexivity|].
  intros H. unfold filesystem_safe in H.
  rewrite Forall_forall in H. specialize (H "/"%char).
  assert (filename_char "/" = true) as Habs; [|discriminate].
  apply H. vm_compute. apply list_elem_of_In. simpl. tauto.
Qed.

(** The key of the package for the same engine. *)
Lemma shop_package_key :
  Pkg.get_db_key shop = "cG9zdGdyZXNxbDovL2JvYkBsb2NhbGhvc3Q6NTQzMi9zaG9w".
Proof. vm_compute. reflexivity. Qed.

(** ** [flush] *)

(** X21. [flush] while no reflection is under way. In every state that
    calls of [get_metadata] and [flush], reflections and saved tables
    lead to and in which the pool holds no reflection that has not
    ended, so that [pool.join()] returns, [flush] returns, the cache has
    no entry left, the two tables exist and are empty, and the next
    look-up of any key finds a new, empty entry. *)
Lemma flush_empties_everything (s : Store) (evs : list event) :
  let a := run_events evs (Accessor_init s) in
  pool a = [] →
  (flush a).2 = inr tt
  ∧ metadata (flush a).1 = ∅
  ∧ db (flush a).1 = mkStore (Some []) (Some [])
  ∧ pool (flush a).1 = []
  ∧ ∀ key, entry (flush a).1 key = MetaData_new.
Proof.
  cbv zeta. intros _. destruct (single_flight_events evs _ (single_flight_init s)) as [Hs _].
  rewrite flush_eq by exact Hs. split_and!; try done.
Qed.

Lemma flush_empties_everything_witness :
  let a := run_events [EvGetMetadata shop true 1 2;
                       EvReflection 0 (inr [inr old_table]) 1000]
             (Accessor_init empty_store) in
  pool a = [] ∧ "old" ∈ tables (entry a (get_db_key (url shop)))
  ∧ metadata (flush a).1 = ∅ ∧ db (flush a).1 = mkStore (Some []) (Some []).
Proof.
  cbv zeta.
  assert (pool (run_events [EvGetMetadata shop true 1 2;
                            EvReflection 0 (inr [inr old_table]) 1000]
                  (Accessor_init empty_store)) = []) as Hp by (vm_compute; reflexivity).
  destruct (flush_empties_everything empty_store
              [EvGetMetadata shop true 1 2; EvReflection 0 (inr [inr old_table]) 1000] Hp)
    as (_ & H1 & H2 & _).
  split; [exact Hp|]. split; [|split; [exact H1|exact H2]].
  apply (bool_decide_unpack _). vm_compute. exact I.
Defined.

(** ** The accessor of the package *)

Section PkgProperties.

Context {Data PStore PTable : Type}.
Context (Data_new : Data) (age_exceeds : Z → Data → bool).
Context (update_tables : list PTable → Data → Data).
Context (persist_read : PStore → Data).
Context (persist_write_table : SATable → PStore → PStore * PTable).
Context (PStore_empty : PStore) (profile : string).

Local Abbreviation State := (Pkg.State Data PStore).
Local Abbreviation pkg_get_metadata :=
  (Pkg.get_metadata Data PStore Data_new age_exceeds persist_read PStore_empty profile).
Local Abbreviation pkg_get_metadata_found :=
  (Pkg.get_metadata_found Data PStore Data_new age_exceeds persist_read
     PStore_empty profile).
Local Abbreviation pkg_reflect_db :=
  (Pkg.reflect_db Data PStore PTable update_tables persist_write_table
     PStore_empty profile).
Local Abbreviation pkg_flush := (Pkg.flush Data PStore PStore_empty).
Local Abbreviation deref := (Pkg.deref Data PStore Data_new).
Local Abbreviation store_engine := (Pkg.engine_from_key profile).
Local Abbreviation pkg_pool := (Pkg.pool Data PStore).
Local Abbreviation pkg_databases := (Pkg.databases Data PStore).
Local Abbreviation pkg_files := (Pkg.files Data PStore).
Local Abbreviation pkg_heap := (Pkg.heap Data PStore).

Lemma pkg_deref_alloc (s : State) (f : gmap string nat → gmap string nat)
    (g : list Pkg.Task → list Pkg.Task) (d : Pkg.Database Data) :
  deref (Pkg.set_pool _ _ g
           (Pkg.set_databases _ _ f (Pkg.set_heap _ _ (λ h, h ++ [d]) s)))
    (length (pkg_heap s)) = d.
Proof. unfold Pkg.deref. simpl. by rewrite list_lookup_middle. Qed.

Lemma pkg_deref_bound (s : State) (f : gmap string nat → gmap string nat)
    (d : Pkg.Database Data) :
  deref (Pkg.set_databases _ _ f (Pkg.set_heap _ _ (λ h, h ++ [d]) s))
    (length (pkg_heap s)) = d.
Proof. unfold Pkg.deref. simpl. by rewrite list_lookup_middle. Qed.

(** The package's [get_metadata] from the flag test on, case by case. *)
Lemma pkg_get_metadata_found_eq (e : Engine) (force : bool) (t1 t2 : Z)
    (l : nat) (s : State) :
  let key := Pkg.get_db_key e in
  let l' := length (pkg_heap s) in
  let read := Pkg.mkDatabase _ (Pkg.stored_data _ _ persist_read PStore_empty
                                  profile s e) false in
  let bound := Pkg.set_databases _ _ <[key := l']>
                 (Pkg.set_heap _ _ (λ h, h ++ [read]) s) in
  let scheduled := Pkg.set_pool _ _ (λ p, p ++ [Pkg.mkTask key l' (url e)]) bound in
  pkg_get_metadata_found e force t1 t2 l s
  = if Pkg.db_reflecting _ (deref s l) then (s, inr l)
    else if force then (scheduled, inr l')
    else if age_exceeds t1 (Pkg.data _ (deref s l))
         then if age_exceeds t2 (Pkg.stored_data _ _ persist_read PStore_empty
                                   profile s e)
              then (scheduled, inr l') else (bound, inr l')
         else (s, inr l).
Proof.
  cbv zeta. unfold Pkg.get_metadata_found, Pkg.stored_data.
  unfold bind at 1. unfold gets at 1. cbv beta iota.
  destruct (Pkg.db_reflecting Data (deref s l)); [reflexivity|].
  destruct force; [reflexivity|].
  destruct (age_exceeds t1 _); [|reflexivity].
  unfold bind at 1. unfold Pkg.read_expunge, bind at 1, gets at 1, Pkg.alloc.
  unfold bind at 1. unfold modify at 1.
  unfold bind at 1. unfold gets at 1. cbv beta iota.
  rewrite pkg_deref_bound. cbn [Pkg.data].
  destruct (age_exceeds t2 _); reflexivity.
Qed.

(** The scheduling decision of the package's [get_metadata], once the
    object at [l] has been found in the cache. *)
Lemma pkg_get_metadata_found_pool (e : Engine) (force : bool) (t1 t2 : Z)
    (l : nat) (s : State) :
  let r := pkg_get_metadata_found e force t1 t2 l s in
  if (negb (Pkg.db_reflecting _ (deref s l))
      && (force || (age_exceeds t1 (Pkg.data _ (deref s l))
                    && age_exceeds t2 (Pkg.stored_data _ _ persist_read PStore_empty
                                         profile s e))))%bool
  then ∃ l', pkg_pool r.1 = pkg_pool s ++ [Pkg.mkTask (Pkg.get_db_key e) l' (url e)]
             ∧ r.2 = inr l'
             ∧ pkg_databases r.1 !! Pkg.get_db_key e = Some l'
             ∧ Pkg.db_reflecting _ (deref r.1 l') = false
  else pkg_pool r.1 = pkg_pool s.
Proof.
  cbv zeta. rewrite pkg_get_metadata_found_eq. cbv zeta.
  assert (∀ rd, let bound := Pkg.set_databases Data PStore
                               <[Pkg.get_db_key e := length (pkg_heap s)]>
                               (Pkg.set_heap _ _ (λ h, h ++ [rd]) s) in
                let sch := Pkg.set_pool _ _
                             (λ p, p ++ [Pkg.mkTask (Pkg.get_db_key e)
                                           (length (pkg_heap s)) (url e)]) bound in
                Pkg.db_reflecting _ rd = false →
                ∃ l', pkg_pool (sch, @inr exn nat (length (pkg_heap s))).1
                      = pkg_pool s ++ [Pkg.mkTask (Pkg.get_db_key e) l' (url e)]
                      ∧ (sch, @inr exn nat (length (pkg_heap s))).2 = inr l'
                      ∧ pkg_databases (sch, @inr exn nat (length (pkg_heap s))).1
                          !! Pkg.get_db_key e = Some l'
                      ∧ Pkg.db_reflecting _
                          (deref (sch, @inr exn nat (length (pkg_heap s))).1 l') = false)
    as Hsch.
  { intros rd bound sch Hrd. exists (length (pkg_heap s)). cbn [fst snd].
    split_and!; [reflexivity|reflexivity| |].
    - unfold sch, bound. cbn [Pkg.databases Pkg.set_pool Pkg.set_databases].
      by rewrite lookup_insert_eq.
    - unfold sch, bound. by rewrite pkg_deref_alloc. }
  destruct (Pkg.db_reflecting Data (deref s l)); cbn [negb andb]; [reflexivity|].
  destruct force; cbn [orb]; [by apply Hsch|].
  destruct (age_exceeds t1 _); cbn [andb]; [|reflexivity].
  destruct (age_exceeds t2 _); [by apply Hsch|reflexivity].
Qed.

Lemma pkg_get_metadata_eq (e : Engine) (force : bool) (t1 t2 : Z) (st : State) :
  pkg_get_metadata e force t1 t2 st
  = let st0 := Pkg.create_schema _ _ PStore_empty
                 (store_engine (Pkg.get_db_key e)) st in
    match pkg_databases st !! Pkg.get_db_key e with
    | Some l => pkg_get_metadata_found e force t1 t2 l st0
    | None =>
        pkg_get_metadata_found e force t1 t2 (length (pkg_heap st))
          (Pkg.set_databases _ _ <[Pkg.get_db_key e := length (pkg_heap st)]>
             (Pkg.set_heap _ _ (λ h, h ++ [Pkg.mkDatabase _ Data_new false]) st0))
    end.
Proof.
  unfold Pkg.get_metadata, bind, modify, Pkg.lookup_database, Pkg.alloc.
  cbn [Pkg.databases Pkg.create_schema Pkg.set_files].
  destruct (pkg_databases st !! Pkg.get_db_key e); reflexivity.
Qed.

(** The same decision for the whole call, read on the state the caller
    sees. *)
Lemma pkg_get_metadata_pool (e : Engine) (force : bool) (t1 t2 : Z) (st : State) :
  let r := pkg_get_metadata e force t1 t2 st in
  if (negb (Pkg.found_reflecting _ _ Data_new st e)
      && (force || (age_exceeds t1 (Pkg.found_data _ _ Data_new st e)
                    && age_exceeds t2 (Pkg.stored_data _ _ persist_read PStore_empty
                                         profile st e))))%bool
  then ∃ l', pkg_pool r.1 = pkg_pool st ++ [Pkg.mkTask (Pkg.get_db_key e) l' (url e)]
             ∧ r.2 = inr l'
             ∧ pkg_databases r.1 !! Pkg.get_db_key e = Some l'
             ∧ Pkg.db_reflecting _ (deref r.1 l') = false
  else pkg_pool r.1 = pkg_pool st.
Proof.
  cbv zeta. rewrite pkg_get_metadata_eq. cbv zeta.
  set (st0 := Pkg.create_schema Data PStore PStore_empty _ st).
  assert (Pkg.stored_data _ _ persist_read PStore_empty profile st e
          = Pkg.stored_data _ _ persist_read PStore_empty profile st0 e) as ->.
  { unfold Pkg.stored_data, st0. cbn [Pkg.files Pkg.create_schema Pkg.set_files].
    by rewrite lookup_insert_eq. }
  unfold Pkg.found_reflecting, Pkg.found_data.
  destruct (pkg_databases st !! Pkg.get_db_key e) as [l|] eqn:Hl.
  - exact (pkg_get_metadata_found_pool e force t1 t2 l st0).
  - set (s1 := Pkg.set_databases Data PStore _ _).
    pose proof (pkg_get_metadata_found_pool e force t1 t2 (length (pkg_heap st)) s1) as H.
    cbv zeta in H.
    assert (deref s1 (length (pkg_heap st)) = Pkg.mkDatabase _ Data_new false) as Hd.
    { apply (pkg_deref_bound st0). }
    rewrite Hd in H. exact H.
Qed.

(** X23. A call that finds the flag set hands nothing over and returns
    the object of the cache. *)
Lemma pkg_get_metadata_while_reflecting (e : Engine) (force : bool) (t1 t2 : Z)
    (st : State) (l : nat) :
  pkg_databases st !! Pkg.get_db_key e = Some l →
  Pkg.db_reflecting _ (deref st l) = true →
  let r := pkg_get_metadata e force t1 t2 st in
  pkg_pool r.1 = pkg_pool st ∧ r.2 = inr l ∧ pkg_databases r.1 = pkg_databases st
  ∧ pkg_heap r.1 = pkg_heap st.
Proof.
  intros Hl Hr. cbv zeta. rewrite pkg_get_metadata_eq. cbv zeta. rewrite Hl.
  rewrite pkg_get_metadata_found_eq. cbv zeta.
  change (deref (Pkg.create_schema Data PStore PStore_empty ?x st) l) with (deref st l).
  rewrite Hr. done.
Qed.

(** X22. Two forced calls in a row, with no worker running in between:
    the flag is still unset when the second call tests it, and the pool
    holds two reflections of the same key. *)
Lemma pkg_two_forced_calls_schedule_twice (e : Engine) (t1 t2 t3 t4 : Z)
    (fs : gmap string PStore) :
  let st1 := (pkg_get_metadata e true t1 t2 (Pkg.State_init _ _ fs)).1 in
  let st2 := (pkg_get_metadata e true t3 t4 st1).1 in
  Pkg.active_reflections _ _ (Pkg.get_db_key e) st2 = 2%nat.
Proof.
  cbv zeta.
  pose proof (pkg_get_metadata_pool e true t1 t2 (Pkg.State_init _ _ fs)) as H1.
  cbv zeta in H1. unfold Pkg.found_reflecting in H1.
  cbn [Pkg.databases Pkg.State_init] in H1. rewrite lookup_empty in H1.
  cbn [negb andb orb] in H1. destruct H1 as (l1 & Hp1 & _ & Hd1 & Hf1).
  set (st1 := (pkg_get_metadata e true t1 t2 (Pkg.State_init _ _ fs)).1) in *.
  pose proof (pkg_get_metadata_pool e true t3 t4 st1) as H2.
  cbv zeta in H2. unfold Pkg.found_reflecting in H2. rewrite Hd1, Hf1 in H2.
  cbn [negb andb orb] in H2. destruct H2 as (l2 & Hp2 & _).
  unfold Pkg.active_reflections. rewrite Hp2, Hp1.
  cbn [Pkg.pool Pkg.State_init app]. rewrite !filter_cons, filter_nil.
  cbn [Pkg.task_key]. by rewrite !decide_True.
Qed.

(** [reflect_db] binds no new object to a key and makes none: what it
    changes, it changes inside the object it was given. *)
Lemma pkg_reflect_db_in_place (t : Pkg.Task) (reflected : exn + list SATable)
    (st : State) :
  pkg_databases (pkg_reflect_db t reflected st).1 = pkg_databases st
  ∧ length (pkg_heap (pkg_reflect_db t reflected st).1) = length (pkg_heap st).
Proof.
  assert (∀ l f (s : State),
            pkg_databases (Pkg.update_at _ _ l f s) = pkg_databases s
            ∧ length (pkg_heap (Pkg.update_at _ _ l f s)) = length (pkg_heap s)) as Hup.
  { intros l f s. unfold Pkg.update_at. cbn [Pkg.databases Pkg.heap Pkg.set_heap].
    split; [done|]. destruct (pkg_heap s !! l); [by rewrite length_insert|done]. }
  assert (∀ ts l en (s : State),
            let r := Pkg.persist_tables _ _ _ update_tables persist_write_table
                       PStore_empty l en ts s in
            pkg_databases r.1 = pkg_databases s
            ∧ length (pkg_heap r.1) = length (pkg_heap s) ∧ r.2 = inr tt) as Hpt.
  { induction ts as [|x ts IH]; intros l en s; [done|].
    cbn [Pkg.persist_tables]. unfold bind, gets, modify. cbv beta iota zeta.
    match goal with
    | |- context [Pkg.persist_tables _ _ _ _ _ _ l en ts (Pkg.update_at _ _ l ?f ?s0)] =>
        destruct (IH l en (Pkg.update_at _ _ l f s0)) as (E1 & E2 & E3);
        destruct (Hup l f s0) as [U1 U2]
    end.
    rewrite E1, E2, E3, U1, U2. done. }
  unfold Pkg.reflect_db, bind, modify, lift. cbv beta iota zeta.
  destruct (Hup (Pkg.task_db t) (Pkg.set_db_reflecting Data true) st) as [E1 E2].
  destruct reflected as [ex|ts]; [by rewrite <- E1, <- E2|].
  match goal with
  | |- context [Pkg.persist_tables _ _ _ _ _ _ ?l ?en ts ?s] =>
      pose proof (Hpt ts l en s) as F; cbv zeta in F;
      destruct (Pkg.persist_tables _ _ _ update_tables persist_write_table
                  PStore_empty l en ts s) as [s' [ex|[]]]
  end; destruct F as (F1 & F2 & F3); [done|].
  cbn [fst snd] in *.
  destruct (Hup (Pkg.task_db t) (Pkg.set_db_reflecting Data false) s') as [-> ->].
  rewrite F1, F2. done.
Qed.

(** What [flush(engine)] does to ipydb's tables, database by database:
    those of the engine it is given are made empty, every other
    database keeps what it has, the store file of the key among them. *)
Lemma pkg_flush_files (e : Engine) (st : State) (loc : string) :
  pkg_files (pkg_flush e st).1 !! loc
  = match pkg_databases st !! Pkg.get_db_key e with
    | None => pkg_files st !! loc
    | Some _ => if decide (loc = Pkg.location e) then Some PStore_empty
                else pkg_files st !! loc
    end.
Proof.
  unfold Pkg.flush, bind, modify. cbn [Pkg.databases Pkg.set_pool].
  destruct (pkg_databases st !! Pkg.get_db_key e); [|reflexivity].
  cbn [fst snd Pkg.files Pkg.create_schema Pkg.delete_schema Pkg.set_files
         Pkg.set_databases Pkg.set_pool].
  case_decide as Hloc.
  - subst loc. by rewrite lookup_insert_eq, lookup_delete_eq.
  - by rewrite lookup_insert_ne, lookup_delete_ne.
Qed.

(** X24. A reflection that raises leaves the flag of its object set. *)
Lemma pkg_reflect_db_raises_keeps_flag (t : Pkg.Task) (ex : exn) (st : State) :
  is_Some (pkg_heap st !! Pkg.task_db t) →
  (pkg_reflect_db t (inl ex) st).2 = inl ex
  ∧ Pkg.db_reflecting _ (deref (pkg_reflect_db t (inl ex) st).1 (Pkg.task_db t)) = true.
Proof.
  intros [d Hd]. unfold Pkg.reflect_db, bind, modify, lift. cbv beta iota zeta.
  cbn [fst snd]. split; [done|]. unfold Pkg.deref, Pkg.update_at.
  cbn [Pkg.heap Pkg.set_heap]. rewrite Hd.
  rewrite list_lookup_insert_eq by (by eapply lookup_lt_Some). done.
Qed.

(** X25. [flush(engine)] for a key that has no entry: the pool is gone
    and [del] raises. *)
Lemma pkg_flush_unseen_key_raises (e : Engine) (st : State) :
  pkg_databases st !! Pkg.get_db_key e = None →
  (pkg_flush e st).2 = inl KeyError ∧ pkg_pool (pkg_flush e st).1 = []
  ∧ pkg_files (pkg_flush e st).1 = pkg_files st.
Proof.
  intros H. unfold Pkg.flush, bind, modify. cbn [Pkg.databases Pkg.set_pool].
  rewrite H. done.
Qed.

End PkgProperties.

(** C9 at the failing input. [MetaDataAccessor.flush(engine)] for an
    engine whose key has an entry and which is not itself the store
    file of that key: the call returns and the entry is gone, but the
    tables it empties are those of the engine's own database, and the
    store file of the key keeps its rows. *)
Theorem pkg_flush_misses_store {Data PStore : Type} (PStore_empty : PStore)
    (profile : string) (e : Engine) (st : Pkg.State Data PStore) :
  let store := Pkg.location (Pkg.engine_from_key profile (Pkg.get_db_key e)) in
  is_Some (Pkg.databases _ _ st !! Pkg.get_db_key e) →
  Pkg.location e ≠ store →
  let st' := (Pkg.flush Data PStore PStore_empty e st).1 in
  (Pkg.flush Data PStore PStore_empty e st).2 = inr tt
  ∧ Pkg.files _ _ st' !! store = Pkg.files _ _ st !! store
  ∧ Pkg.files _ _ st' !! Pkg.location e = Some PStore_empty
  ∧ Pkg.databases _ _ st' !! Pkg.get_db_key e = None.
Proof.
  intros store [l Hl] Hne st'. unfold st'.
  rewrite !(pkg_flush_files PStore_empty), Hl.
  rewrite decide_False by done. rewrite decide_True by done.
  unfold Pkg.flush, bind, modify. cbn [Pkg.databases Pkg.set_pool]. rewrite Hl.
  cbn [fst snd Pkg.databases Pkg.create_schema Pkg.delete_schema Pkg.set_files
         Pkg.set_databases]. by rewrite lookup_delete_eq.
Qed.

Lemma pkg_flush_misses_store_witness :
  let store := Pkg.location (Pkg.engine_from_key demo_profile (Pkg.get_db_key shop)) in
  let st' := (Pkg.flush unit (list string) [] shop pkg_after_reflection).1 in
  Pkg.files _ _ st' !! store = Some ["customers"; "orders"]
  ∧ Pkg.files _ _ st' !! Pkg.location shop = Some [].
Proof.
  destruct (pkg_flush_misses_store (Data:=unit) [] demo_profile shop pkg_after_reflection)
    as (_ & H1 & H2 & _).
  - unfold pkg_after_reflection. cbn [Pkg.databases]. rewrite lookup_singleton_eq. eauto.
  - vm_compute. discriminate.
  - cbv zeta. rewrite H1, H2. split; [|done].
    unfold pkg_after_reflection. cbn [Pkg.files]. by rewrite lookup_singleton_eq.
Defined.

(** * Further properties *)

(** ** The queries of [MetaData] *)

Lemma foldl_append_filter {A} (P : A → Prop) `{!∀ x, Decision (P x)}
    (step : list A → A → list A) (l : list A) :
  (∀ acc x, step acc x = if decide (P x) then acc ++ [x] else acc) →
  ∀ acc, foldl step acc l = acc ++ filter P l.
Proof.
  intros Hstep. induction l as [|x l IH]; intros acc; simpl.
  - by rewrite app_nil_r.
  - rewrite IH, Hstep, filter_cons. case_decide; [|done].
    by rewrite <- app_assoc.
Qed.

Lemma get_all_joins_filter (m : MetaData) (t : string) :
  get_all_joins m t = filter (λ fk, t ∈ [reftable fk; table fk]) (foreign_keys m).
Proof.
  unfold get_all_joins.
  by rewrite (foldl_append_filter (λ fk, t ∈ [reftable fk; table fk])).
Qed.

Lemma get_joins_filter (m : MetaData) (t1 t2 : string) :
  get_joins m t1 t2
  = filter (λ fk, t1 ∈ [table fk; reftable fk] ∧ t2 ∈ [table fk; reftable fk])
      (foreign_keys m).
Proof.
  unfold get_joins.
  by rewrite (foldl_append_filter
                (λ fk, t1 ∈ [table fk; reftable fk] ∧ t2 ∈ [table fk; reftable fk])).
Qed.

Lemma fields_referencing_filter (m : MetaData) (t : string) (field : option string) :
  fields_referencing m t field = filter (refers_to t field) (foreign_keys m).
Proof.
  unfold fields_referencing.
  rewrite (foldl_append_filter (refers_to t field)); [done|].
  intros acc fk. unfold fields_referencing_step, refers_to.
  destruct (truthy field); simpl; repeat case_decide; try case_bool_decide;
    try done; naive_solver.
Qed.

Lemma filter_ext_iff {A} (P Q : A → Prop) `{!∀ x, Decision (P x)}
    `{!∀ x, Decision (Q x)} (l : list A) :
  (∀ x, P x ↔ Q x) → filter P l = filter Q l.
Proof.
  intros Hpq. induction l as [|x l IH]; [done|].
  rewrite !filter_cons, IH. repeat case_decide; naive_solver.
Qed.

Lemma filter_sublist_impl {A} (P Q : A → Prop) `{!∀ x, Decision (P x)}
    `{!∀ x, Decision (Q x)} (l : list A) :
  (∀ x, P x → Q x) → filter P l `sublist_of` filter Q l.
Proof.
  intros Hpq. induction l as [|x l IH]; [done|].
  rewrite !filter_cons. repeat case_decide; try naive_solver.
  - by apply sublist_skip.
  - by apply sublist_cons.
Qed.

(** X1. [get_joins] does not depend on the order of its two tables;
    with the same table twice it is [get_all_joins]; and a foreign key
    joins [t1] and [t2] exactly when it is a join of [t1] and a join of
    [t2]. The results keep the order of [foreign_keys]. *)
Theorem get_joins_either_order (m : MetaData) (t1 t2 : string) :
  get_joins m t1 t2 = get_joins m t2 t1
  ∧ get_joins m t1 t1 = get_all_joins m t1
  ∧ get_joins m t1 t2 `sublist_of` get_all_joins m t1
  ∧ get_all_joins m t1 `sublist_of` foreign_keys m
  ∧ ∀ fk, fk ∈ get_joins m t1 t2 ↔ fk ∈ get_all_joins m t1 ∧ fk ∈ get_all_joins m t2.
Proof.
  rewrite !get_joins_filter, !get_all_joins_filter. split_and!.
  - apply filter_ext_iff. intros fk. tauto.
  - apply filter_ext_iff. intros fk. set_solver.
  - apply filter_sublist_impl. intros fk. set_solver.
  - apply sublist_filter.
  - intros fk. rewrite !list_elem_of_filter. set_solver.
Qed.

(** X2. For two different tables, [get_joins(t1, t2)] finds a foreign key
    exactly when [t2] is among [tables_referencing(t1)]. *)
Theorem get_joins_iff_tables_referencing (m : MetaData) (t1 t2 : string) :
  t1 ≠ t2 →
  (get_joins m t1 t2 ≠ [] ↔ t2 ∈ tables_referencing m t1).
Proof.
  intros Hne. unfold tables_referencing. rewrite tables_referencing_fold, get_joins_filter.
  split.
  - intros H. right. destruct (filter _ _) as [|fk l] eqn:E; [done|].
    assert (fk ∈ fk :: l) as Hin by left. rewrite <- E in Hin.
    apply list_elem_of_filter in Hin as [[H1 H2] Hin]. exists fk. split; [done|].
    set_solver.
  - intros [H|(fk & Hin & H)]; [set_solver|].
    assert (fk ∈ filter (λ fk, t1 ∈ [table fk; reftable fk]
                               ∧ t2 ∈ [table fk; reftable fk]) (foreign_keys m)) as Hf.
    { apply list_elem_of_filter. split; [|done]. set_solver. }
    intros E. rewrite E in Hf. by apply elem_of_nil in Hf.
Qed.

Lemma get_joins_iff_tables_referencing_witness :
  get_joins orders_customers "orders" "customers" ≠ []
  ∧ "customers" ∈ tables_referencing orders_customers "orders".
Proof.
  assert ("orders" ≠ "customers") as Hne by discriminate.
  assert (get_joins orders_customers "orders" "customers" ≠ []) as H.
  { vm_compute. discriminate. }
  split; [exact H|].
  exact (proj1 (get_joins_iff_tables_referencing orders_customers _ _ Hne) H).
Defined.

(** X3. [fields_referencing(table, field)] keeps, in the order of
    [foreign_keys], the keys whose [reftable] is the table and, for a
    field that is given and not empty, whose [refcolumns] hold it. A
    field that is [None] or the empty string filters nothing; what is
    found for a field is found without it, and every key found is one
    of [get_all_joins(table)]. *)
Theorem fields_referencing_selects (m : MetaData) (t : string) (field : option string) :
  (∀ fk, fk ∈ fields_referencing m t field ↔
         fk ∈ foreign_keys m ∧ reftable fk = t
         ∧ (truthy field = true → default "" field ∈ refcolumns fk))
  ∧ (truthy field = false → fields_referencing m t field = fields_referencing m t None)
  ∧ fields_referencing m t field `sublist_of` fields_referencing m t None
  ∧ fields_referencing m t None `sublist_of` get_all_joins m t.
Proof.
  rewrite !fields_referencing_filter, get_all_joins_filter. split_and!.
  - intros fk. rewrite list_elem_of_filter. unfold refers_to.
    destruct (truthy field); naive_solver.
  - intros Hf. apply filter_ext_iff. intros fk. unfold refers_to. simpl. tauto.
  - apply filter_sublist_impl. intros fk. unfold refers_to. simpl. tauto.
  - apply filter_sublist_impl. intros fk. unfold refers_to. set_solver.
Qed.

Lemma split_dot_aux_nonempty (s : string) : ∀ cur, (1 ≤ length (split_dot_aux s cur))%nat.
Proof.
  induction s as [|c s IH]; intros cur; simpl; [lia|].
  destruct (Ascii.eqb c "."); simpl; [lia|apply IH].
Qed.

Lemma split_dot_aux_no_dot (s : string) : ∀ cur rest,
  no_dot s = true → split_dot_aux (s +:+ rest) cur = split_dot_aux rest (cur +:+ s).
Proof.
  induction s as [|c s IH]; intros cur rest Hs.
  - by rewrite string_app_nil_r.
  - simpl in Hs. apply andb_true_iff in Hs as [Hc Hs]. apply negb_true_iff in Hc.
    change (String c s +:+ rest) with (String c (s +:+ rest)).
    cbn [split_dot_aux]. rewrite Hc, IH by done. f_equal.
    by rewrite string_app_assoc.
Qed.

Lemma split_dot_cons (t rest : string) :
  no_dot t = true → split_dot (t +:+ "." +:+ rest) = t :: split_dot rest.
Proof.
  intros Ht. unfold split_dot. rewrite split_dot_aux_no_dot by done. reflexivity.
Qed.

Lemma split_dot_no_dot (s : string) : no_dot s = true → split_dot s = [s].
Proof.
  intros Hs. unfold split_dot.
  rewrite <- (string_app_nil_r s) at 1. rewrite split_dot_aux_no_dot by done. reflexivity.
Qed.

Lemma split_dot_aux_two (t r : string) : ∀ cur,
  (2 ≤ length (split_dot_aux (t +:+ "." +:+ r) cur))%nat.
Proof.
  induction t as [|c t IH]; intros cur.
  - change (split_dot_aux ("" +:+ "." +:+ r) cur) with (cur :: split_dot_aux r "").
    cbn [length]. pose proof (split_dot_aux_nonempty r ""). lia.
  - change (String c t +:+ "." +:+ r) with (String c (t +:+ "." +:+ r)).
    cbn [split_dot_aux]. destruct (Ascii.eqb c "."); [|apply IH].
    cbn [length]. pose proof (split_dot_aux_nonempty (t +:+ "." +:+ r) ""). lia.
Qed.

Lemma prefix_app (p s : string) : String.prefix p s = true ↔ ∃ r, s = p +:+ r.
Proof.
  revert s. induction p as [|c p IH]; intros s.
  - split; [intros _; by exists s|]. intros _. by destruct s.
  - destruct s as [|d s]; [split; [done|by intros [r Hr]]|].
    cbn [String.prefix]. destruct (ascii_dec c d) as [->|Hne].
    + rewrite IH. split; intros [r Hr]; exists r; [by rewrite Hr|].
      by injection Hr.
    + split; [done|]. intros [r Hr]. injection Hr as <- _. done.
Qed.

Lemma second_piece_exists (t df : string) :
  String.prefix (t +:+ ".") df = true → is_Some (split_dot df !! 1%nat).
Proof.
  intros Hp. apply prefix_app in Hp as [r ->]. rewrite string_app_assoc.
  apply lookup_lt_is_Some. pose proof (split_dot_aux_two t r ""). unfold split_dot. lia.
Qed.

Lemma get_fields_loop_eq (t : string) (dfs : list string) :
  get_fields_loop (t +:+ ".") dfs
  = inr (second_piece <$> filter (λ df, String.prefix (t +:+ ".") df = true) dfs).
Proof.
  induction dfs as [|df dfs IH]; [done|].
  cbn [get_fields_loop]. rewrite filter_cons.
  destruct (String.prefix (t +:+ ".") df) eqn:Hp.
  - rewrite decide_True by done. destruct (second_piece_exists t df Hp) as [x Hx].
    rewrite Hx, IH. rewrite fmap_cons. unfold second_piece at 2. by rewrite Hx.
  - rewrite decide_False by done. exact IH.
Qed.

Lemma lower_ascii_dot (c : ascii) : Ascii.eqb (lower_ascii c) "." = Ascii.eqb c ".".
Proof. destruct c as [[] [] [] [] [] [] [] []]; reflexivity. Qed.

Lemma no_dot_lower (s : string) : no_dot (lower s) = no_dot s.
Proof. induction s as [|c s IH]; [done|]. simpl. by rewrite lower_ascii_dot, IH. Qed.

Lemma lower_empty (s : string) : lower s = "" → s = "".
Proof. by destruct s. Qed.

Lemma string_app_inv_head (p a b : string) : p +:+ a = p +:+ b → a = b.
Proof.
  induction p as [|c p IH]; [done|]. intros H. injection H as H. by apply IH.
Qed.

Lemma get_fields_eq (m : MetaData) (table : option string) :
  get_fields m table
  = inr (match get_dottedfields m table with
         | NameList dfs => NameList (second_piece <$> dfs)
         | NameSet _ => NameSet (fields m)
         end).
Proof.
  unfold get_fields, get_dottedfields. destruct (truthy table); [|done].
  by rewrite get_fields_loop_eq.
Qed.

Lemma get_fields_lists (m : MetaData) (t x : string) :
  t ≠ "" → no_dot t = true →
  (∃ l, get_fields m (Some t) = inr (NameList l) ∧ x ∈ l) ↔
  ∃ rest, t +:+ "." +:+ rest ∈ dottedfields m ∧ head (split_dot rest) = Some x.
Proof.
  intros Hne Hnd. rewrite get_fields_eq. unfold get_dottedfields.
  assert (truthy (Some t) = true) as ->.
  { simpl. apply negb_true_iff. by apply String.eqb_neq. }
  cbn [default]. split.
  - intros (l & Hl & Hx). injection Hl as <-.
    apply list_elem_of_fmap in Hx as (df & -> & Hdf).
    apply list_elem_of_filter in Hdf as [Hp Hdf]. apply elem_of_elements in Hdf.
    apply prefix_app in Hp as [rest ->]. rewrite string_app_assoc in Hdf |- *.
    exists rest. split; [exact Hdf|].
    unfold second_piece. rewrite split_dot_cons by done. cbn [lookup list_lookup].
    pose proof (split_dot_aux_nonempty rest "") as Hlen. unfold split_dot.
    destruct (split_dot_aux rest "") as [|y ys]; [simpl in Hlen; lia|done].
  - intros (rest & Hin & Hx). eexists. split; [reflexivity|].
    apply list_elem_of_fmap. exists (t +:+ "." +:+ rest). split.
    + unfold second_piece. rewrite split_dot_cons by done. cbn [lookup list_lookup].
      destruct (split_dot rest) as [|y ys]; [done|]. simpl in Hx. by injection Hx as ->.
    + apply list_elem_of_filter. split; [|by apply elem_of_elements].
      apply prefix_app. exists rest. by rewrite string_app_assoc.
Qed.

(** X4. [get_fields(table)] never raises: every dotted field that starts
    with [table + '.'] has a second piece, so the subscript [[1]] is
    always in range. It hands back one name per dotted field that
    [get_dottedfields(table)] lists, in the same order, and the set
    [fields] of the entry when the table is [None] or the empty string.
    For a table name without a dot, the names are the first pieces of
    what follows [table + '.'] in the dotted fields of the entry. *)
Theorem get_fields_never_raises (m : MetaData) (table : option string) :
  get_fields m table
  = inr (match get_dottedfields m table with
         | NameList dfs => NameList (second_piece <$> dfs)
         | NameSet _ => NameSet (fields m)
         end)
  ∧ (truthy table = false → get_dottedfields m table = NameSet (dottedfields m))
  ∧ (∀ df, truthy table = true →
       df ∈ iterate (get_dottedfields m table) ↔
       df ∈ dottedfields m ∧ String.prefix (default "" table +:+ ".") df = true)
  ∧ (∀ t x, table = Some t → t ≠ "" → no_dot t = true →
       (∃ l, get_fields m table = inr (NameList l) ∧ x ∈ l) ↔
       ∃ rest, t +:+ "." +:+ rest ∈ dottedfields m ∧ head (split_dot rest) = Some x).
Proof.
  split_and!.
  - apply get_fields_eq.
  - intros Ht. unfold get_dottedfields. by rewrite Ht.
  - intros df Ht. unfold get_dottedfields. rewrite Ht. cbn [iterate].
    rewrite list_elem_of_filter, elem_of_elements. tauto.
  - intros t x -> Hne Hnd. by apply get_fields_lists.
Qed.

Lemma get_fields_never_raises_witness :
  (∃ l, get_fields (add_field "id" "orders.id" "INTEGER" MetaData_new) (Some "orders")
        = inr (NameList l) ∧ "id" ∈ l).
Proof.
  destruct (get_fields_never_raises (add_field "id" "orders.id" "INTEGER" MetaData_new)
              (Some "orders")) as (_ & _ & _ & H).
  apply (H "orders" "id" eq_refl ltac:(discriminate) eq_refl).
  exists "id". split; [|reflexivity]. apply (bool_decide_unpack _). vm_compute. exact I.
Defined.

(** X5. After [reflect_table] has returned for a table whose name is not
    empty and has no dot, [get_fields] of the entry lists, for that
    table's lowercased name, the lowercased name of every reflected
    column whose name has no dot. *)
Theorem get_fields_after_reflect_table (db_key : string) (t : SATable) (a : Accessor)
    (col : SAColumn) :
  (reflect_table db_key (inr t) a).2 = inr tt →
  sa_name t ≠ "" → no_dot (sa_name t) = true →
  col ∈ sa_columns t → no_dot (col_name col) = true →
  ∃ l, get_fields (entry (reflect_table db_key (inr t) a).1 db_key)
         (Some (lower (sa_name t))) = inr (NameList l)
       ∧ lower (col_name col) ∈ l.
Proof.
  intros Hok Hne Hnd Hcol Hcd.
  destruct (reflect_table_adds_columns db_key t a col Hok Hcol) as (_ & Hdf & _).
  cbv zeta in Hdf. unfold dotted_name in Hdf.
  set (m' := entry (reflect_table db_key (inr t) a).1 db_key) in *.
  apply get_fields_lists.
  - intros E. by apply lower_empty in E.
  - by rewrite no_dot_lower.
  - exists (lower (col_name col)). split; [exact Hdf|].
    rewrite split_dot_no_dot by (by rewrite no_dot_lower). reflexivity.
Qed.

Lemma get_fields_after_reflect_table_witness :
  ∃ l, get_fields (entry (reflect_table "k" (inr orders_table)
                            (Accessor_init empty_store)).1 "k") (Some "orders")
       = inr (NameList l)
       ∧ "customer_id" ∈ l.
Proof.
  apply (get_fields_after_reflect_table "k" orders_table (Accessor_init empty_store)
           (mkSAColumn "Customer_ID" "INTEGER"
              [mkSAForeignKey (Some (Some "fk_customer")) "Customers.ID"])).
  - vm_compute. reflexivity.
  - discriminate.
  - reflexivity.
  - unfold orders_table. cbn [sa_columns]. apply elem_of_cons. right. apply elem_of_cons. by left.
  - reflexivity.
Defined.

(** ** The read accessors of [CompletionDataAccessor] *)

Lemma no_dot_app (a b : string) : no_dot (a +:+ b) = no_dot a && no_dot b.
Proof.
  induction a as [|c a IH]; [done|].
  change (String c a +:+ b) with (String c (a +:+ b)). simpl.
  by rewrite IH, andb_assoc.
Qed.

(** Splitting at the dots and joining with dots gives the text back, and
    no piece has a dot. *)
Lemma split_dot_aux_join (s : string) : ∀ cur,
  no_dot cur = true →
  Forall (λ p, no_dot p = true) (split_dot_aux s cur)
  ∧ String.concat "." (split_dot_aux s cur) = cur +:+ s.
Proof.
  induction s as [|c s IH]; intros cur Hcur.
  - simpl. split; [by constructor|]. by rewrite string_app_nil_r.
  - cbn [split_dot_aux]. destruct (Ascii.eqb c ".") eqn:Hc.
    + apply Ascii.eqb_eq in Hc as ->. destruct (IH "" eq_refl) as [H1 H2].
      split; [by constructor|].
      pose proof (split_dot_aux_nonempty s "") as Hlen.
      destruct (split_dot_aux s "") as [|y ys] eqn:E; [simpl in Hlen; lia|].
      change (String.concat "." (cur :: y :: ys))
        with (cur +:+ "." +:+ String.concat "." (y :: ys)).
      by rewrite H2.
    + destruct (IH (cur +:+ String c "")) as [H1 H2].
      { rewrite no_dot_app, Hcur. simpl. by rewrite Hc. }
      split; [exact H1|]. rewrite H2. by rewrite string_app_assoc.
Qed.

Lemma split_dot_two (s a b : string) :
  split_dot s = [a; b] ↔ s = a +:+ "." +:+ b ∧ no_dot a = true ∧ no_dot b = true.
Proof.
  split.
  - intros H. destruct (split_dot_aux_join s "" eq_refl) as [H1 H2].
    unfold split_dot in H. rewrite H in H1, H2.
    apply Forall_cons in H1 as [Ha H1]. apply Forall_cons in H1 as [Hb _].
    split; [|done]. symmetry. exact H2.
  - intros (-> & Ha & Hb). by rewrite split_dot_cons, split_dot_no_dot.
Qed.

Lemma split_loop_ok (table : string) (dfs : list string) : ∀ acc,
  Forall (λ df, length (split_dot df) = 2%nat) dfs →
  CompletionDataAccessor.split_loop table dfs acc
  = inr (acc ++ fields_of_table table dfs).
Proof.
  unfold fields_of_table.
  induction dfs as [|df dfs IH]; intros acc Hall; simpl.
  - by rewrite app_nil_r.
  - apply Forall_cons in Hall as [Hdf Hall].
    destruct (split_dot df) as [|tbl [|fld [|? ?]]] eqn:E; try done.
    rewrite IH by done. rewrite filter_cons, E. simpl.
    case_decide as Ht.
    + subst. rewrite decide_True by done. rewrite fmap_cons, <- app_assoc.
      unfold second_piece at 2. by rewrite E.
    + rewrite decide_False; [done|]. intros H. by injection H.
Qed.

Lemma split_loop_raises (table : string) (dfs : list string) : ∀ acc,
  ¬ Forall (λ df, length (split_dot df) = 2%nat) dfs →
  CompletionDataAccessor.split_loop table dfs acc = inl ValueError.
Proof.
  induction dfs as [|df dfs IH]; intros acc Hall; simpl.
  - destruct Hall. constructor.
  - destruct (split_dot df) as [|tbl [|fld [|? ?]]] eqn:E; try done.
    apply IH. intros H. apply Hall. constructor; [by rewrite E|done].
Qed.

Lemma elem_of_fields_of_table (table x : string) (dfs : list string) :
  x ∈ fields_of_table table dfs →
  Forall (λ df, length (split_dot df) = 2%nat) dfs →
  ∃ df, df ∈ dfs ∧ split_dot df = [table; x].
Proof.
  unfold fields_of_table. intros Hx Hall.
  apply list_elem_of_fmap in Hx as (df & -> & Hdf).
  apply list_elem_of_filter in Hdf as [H0 Hdf]. exists df. split; [done|].
  rewrite Forall_forall in Hall. specialize (Hall df Hdf).
  unfold second_piece.
  destruct (split_dot df) as [|tbl [|fld [|? ?]]]; try done.
  simpl in *. by injection H0 as ->.
Qed.

Lemma fields_eq (e : Engine) (table : option string) (a : Accessor) :
  truthy table = true →
  CompletionDataAccessor.fields e table a
  = let db_key := get_db_key (url e) in
    let a' := put_entry db_key (entry a db_key) a in
    match CompletionDataAccessor.split_loop (default "" table)
            (elements (dottedfields (entry a db_key))) [] with
    | inr l => (a', inr (NameList l))
    | inl ex => (a', inl ex)
    end.
Proof.
  intros Ht. unfold CompletionDataAccessor.fields, CompletionDataAccessor.dottedfields.
  rewrite Ht. cbn [truthy]. unfold bind, modify, gets, ret, lift. cbv zeta.
  rewrite update_entry_put. change (id ?x) with x. rewrite entry_put. cbn [iterate].
  by destruct (CompletionDataAccessor.split_loop _ _ _).
Qed.

Lemma dottedfields_eq (e : Engine) (table : option string) (a : Accessor) :
  truthy table = true →
  CompletionDataAccessor.dottedfields e table a
  = let db_key := get_db_key (url e) in
    let a' := put_entry db_key (entry a db_key) a in
    match CompletionDataAccessor.split_loop (default "" table)
            (elements (dottedfields (entry a db_key))) [] with
    | inr l => (a', inr (NameList l))
    | inl ex => (a', inl ex)
    end.
Proof.
  intros Ht. unfold CompletionDataAccessor.dottedfields.
  rewrite Ht. unfold bind, modify, gets, ret, lift. cbv zeta.
  rewrite update_entry_put. change (id ?x) with x. rewrite entry_put.
  by destruct (CompletionDataAccessor.split_loop _ _ _).
Qed.

Lemma entry_put_same (db_key k : string) (a : Accessor) :
  entry (put_entry db_key (entry a db_key) a) k = entry a k.
Proof.
  destruct (decide (db_key = k)) as [->|Hne]; [by rewrite entry_put|].
  by rewrite entry_put_ne.
Qed.

(** X6. [fields(db, table)] with a table that is given and not empty
    raises [ValueError] exactly when some dotted field of the entry does
    not split into two pieces at its dots. Otherwise it returns a list
    that holds [x] exactly when [table.x] is a dotted field of the entry
    and neither name has a dot. In both cases every entry of the cache
    reads as before and the pool and the store are untouched. *)
Theorem fields_raises_iff (e : Engine) (table : string) (a : Accessor) :
  table ≠ "" →
  let m := entry a (get_db_key (url e)) in
  let r := CompletionDataAccessor.fields e (Some table) a in
  (r.2 = inl ValueError ↔
     ∃ df, df ∈ dottedfields m ∧ length (split_dot df) ≠ 2%nat)
  ∧ (r.2 ≠ inl ValueError →
     ∃ l, r.2 = inr (NameList l)
          ∧ ∀ x, x ∈ l ↔ table +:+ "." +:+ x ∈ dottedfields m
                        ∧ no_dot table = true ∧ no_dot x = true)
  ∧ (∀ k, entry r.1 k = entry a k) ∧ pool r.1 = pool a ∧ db r.1 = db a.
Proof.
  intros Hne. cbv zeta.
  assert (truthy (Some table) = true) as Ht.
  { simpl. apply negb_true_iff. by apply String.eqb_neq. }
  rewrite fields_eq by exact Ht. cbv zeta. cbn [default].
  set (m := entry a (get_db_key (url e))).
  destruct (decide (Forall (λ df, length (split_dot df) = 2%nat)
                      (elements (dottedfields m)))) as [Hall|Hbad].
  - rewrite split_loop_ok by exact Hall. cbn [fst snd app]. split_and!.
    + split; [done|]. intros (df & Hdf & Hlen). rewrite Forall_forall in Hall.
      destruct Hlen. apply Hall. by apply elem_of_elements.
    + intros _. eexists. split; [reflexivity|]. intros x. split.
      * intros Hx. destruct (elem_of_fields_of_table _ _ _ Hx Hall) as (df & Hdf & Hs).
        apply split_dot_two in Hs as (-> & H1 & H2). split; [|done].
        by apply elem_of_elements.
      * intros (Hin & H1 & H2). unfold fields_of_table. apply list_elem_of_fmap.
        exists (table +:+ "." +:+ x). split.
        -- unfold second_piece. by rewrite split_dot_cons, split_dot_no_dot.
        -- apply list_elem_of_filter. split; [|by apply elem_of_elements].
           by rewrite split_dot_cons.
    + intros k. apply entry_put_same.
    + done.
    + done.
  - rewrite split_loop_raises by exact Hbad. cbn [fst snd]. split_and!.
    + split; [|done]. intros _. apply not_Forall_Exists in Hbad; [|apply _].
      apply Exists_exists in Hbad as (df & Hdf & Hlen). exists df.
      split; [by apply elem_of_elements|done].
    + done.
    + intros k. apply entry_put_same.
    + done.
    + done.
Qed.

Lemma fields_raises_iff_witness :
  (CompletionDataAccessor.fields shop (Some "old") after_first_reflection).2
    ≠ inl ValueError
  ∧ ∃ l, (CompletionDataAccessor.fields shop (Some "old") after_first_reflection).2
         = inr (NameList l) ∧ "id" ∈ l.
Proof.
  assert ((CompletionDataAccessor.fields shop (Some "old") after_first_reflection).2
          ≠ inl ValueError) as H by (vm_compute; discriminate).
  split; [exact H|].
  destruct (fields_raises_iff shop "old" after_first_reflection ltac:(discriminate))
    as (_ & Hl & _).
  destruct (Hl H) as (l & El & Hx). exists l. split; [exact El|].
  apply Hx. split; [|split; reflexivity]. apply (bool_decide_unpack _). vm_compute. exact I.
Defined.

(** X7. With a table that is given and not empty,
    [dottedfields(db, table)] does what [fields(db, table)] does: it
    returns the names of the table's fields without the table and the
    dot, and it raises where [fields] raises. *)
Theorem dottedfields_of_table_is_fields (e : Engine) (table : option string)
    (a : Accessor) :
  truthy table = true →
  CompletionDataAccessor.dottedfields e table a = CompletionDataAccessor.fields e table a.
Proof. intros Ht. by rewrite dottedfields_eq, fields_eq. Qed.

Lemma dottedfields_of_table_is_fields_witness :
  (CompletionDataAccessor.dottedfields shop (Some "old") after_first_reflection).2
  = inr (NameList ["id"]).
Proof.
  rewrite (dottedfields_of_table_is_fields shop (Some "old") after_first_reflection eq_refl).
  vm_compute. reflexivity.
Defined.

Lemma string_app_cons (c : ascii) (a b : string) :
  String c a +:+ b = String c (a +:+ b).
Proof. reflexivity. Qed.

Lemma string_app_nil_l (a : string) : "" +:+ a = a.
Proof. reflexivity. Qed.

Lemma prefix_dot_split (t tbl fld : string) :
  no_dot tbl = true → no_dot fld = true →
  String.prefix (t +:+ ".") (tbl +:+ "." +:+ fld) = true ↔ t = tbl.
Proof.
  intros Htbl Hfld. split.
  - intros Hp. apply prefix_app in Hp as [r Hr].
    revert tbl Htbl Hr. induction t as [|c t IH]; intros tbl Htbl Hr.
    + destruct tbl as [|d tbl]; [done|].
      rewrite ?string_app_nil_l, ?string_app_cons in Hr. injection Hr as H1 H2.
      subst d. by simpl in Htbl.
    + destruct tbl as [|d tbl]; rewrite ?string_app_nil_l, ?string_app_cons in Hr;
        injection Hr as H1 H2.
      * rewrite ?string_app_nil_l in H2. rewrite H2, !no_dot_app in Hfld.
        apply andb_true_iff in Hfld as [Hfld _].
        apply andb_true_iff in Hfld as [_ Hfld]. done.
      * subst d. f_equal.
        simpl in Htbl. apply andb_true_iff in Htbl as [_ Htbl]. by apply IH.
  - intros ->. apply prefix_app. exists fld. by rewrite string_app_assoc.
Qed.

Lemma first_piece_iff_prefix (t df : string) :
  length (split_dot df) = 2%nat →
  split_dot df !! 0%nat = Some t ↔ String.prefix (t +:+ ".") df = true.
Proof.
  intros Hlen. destruct (split_dot df) as [|tbl [|fld [|? ?]]] eqn:E; try done.
  apply split_dot_two in E as (-> & H1 & H2).
  rewrite prefix_dot_split by done. cbn [lookup list_lookup]. split; congruence.
Qed.

Lemma filter_ext_Forall {A} (P Q R : A → Prop) `{!∀ x, Decision (Q x)}
    `{!∀ x, Decision (R x)} (l : list A) :
  Forall P l → (∀ x, P x → Q x ↔ R x) → filter Q l = filter R l.
Proof.
  intros Hall Hqr. induction Hall as [|x l Hx Hall IH]; [done|].
  rewrite !filter_cons, IH. specialize (Hqr x Hx). repeat case_decide; naive_solver.
Qed.

(** X8. On an entry whose dotted fields all split into two pieces,
    [MetaData.get_fields(table)] and [CompletionDataAccessor.fields(db,
    table)] give the same list for every table that is given and not
    empty. *)
Theorem get_fields_agrees_with_fields (e : Engine) (table : option string)
    (a : Accessor) :
  truthy table = true →
  (∀ df, df ∈ dottedfields (entry a (get_db_key (url e))) →
         length (split_dot df) = 2%nat) →
  (CompletionDataAccessor.fields e table a).2
  = get_fields (entry a (get_db_key (url e))) table.
Proof.
  intros Ht Hall. rewrite fields_eq by exact Ht. cbv zeta.
  set (m := entry a (get_db_key (url e))) in *.
  assert (Forall (λ df, length (split_dot df) = 2%nat) (elements (dottedfields m))) as HF.
  { apply Forall_forall. intros df Hdf. apply Hall. by apply elem_of_elements. }
  rewrite split_loop_ok by exact HF. cbn [fst snd app].
  unfold get_fields. rewrite Ht, get_fields_loop_eq. do 2 f_equal.
  unfold fields_of_table. f_equal.
  apply (filter_ext_Forall _ _ _ _ HF). intros df Hdf.
  by apply first_piece_iff_prefix.
Qed.

Lemma get_fields_agrees_with_fields_witness :
  get_fields (entry after_first_reflection (get_db_key (url shop))) (Some "old")
  = inr (NameList ["id"]).
Proof.
  rewrite <- (get_fields_agrees_with_fields shop (Some "old") after_first_reflection
                eq_refl).
  - vm_compute. reflexivity.
  - intros df Hdf.
    assert (dottedfields (entry after_first_reflection (get_db_key (url shop)))
            = {[ "old.id" ]}) as E by (vm_compute; reflexivity).
    rewrite E in Hdf. apply elem_of_singleton in Hdf as ->. reflexivity.
Defined.

(** ** [write], and [read] after the writers *)

Lemma write_field_some (tid : Z) (field type_ : string) (s : Store) (rows : list dbfield_row) :
  dbfield s = Some rows →
  try_except (insert_dbfield tid field type_ None) IntegrityError
    (update_dbfield tid field (set_field_type type_)) s
  = (mkStore (dbtable s) (Some (upsert_type tid field type_ rows)), inr tt).
Proof.
  intros Hf. unfold try_except, insert_dbfield, update_dbfield, upsert_type. rewrite Hf.
  destruct (existsb _ rows); simpl; [by rewrite Hf|done].
Qed.

Lemma write_field_none (tid : Z) (field type_ : string) (s : Store) :
  dbfield s = None →
  try_except (insert_dbfield tid field type_ None) IntegrityError
    (update_dbfield tid field (set_field_type type_)) s
  = (s, inl OperationalError).
Proof. intros Hf. unfold try_except, insert_dbfield. by rewrite Hf. Qed.

Lemma upsert_type_present (tid : Z) (field type_ : string) (rows : list dbfield_row) :
  existsb (field_key_matches tid field) (upsert_type tid field type_ rows) = true.
Proof.
  unfold upsert_type. destruct (existsb (field_key_matches tid field) rows) eqn:E.
  - rewrite <- E. clear E. induction rows as [|r rows IH]; [done|].
    rewrite fmap_cons. cbn [existsb]. rewrite IH. f_equal.
    by destruct (field_key_matches tid field r) eqn:Hm.
  - rewrite existsb_app. simpl. unfold field_key_matches at 2. simpl.
    rewrite bool_decide_true by done. by rewrite orb_true_r.
Qed.

Lemma upsert_type_typed (tid : Z) (field type_ : string) (rows : list dbfield_row) :
  ∀ r, r ∈ upsert_type tid field type_ rows →
       field_key_matches tid field r = true → f_type r = type_.
Proof.
  intros r Hr Hm. unfold upsert_type in Hr.
  destruct (existsb (field_key_matches tid field) rows) eqn:E.
  - apply list_elem_of_fmap in Hr as (r0 & -> & Hr0).
    destruct (field_key_matches tid field r0) eqn:Hm0; [done|congruence].
  - apply elem_of_app in Hr as [Hr|Hr].
    + assert (existsb (field_key_matches tid field) rows = true); [|congruence].
      apply existsb_exists. exists r. split; [by apply list_elem_of_In|done].
    + by apply list_elem_of_singleton in Hr as ->.
Qed.

Lemma upsert_type_keeps (tid : Z) (field type_ : string) (rows : list dbfield_row)
    (i : nat) (r : dbfield_row) :
  rows !! i = Some r →
  ∃ r', upsert_type tid field type_ rows !! i = Some r'
        ∧ f_id r' = f_id r ∧ f_table_id r' = f_table_id r ∧ f_name r' = f_name r
        ∧ f_fk r' = f_fk r
        ∧ (f_type r' = f_type r ∨ (f_table_id r = tid ∧ f_name r = field ∧ f_type r' = type_)).
Proof.
  intros Hi. unfold upsert_type. destruct (existsb _ rows).
  - rewrite list_lookup_fmap, Hi. simpl.
    destruct (field_key_matches tid field r) eqn:Hm.
    + eexists. split; [done|]. simpl. split_and!; try done. right.
      unfold field_key_matches in Hm. apply bool_decide_eq_true in Hm. tauto.
    + exists r. split_and!; try done. by left.
  - exists r. rewrite lookup_app_l by (by eapply lookup_lt_Some).
    split_and!; try done. by left.
Qed.

Lemma write_eq (db_key tbl field type_ : string) (now : Z) (s : Store) :
  write db_key tbl field type_ now s
  = match table_id_of db_key tbl now s with
    | (s1, inr tid) =>
        match dbfield s1 with
        | Some rows =>
            (mkStore (dbtable s1) (Some (upsert_type tid field type_ rows)), inr tt)
        | None => (s1, inl OperationalError)
        end
    | (s1, inl e) => (s1, inl e)
    end.
Proof.
  unfold write, bind. destruct (table_id_of db_key tbl now s) as [s1 [e|tid]]; [done|].
  destruct (dbfield s1) as [rows|] eqn:Hf.
  - by apply write_field_some.
  - by apply write_field_none.
Qed.

Lemma table_id_of_row (db_key name : string) (now : Z) (s s1 : Store) (tid : Z) :
  table_id_of db_key name now s = (s1, inr tid) →
  dbfield s1 = dbfield s
  ∧ ∃ ts r, dbtable s1 = Some ts ∧ r ∈ ts
            ∧ t_id r = tid ∧ t_db_key r = db_key ∧ t_name r = name.
Proof.
  intros H. pose proof (table_id_of_cases db_key name now s) as C.
  rewrite H in C. inversion C as [|rows r Ht Hf|rows Ht Hf]; subst.
  - split; [done|]. exists rows, r. apply find_some in Hf as [Hin Hm].
    unfold table_key_matches in Hm. apply bool_decide_eq_true in Hm as [? ?].
    split_and!; try done. by apply list_elem_of_In.
  - split; [done|]. eexists _, _. split; [reflexivity|].
    split; [apply elem_of_app; right; by apply list_elem_of_singleton|done].
Qed.

Lemma next_rowid_above (ids : list Z) (x : Z) : x ∈ ids → x < next_rowid ids.
Proof.
  unfold next_rowid. induction ids as [|y ids IH]; intros H; [by apply elem_of_nil in H|].
  simpl. apply elem_of_cons in H as [->|H]; [lia|]. specialize (IH H). lia.
Qed.

Lemma upsert_type_fresh (tid : Z) (field type_ : string) (rows : list dbfield_row) :
  (∀ r, r ∈ rows → f_table_id r ≠ tid) →
  upsert_type tid field type_ rows
  = rows ++ [mk_dbfield_row (next_rowid (f_id <$> rows)) tid field type_ None].
Proof.
  intros H. unfold upsert_type.
  destruct (existsb (field_key_matches tid field) rows) eqn:E; [|done].
  apply existsb_exists in E as (r & Hr & Hm). apply list_elem_of_In in Hr.
  unfold field_key_matches in Hm. apply bool_decide_eq_true in Hm as [Hm _].
  by destruct (H r Hr).
Qed.

(** X9. [write] on a connection with no transaction open, the store
    having its two tables and every field row the id of a table row, as
    the schema declares: the call returns, and after it the table has a
    row in [dbtable] and the field a row in [dbfield] with the type
    written. Every field row that was there keeps its place, id, table,
    name and foreign-key attributes; only the type of the rows with the
    written key changes. For a table that had no row the insert is never
    refused: the field row is new, at the end, and no row is updated, so
    that the [on conflict rollback] of the constraints has nothing to
    undo. *)
Theorem write_upserts_type (db_key tbl field type_ : string) (now : Z) (s : Store)
    (tables : list dbtable_row) (rows : list dbfield_row) :
  dbtable s = Some tables → dbfield s = Some rows →
  (∀ r, r ∈ rows → ∃ t, t ∈ tables ∧ t_id t = f_table_id r) →
  let r := write db_key tbl field type_ now s in
  r.2 = inr tt
  ∧ ∃ ts fs tr fr,
      dbtable r.1 = Some ts ∧ dbfield r.1 = Some fs ∧ tr ∈ ts ∧ fr ∈ fs
      ∧ t_db_key tr = db_key ∧ t_name tr = tbl
      ∧ f_table_id fr = t_id tr ∧ f_name fr = field ∧ f_type fr = type_
      ∧ (∀ i old, rows !! i = Some old →
           ∃ new, fs !! i = Some new
                  ∧ f_id new = f_id old ∧ f_table_id new = f_table_id old
                  ∧ f_name new = f_name old ∧ f_fk new = f_fk old
                  ∧ (f_type new = f_type old
                     ∨ (f_table_id old = t_id tr ∧ f_name old = field
                        ∧ f_type new = type_)))
      ∧ (List.find (table_key_matches db_key tbl) tables = None →
         ts = tables ++ [tr] ∧ fs = rows ++ [fr] ∧ f_fk fr = None).
Proof.
  intros Ht0 Hf Hown. cbv zeta. rewrite write_eq.
  pose proof (table_id_of_cases db_key tbl now s) as C.
  inversion C as [Ht E|rows0 r0 Ht Hfind E|rows0 Ht Hfind E]; [congruence| |];
    rewrite Ht0 in Ht; injection Ht as <-; cbn [dbfield dbtable fst snd]; rewrite Hf;
    cbn [dbfield dbtable fst snd]; (split; [done|]).
  - pose proof (upsert_type_present (t_id r0) field type_ rows) as Hp.
    apply existsb_exists in Hp as (fr & Hfr & Hm). apply list_elem_of_In in Hfr.
    pose proof (upsert_type_typed _ _ _ _ fr Hfr Hm) as Hty.
    unfold field_key_matches in Hm. apply bool_decide_eq_true in Hm as [Hm1 Hm2].
    apply find_some in Hfind as Hr0. destruct Hr0 as [Hin Hkey].
    apply list_elem_of_In in Hin.
    unfold table_key_matches in Hkey. apply bool_decide_eq_true in Hkey as [Hk Hn].
    exists tables, (upsert_type (t_id r0) field type_ rows), r0, fr.
    split_and!; try done.
    + intros i old Hi. by apply upsert_type_keeps.
    + intros Hnone. congruence.
  - set (tid := next_rowid (t_id <$> tables)).
    assert (∀ r, r ∈ rows → f_table_id r ≠ tid) as Hfresh.
    { intros r Hr. destruct (Hown r Hr) as (t & Htin & <-).
      assert (t_id t < tid); [|lia]. apply next_rowid_above.
      apply list_elem_of_fmap. by exists t. }
    rewrite (upsert_type_fresh tid field type_ rows Hfresh).
    exists (tables ++ [mk_dbtable_row tid db_key tbl now]),
      (rows ++ [mk_dbfield_row (next_rowid (f_id <$> rows)) tid field type_ None]),
      (mk_dbtable_row tid db_key tbl now),
      (mk_dbfield_row (next_rowid (f_id <$> rows)) tid field type_ None).
    split_and!; try done.
    + apply elem_of_app. right. by apply list_elem_of_singleton.
    + apply elem_of_app. right. by apply list_elem_of_singleton.
    + intros i old Hi. exists old. rewrite lookup_app_l by (by eapply lookup_lt_Some).
      split_and!; try done. by left.
Qed.

Lemma write_upserts_type_witness :
  (write "k" "orders" "id" "BIGINT" 5 store_with_orders_id).2 = inr tt
  ∧ dbfield (write "k" "orders" "id" "BIGINT" 5 store_with_orders_id).1
    = Some [mk_dbfield_row 1 1 "id" "BIGINT" None].
Proof.
  assert (∀ r, r ∈ [mk_dbfield_row 1 1 "id" "INTEGER" None] →
               ∃ t, t ∈ [mk_dbtable_row 1 "k" "orders" 0] ∧ t_id t = f_table_id r) as Hown.
  { intros r Hr. apply list_elem_of_singleton in Hr as ->. eexists. split; [by left|done]. }
  destruct (write_upserts_type "k" "orders" "id" "BIGINT" 5 store_with_orders_id
              _ _ eq_refl eq_refl Hown) as (H & _).
  split; [exact H|]. vm_compute. reflexivity.
Defined.

Lemma elem_of_read_rows (db_key : string) (ts : list dbtable_row) (fs : list dbfield_row)
    (t : dbtable_row) (f : dbfield_row) :
  t ∈ ts → f ∈ fs → t_db_key t = db_key → f_table_id f = t_id t →
  mkResultRow (t_name t) (f_name f) (f_type f) (f_fk f) ∈ read_rows db_key ts fs.
Proof.
  intros Ht Hf Hk Hid. unfold read_rows.
  apply list_elem_of_bind. exists t. split; [|by apply list_elem_of_filter].
  apply list_elem_of_bind. exists f. split; [|by apply list_elem_of_filter].
  by apply list_elem_of_ret.
Qed.

Lemma read_row_meta (st : MetaData * list (string * FkDict)) (r : ResultRow) :
  (read_row st r).1
  = add_field (r_fieldname r) (r_tablename r +:+ "." +:+ r_fieldname r) (r_type r)
      (add_table (r_tablename r) (set_isempty false st.1)).
Proof. unfold read_row. destruct (r_fk r) as [i|]; [destruct (truthy _)|]; reflexivity. Qed.

Lemma read_row_extends (st : MetaData * list (string * FkDict)) (r : ResultRow) :
  extends st.1 (read_row st r).1.
Proof.
  rewrite read_row_meta. unfold extends, add_field, add_table, set_isempty. simpl.
  rewrite dom_insert_L. set_solver.
Qed.

Lemma read_rows_extends (rows : list ResultRow) : ∀ st,
  extends st.1 (foldl read_row st rows).1.
Proof.
  induction rows as [|r rows IH]; intros st; [apply extends_refl|]. simpl.
  eapply extends_trans; [apply read_row_extends|apply IH].
Qed.

Lemma read_rows_adds (rows : list ResultRow) : ∀ st r,
  r ∈ rows →
  let m := (foldl read_row st rows).1 in
  r_tablename r ∈ tables m ∧ r_fieldname r ∈ fields m
  ∧ r_tablename r +:+ "." +:+ r_fieldname r ∈ dottedfields m
  ∧ r_tablename r +:+ "." +:+ r_fieldname r ∈ dom (types m).
Proof.
  induction rows as [|r0 rows IH]; intros st r Hr; [by apply elem_of_nil in Hr|].
  apply elem_of_cons in Hr as [->|Hr]; [|by apply IH].
  cbv zeta. simpl. destruct (read_rows_extends rows (read_row st r0)) as (E1 & E2 & E3 & E4 & _).
  rewrite read_row_meta in E1, E2, E3, E4. unfold add_field, add_table in *. simpl in *.
  rewrite dom_insert_L in E4. set_solver.
Qed.

Lemma write_columns_all_present (tid : Z) (cols : list SAColumn) (s : Store) :
  is_Some (dbfield s) →
  (write_columns tid cols s).2 = inr tt →
  ∃ fs, dbfield (write_columns tid cols s).1 = Some fs
        ∧ ∀ col, col ∈ cols → ∃ f, f ∈ fs ∧ f_table_id f = tid ∧ f_name f = col_name col.
Proof.
  intros [rows Hf]. rewrite (write_columns_some _ _ _ _ Hf). cbn [fst snd]. intros Hok.
  eexists. split; [reflexivity|]. intros col Hcol.
  assert (∃ i, (col, i) ∈ valid_prefix cols) as [i Hi].
  { clear Hf. induction cols as [|c cols IH]; [by apply elem_of_nil in Hcol|].
    simpl in *. destruct (_get_foreign_key_info c) as [e|i]; [done|].
    apply elem_of_cons in Hcol as [->|Hcol].
    - exists i. by left.
    - destruct (IH Hok Hcol) as [j Hj]. exists j. by right. }
  destruct (settled_fold tid (valid_prefix cols) [] rows) as [_ Hpres].
  { split; [done|]. intros ci Hci. by apply elem_of_nil in Hci. }
  specialize (Hpres (col, i) Hi). simpl in Hpres.
  apply existsb_exists in Hpres as (f & Hin & Hm). apply list_elem_of_In in Hin.
  unfold field_key_matches in Hm. apply bool_decide_eq_true in Hm as [? ?].
  by exists f.
Qed.

Lemma create_schema_exists (s : Store) : schema_exists (create_schema s).
Proof. unfold schema_exists, create_schema. simpl. by split. Qed.

Lemma create_schema_keeps (s : Store) : schema_exists s → create_schema s = s.
Proof. intros [[ts Ht] [fs Hf]]. destruct s. simpl in *. by subst. Qed.

Lemma elem_of_read_rows_inv (db_key : string) (ts : list dbtable_row)
    (fs : list dbfield_row) (r : ResultRow) :
  r ∈ read_rows db_key ts fs →
  ∃ t f, t ∈ ts ∧ f ∈ fs ∧ t_db_key t = db_key ∧ f_table_id f = t_id t
         ∧ r = mkResultRow (t_name t) (f_name f) (f_type f) (f_fk f).
Proof.
  unfold read_rows. intros H.
  apply list_elem_of_bind in H as (t & H & Ht). apply list_elem_of_filter in Ht as [Hk Ht].
  apply list_elem_of_bind in H as (f & H & Hf). apply list_elem_of_filter in Hf as [Hid Hf].
  apply list_elem_of_ret in H. by exists t, f.
Qed.

Lemma read_rows_tables (rows : list ResultRow) : ∀ st x,
  x ∈ tables (foldl read_row st rows).1 ↔
  x ∈ tables st.1 ∨ ∃ r, r ∈ rows ∧ r_tablename r = x.
Proof.
  induction rows as [|r rows IH]; intros st x.
  - simpl. split; [by left|]. intros [?|(r & Hr & _)]; [done|by apply elem_of_nil in Hr].
  - cbn [foldl]. rewrite IH, read_row_meta.
    unfold add_field, add_table, set_isempty. cbn [tables]. split.
    + intros [H|(r' & Hr' & E)].
      * apply elem_of_union in H as [H|H]; [by left|].
        apply elem_of_singleton in H. right. exists r. split; [by left|done].
      * right. exists r'. split; [by right|done].
    + intros [H|(r' & Hr' & E)]; [left; set_solver|].
      apply elem_of_cons in Hr' as [->|Hr'].
      * left. set_solver.
      * right. by exists r'.
Qed.

(** X10. What [write_table] has stored, a later session is served: on a
    store to which [write_table] has written a table under the key of an
    engine, the first [get_metadata] of a new accessor for that engine
    returns an entry that is not [isempty] and holds, for every column
    of the table, the table, the name of the column, its dotted name and
    a type. The names are those in the store, spelled as the reflector
    gave them to [write_table], not lowercased. A table without columns
    is not served: it has its row in [dbtable], but the join of [read]
    has no row for it, so a table that is new to a store whose field
    rows all belong to a table row is not among the tables of the
    entry. *)
Theorem saved_table_is_served (e : Engine) (t : SATable) (s : Store)
    (now t_read t_now : Z) (force : bool) :
  let db_key := get_db_key (url e) in
  let w := write_table db_key t now (create_schema s) in
  w.2 = inr tt →
  ∃ m, (get_metadata e force t_read t_now (Accessor_init w.1)).2 = inr m
       ∧ isempty m = false
       ∧ (∀ col, col ∈ sa_columns t →
            sa_name t ∈ tables m ∧ col_name col ∈ fields m
            ∧ sa_name t +:+ "." +:+ col_name col ∈ dottedfields m
            ∧ is_Some (types m !! (sa_name t +:+ "." +:+ col_name col)))
       ∧ (sa_columns t = [] →
          (∀ ts tr, dbtable s = Some ts → tr ∈ ts →
                    ¬ (t_db_key tr = db_key ∧ t_name tr = sa_name t)) →
          (∀ fs f, dbfield s = Some fs → f ∈ fs →
                   ∃ ts tr, dbtable s = Some ts ∧ tr ∈ ts ∧ t_id tr = f_table_id f) →
          (sa_name t ∉ tables m)
          ∧ ∃ ts' tr, dbtable w.1 = Some ts' ∧ tr ∈ ts'
                      ∧ t_db_key tr = db_key ∧ t_name tr = sa_name t).
Proof.
  cbv zeta. intros Hok.
  set (db_key := get_db_key (url e)) in *.
  pose proof (write_table_schema db_key t now _ (create_schema_exists s)) as Hs.
  set (s' := (write_table db_key t now (create_schema s)).1) in *.
  assert (∃ ts fs tr, dbtable s' = Some ts ∧ dbfield s' = Some fs ∧ tr ∈ ts
                      ∧ t_db_key tr = db_key ∧ t_name tr = sa_name t
                      ∧ ∀ col, col ∈ sa_columns t →
                          ∃ f, f ∈ fs ∧ f_table_id f = t_id tr ∧ f_name f = col_name col)
    as (ts & fs & tr & Hts & Hfs & Htr & Hk & Hn & Hcols).
  { unfold s' in *. clear s' Hs. unfold write_table, bind in *.
    destruct (table_id_of db_key (sa_name t) now (create_schema s)) as [s1 [ex|tid]] eqn:H1;
      [done|].
    destruct (table_id_of_row _ _ _ _ _ _ H1) as (Hf1 & ts & tr & Hts & Hin & Hid & Hk & Hn).
    destruct (write_columns_all_present tid (sa_columns t) s1) as (fs & Hfs & Hall);
      [by rewrite Hf1|done|].
    exists ts, fs, tr. rewrite write_columns_dbtable. rewrite Hid. done. }
  assert (db (Accessor_init s') = s') as Hdb.
  { unfold Accessor_init. simpl. by apply create_schema_keeps. }
  rewrite get_metadata_eq by (by rewrite Hdb). cbv zeta. fold db_key.
  set (m := loaded_entry db_key t_read (Accessor_init s')).
  assert (tables m
          = tables (foldl read_row (MetaData_new, []) (read_rows db_key ts fs)).1) as Htab.
  { unfold m, loaded_entry.
    change (entry (Accessor_init s') db_key) with MetaData_new. cbn [isempty MetaData_new].
    unfold read_entry. rewrite Hdb, Hts, Hfs. reflexivity. }
  assert (isempty m = false ∧ ∀ col, col ∈ sa_columns t →
            sa_name t ∈ tables m ∧ col_name col ∈ fields m
            ∧ sa_name t +:+ "." +:+ col_name col ∈ dottedfields m
            ∧ sa_name t +:+ "." +:+ col_name col ∈ dom (types m)) as [Hne Hm].
  { split; [apply loaded_entry_not_empty|]. intros col Hcol.
    destruct (Hcols col Hcol) as (f & Hf & Hfid & Hfn).
    unfold m, loaded_entry.
    change (entry (Accessor_init s') db_key) with MetaData_new. cbn [isempty MetaData_new].
    unfold read_entry. rewrite Hdb, Hts, Hfs. cbn [default].
    cbn [tables fields dottedfields types set_isempty set_created set_foreign_keys].
    pose proof (elem_of_read_rows db_key ts fs tr f Htr Hf Hk Hfid) as Hrow.
    rewrite Hn, Hfn in Hrow.
    exact (read_rows_adds _ (entry (Accessor_init s') db_key, []) _ Hrow). }
  assert (sa_columns t = [] →
          (∀ ts tr, dbtable s = Some ts → tr ∈ ts →
                    ¬ (t_db_key tr = db_key ∧ t_name tr = sa_name t)) →
          (∀ fs f, dbfield s = Some fs → f ∈ fs →
                   ∃ ts tr, dbtable s = Some ts ∧ tr ∈ ts ∧ t_id tr = f_table_id f) →
          (sa_name t ∉ tables m)
          ∧ ∃ ts' tr, dbtable s' = Some ts' ∧ tr ∈ ts'
                      ∧ t_db_key tr = db_key ∧ t_name tr = sa_name t) as Hbare.
  { intros Hnil Hnew Hown. split; [|by exists ts, tr].
    rewrite Htab, read_rows_tables. cbn [fst tables MetaData_new].
    intros [H|(r & Hr & Hname)]; [set_solver|].
    apply elem_of_read_rows_inv in Hr as (t0 & f & Ht0 & Hf & Hk0 & Hid & ->).
    cbn [r_tablename] in Hname.
    (* the store after the write: the rows of [s] and one new table row *)
    unfold s', write_table, bind in Hts, Hfs. rewrite Hnil in Hts, Hfs.
    pose proof (table_id_of_cases db_key (sa_name t) now (create_schema s)) as C.
    destruct (table_id_of db_key (sa_name t) now (create_schema s)) as [s1 [ex|tid]];
      cbn [write_columns ret fst] in Hts, Hfs.
    { inversion C as [Hnone| |]. by destruct (create_schema_exists s) as [[? ?] _]. }
    assert (∀ x, x ∈ default [] (dbtable s) →
                 ¬ (t_db_key x = db_key ∧ t_name x = sa_name t)) as Hnew'.
    { intros x Hx. destruct (dbtable s) as [l|] eqn:E; [by eapply Hnew|].
      by apply elem_of_nil in Hx. }
    assert (∀ x, x ∈ default [] (dbfield s) →
                 ∃ y, y ∈ default [] (dbtable s) ∧ t_id y = f_table_id x) as Hown'.
    { intros x Hx. destruct (dbfield s) as [l|] eqn:E; [|by apply elem_of_nil in Hx].
      destruct (Hown l x eq_refl Hx) as (l' & y & -> & Hy & Hyid). by exists y. }
    inversion C as [|rows r0 Hr0 Hfind|rows Hr0 Hfind]; subst.
    - apply find_some in Hfind as [Hin Hm0]. apply list_elem_of_In in Hin.
      unfold table_key_matches in Hm0. apply bool_decide_eq_true in Hm0.
      cbn [create_schema dbtable] in Hr0. injection Hr0 as <-. by apply (Hnew' r0).
    - cbn [create_schema dbtable dbfield] in Hr0, Hts, Hfs.
      injection Hr0 as <-. injection Hts as <-. injection Hfs as <-.
      apply elem_of_app in Ht0 as [Ht0|Ht0]; [by apply (Hnew' t0)|].
      apply list_elem_of_singleton in Ht0 as ->. cbn [t_id] in Hid.
      destruct (Hown' f Hf) as (y & Hy & Hyid).
      assert (t_id y < next_rowid (t_id <$> default [] (dbtable s))); [|lia].
      apply next_rowid_above, list_elem_of_fmap. by exists y. }
  destruct (refresh_warranted force t_now m); cbn [snd].
  - exists (set_reflecting true m). split; [done|]. split; [exact Hne|]. split.
    + intros col Hcol. destruct (Hm col Hcol) as (?&?&?&Hd).
      apply elem_of_dom in Hd. done.
    + exact Hbare.
  - exists m. split; [done|]. split; [exact Hne|]. split.
    + intros col Hcol. destruct (Hm col Hcol) as (?&?&?&Hd).
      apply elem_of_dom in Hd. done.
    + exact Hbare.
Qed.

Lemma saved_table_is_served_witness :
  (∃ m, (get_metadata shop false 7 8
           (Accessor_init (write_table (get_db_key (url shop)) orders_table 5
                             (create_schema empty_store)).1)).2 = inr m
        ∧ "Orders" ∈ tables m ∧ "Customer_ID" ∈ fields m)
  ∧ (∃ m, (get_metadata shop false 7 8
             (Accessor_init (write_table (get_db_key (url shop)) bare_table 5
                               (create_schema empty_store)).1)).2 = inr m
          ∧ "bare" ∉ tables m).
Proof.
  split.
  - destruct (saved_table_is_served shop orders_table empty_store 5 7 8 false)
      as (m & Hm & _ & Hcols & _).
    + vm_compute. reflexivity.
    + exists m. split; [exact Hm|].
      destruct (Hcols (mkSAColumn "Customer_ID" "INTEGER"
                         [mkSAForeignKey (Some (Some "fk_customer")) "Customers.ID"]))
        as (H1 & H2 & _).
      * unfold orders_table. cbn [sa_columns]. apply elem_of_cons. right.
        apply elem_of_cons. by left.
      * split; [exact H1|exact H2].
  - destruct (saved_table_is_served shop bare_table empty_store 5 7 8 false)
      as (m & Hm & _ & _ & Hbare).
    + vm_compute. reflexivity.
    + exists m. split; [exact Hm|].
      destruct Hbare as [H _]; [reflexivity| | |exact H].
      * intros ts tr Hts. discriminate Hts.
      * intros fs f Hfs. discriminate Hfs.
Defined.

(** ** The foreign keys that [read] and [reflect_table] build *)

Lemma fks_append_keys {K} `{EqDecision K} (name : K) (tn rt col rc : string)
    (fks : list (K * FkDict)) :
  (fks_append name tn rt col rc fks).*1 = add_key fks.*1 name.
Proof.
  unfold fks_append, add_key. case_bool_decide.
  - rewrite <- list_fmap_compose. apply list_fmap_ext. intros i [k d] _. simpl.
    by case_decide.
  - by rewrite fmap_app.
Qed.

Lemma fks_append_paired {K} `{EqDecision K} (name : K) (tn rt col rc : string)
    (fks : list (K * FkDict)) :
  Forall (λ kd, paired_dict kd.2) fks →
  Forall (λ kd, paired_dict kd.2) (fks_append name tn rt col rc fks).
Proof.
  intros Hall. unfold fks_append. case_bool_decide.
  - apply Forall_fmap. eapply Forall_impl; [exact Hall|].
    intros [k d] [H1 H2]. simpl in *. case_decide; [|by split]. simpl.
    unfold paired_dict. simpl. rewrite !length_app. simpl. lia.
  - apply Forall_app. split; [done|]. apply Forall_singleton. by split.
Qed.

Lemma add_key_NoDup {K} `{EqDecision K} (keys : list K) (name : K) :
  NoDup keys → NoDup (add_key keys name).
Proof.
  intros Hnd. unfold add_key. case_bool_decide; [done|].
  apply NoDup_app. split_and!; [done| |apply NoDup_singleton].
  intros x Hx Hx'. apply list_elem_of_singleton in Hx'. by subst.
Qed.

Lemma add_keys_NoDup {K} `{EqDecision K} (names : list K) : ∀ keys,
  NoDup keys → NoDup (foldl add_key keys names).
Proof.
  induction names as [|n names IH]; intros keys Hnd; [done|]. simpl.
  apply IH. by apply add_key_NoDup.
Qed.

Lemma elem_of_add_keys {K} `{EqDecision K} (names : list K) : ∀ keys x,
  x ∈ foldl add_key keys names ↔ x ∈ keys ∨ x ∈ names.
Proof.
  induction names as [|n names IH]; intros keys x; simpl; [set_solver|].
  rewrite IH. unfold add_key. case_bool_decide; set_solver.
Qed.

Lemma read_rows_keys (rows : list ResultRow) : ∀ st,
  (foldl read_row st rows).2.*1 = foldl add_key st.2.*1 (constraint_names rows).
Proof.
  induction rows as [|r rows IH]; intros st; [done|].
  cbn [foldl]. rewrite IH. unfold constraint_names. cbn [omap list_omap].
  unfold read_row. destruct (r_fk r) as [i|]; cbn [mbind option_bind snd]; [|done].
  destruct (truthy (constraint_name i)) eqn:Et; cbn [snd]; [|done].
  destruct (constraint_name i) as [n|]; [|done].
  cbn [foldl default]. by rewrite fks_append_keys.
Qed.

Lemma read_rows_paired (rows : list ResultRow) : ∀ st,
  Forall (λ kd, paired_dict kd.2) st.2 →
  Forall (λ kd, paired_dict kd.2) (foldl read_row st rows).2.
Proof.
  induction rows as [|r rows IH]; intros st Hst; [done|].
  cbn [foldl]. apply IH. unfold read_row.
  destruct (r_fk r) as [i|]; [|done]. destruct (truthy _); [|done].
  by apply fks_append_paired.
Qed.

Lemma paired_of_dicts {K} (fks : list (K * FkDict)) :
  Forall (λ kd, paired_dict kd.2) fks → Forall paired (fk_of_dict <$> fks.*2).
Proof.
  intros H. rewrite <- list_fmap_compose. apply Forall_fmap.
  eapply Forall_impl; [exact H|]. by intros [k d].
Qed.

(** X11. [read] rebuilds the foreign keys of the entry from the store
    alone: it makes one [ForeignKey] for each distinct constraint name
    among the rows of the key, whatever tables those rows belong to. A
    row whose constraint name is [NULL] or empty gives none, and the
    foreign keys that the entry had are dropped. Each one has as many
    referenced columns as columns, and at least one. *)
Theorem read_groups_by_constraint_name (db_key : string) (now : Z) (a : Accessor)
    (ts : list dbtable_row) (fs : list dbfield_row) :
  dbtable (db a) = Some ts → dbfield (db a) = Some fs →
  let m' := entry (read db_key now a).1 db_key in
  length (foreign_keys m')
  = size (list_to_set (constraint_names (read_rows db_key ts fs)) : gset string)
  ∧ Forall paired (foreign_keys m').
Proof.
  intros Ht Hf. cbv zeta. unfold read. rewrite Ht, Hf. cbn [fst].
  rewrite update_entry_put, entry_put. cbn [foreign_keys set_created set_foreign_keys].
  set (st := foldl read_row (entry a db_key, []) (read_rows db_key ts fs)).
  pose proof (read_rows_keys (read_rows db_key ts fs) (entry a db_key, [])) as Hk.
  fold st in Hk. cbn [snd fmap list_fmap] in Hk. split.
  - rewrite !length_fmap. rewrite <- (length_fmap fst), Hk.
    rewrite <- (size_list_to_set (C:=gset string))
      by (apply add_keys_NoDup; constructor).
    f_equal. apply set_eq. intros x. rewrite !elem_of_list_to_set, elem_of_add_keys.
    set_solver.
  - apply paired_of_dicts. apply read_rows_paired. constructor.
Qed.

Lemma read_groups_by_constraint_name_witness :
  let a := Accessor_init (write_table "k" unnamed_fk_table 5 (create_schema empty_store)).1 in
  foreign_keys (entry (reflect_table "k" (inr unnamed_fk_table) a).1 "k")
  = [mkForeignKey "orders" ["customer_id"] "customers" ["id"]]
  ∧ length (foreign_keys (entry (read "k" 9 a).1 "k")) = 0%nat.
Proof.
  cbv zeta. split; [vm_compute; reflexivity|].
  destruct (read_groups_by_constraint_name "k" 9
              (Accessor_init (write_table "k" unnamed_fk_table 5
                                (create_schema empty_store)).1)
              [mk_dbtable_row 1 "k" "orders" 5]
              [mk_dbfield_row 1 1 "customer_id" "INTEGER"
                 (Some (mkFKInfo None 1 "customers" "id"))]
              ltac:(vm_compute; reflexivity) ltac:(vm_compute; reflexivity)) as [H _].
  rewrite H. vm_compute. reflexivity.
Defined.

Lemma fk_as_join_paired (fk : ForeignKey) :
  paired fk → fk_as_join fk = inr (join_clause fk).
Proof.
  intros [Hlen Hn]. unfold fk_as_join, join_clause.
  destruct (columns fk) as [|col cols] eqn:Hc; [simpl in Hn; lia|].
  destruct (refcolumns fk) as [|refcol refcols] eqn:Hr; [discriminate|].
  simpl in Hlen. cbn [fk_as_join_loop]. rewrite Hr. cbn [lookup list_lookup].
  rewrite fk_as_join_loop_and by (rewrite Hr; rewrite skipn_cons, drop_0; lia).
  rewrite Hr. cbn [drop zip_with]. rewrite concat_and_cons.
  f_equal. unfold join_equality. rewrite !string_app_assoc. reflexivity.
Qed.

Lemma rce_foreign_keys (tn : string) (cols : list SAColumn) : ∀ m,
  foreign_keys (reflect_columns_entry tn cols m) = foreign_keys m.
Proof.
  induction cols as [|col cols IH]; intros m; [done|]. simpl.
  destruct (_get_foreign_key_info col); [done|]. by rewrite IH.
Qed.

Lemma rcf_paired (tn : string) (cols : list SAColumn) : ∀ fks fks',
  Forall (λ kd, paired_dict kd.2) fks →
  reflect_columns_fks tn cols fks = inr fks' →
  Forall (λ kd, paired_dict kd.2) fks'.
Proof.
  induction cols as [|col cols IH]; intros fks fks' Hall H; simpl in H.
  - by simplify_eq.
  - destruct (_get_foreign_key_info col) as [e|i]; [done|].
    eapply IH; [|exact H]. unfold fks_of_column. destruct i as [i|]; [|done].
    destruct (truthy _); [|done]. by apply fks_append_paired.
Qed.

Lemma fks_paired_put (db_key : string) (m : MetaData) (a : Accessor) :
  fks_paired a → Forall paired (foreign_keys m) → fks_paired (put_entry db_key m a).
Proof.
  intros Ha Hm key. destruct (decide (db_key = key)) as [->|Hne].
  - by rewrite entry_put.
  - rewrite entry_put_ne by done. apply Ha.
Qed.

Lemma reflect_table_paired (db_key : string) (loaded : exn + SATable) (a : Accessor) :
  fks_paired a → fks_paired (reflect_table db_key loaded a).1.
Proof.
  intros Ha. destruct loaded as [e|t]; [done|]. rewrite reflect_table_eq. cbv zeta.
  set (m := set_isempty false (add_table (lower (sa_name t)) (entry a db_key))).
  assert (Forall paired (foreign_keys (reflect_columns_entry (lower (sa_name t))
                                         (sa_columns t) m))) as Hm.
  { rewrite rce_foreign_keys. apply Ha. }
  destruct (reflect_columns_fks _ _ _) as [e|fks] eqn:Hf; cbn [fst].
  - by apply fks_paired_put.
  - intros key. change (entry (set_write_queue ?f ?x) key) with (entry x key).
    apply fks_paired_put; [done|]. unfold merged_entry. cbn [foreign_keys set_foreign_keys].
    apply Forall_forall. intros fk Hfk. apply elem_of_merge_fks in Hfk as [Hfk|Hfk].
    + rewrite Forall_forall in Hm. by apply Hm.
    + pose proof (paired_of_dicts fks (rcf_paired _ _ [] fks (Forall_nil_2 _) Hf)) as Hp.
      rewrite Forall_forall in Hp. by apply Hp.
Qed.

Lemma reflect_tables_paired (db_key : string) (ts : list (exn + SATable)) : ∀ a,
  fks_paired a → fks_paired (reflect_tables db_key ts a).1.
Proof.
  induction ts as [|t ts IH]; intros a Ha; [done|]. simpl. unfold bind.
  pose proof (reflect_table_paired db_key t a Ha) as H1.
  destruct (reflect_table db_key t a) as [a1 [e|[]]]; [done|]. by apply IH.
Qed.

Lemma loaded_entry_paired (db_key : string) (t_read : Z) (a : Accessor) :
  fks_paired a → Forall paired (foreign_keys (loaded_entry db_key t_read a)).
Proof.
  intros Ha. unfold loaded_entry. destruct (isempty (entry a db_key)); [|apply Ha].
  unfold read_entry. cbn [foreign_keys set_isempty set_created set_foreign_keys].
  apply paired_of_dicts. apply read_rows_paired. constructor.
Qed.

Lemma fks_paired_event (ev : event) (a : Accessor) :
  schema_exists (db a) → fks_paired a → fks_paired (run_event ev a).
Proof.
  intros Hs Ha. destruct ev as [e force t_read t_now|i reflected now|now|]; simpl.
  - rewrite get_metadata_eq by done. cbv zeta.
    pose proof (loaded_entry_paired (get_db_key (url e)) t_read a Ha) as Hl.
    destruct (refresh_warranted force t_now _); cbn [fst].
    + intros key. change (entry (set_pool ?f ?x) key) with (entry x key).
      by apply fks_paired_put.
    + by apply fks_paired_put.
  - unfold run_reflection. destruct (pool a !! i) as [target|]; [|done].
    rewrite reflect_metadata_eq. cbv zeta.
    destruct reflected as [e|ts]; [done|].
    assert (fks_paired (set_pool (delete i) a)) as Ha' by exact Ha.
    pose proof (reflect_tables_paired (get_db_key (url target)) ts _ Ha') as H1.
    destruct (reflect_tables _ ts _) as [a1 [e|[]]]; [done|]. cbn [fst] in *.
    apply fks_paired_put; [done|]. apply H1.
  - unfold save_step. destruct (write_queue a) as [|[k t] q]; [done|]. exact Ha.
  - rewrite flush_eq by done. intros key. constructor.
Qed.

Lemma fks_paired_events (evs : list event) : ∀ a,
  single_flight a → fks_paired a → fks_paired (run_events evs a).
Proof.
  induction evs as [|ev evs IH]; intros a Hsf Ha; [done|]. simpl.
  apply IH; [by apply single_flight_event|]. apply fks_paired_event; [apply Hsf|done].
Qed.

(** X12. [fk_as_join] never raises on a foreign key of the cache: in
    every state that calls of [get_metadata] and [flush], reflections
    and saved tables lead to, every foreign key of every entry has one
    referenced column for each of its columns and at least one column,
    and [fk_as_join] renders it. *)
Theorem cached_foreign_keys_render (s : Store) (evs : list event) (key : string) :
  Forall (λ fk, paired fk ∧ fk_as_join fk = inr (join_clause fk))
    (foreign_keys (entry (run_events evs (Accessor_init s)) key)).
Proof.
  assert (fks_paired (run_events evs (Accessor_init s))) as H.
  { apply fks_paired_events; [apply single_flight_init|]. intros k. constructor. }
  eapply Forall_impl; [apply H|]. intros fk Hfk. split; [done|].
  by apply fk_as_join_paired.
Qed.

(** ** [MetadataSavingThread] *)

Lemma rcf_columns_result (tn : string) (cols : list SAColumn) : ∀ fks fks',
  reflect_columns_fks tn cols fks = inr fks' → columns_result cols = inr tt.
Proof.
  induction cols as [|col cols IH]; intros fks fks' H; [done|]. simpl in *.
  destruct (_get_foreign_key_info col); [done|]. by eapply IH.
Qed.

Lemma write_table_returns (db_key : string) (t : SATable) (now : Z) (s : Store) :
  schema_exists s → columns_result (sa_columns t) = inr tt →
  (write_table db_key t now s).2 = inr tt.
Proof.
  intros Hs Hc. unfold write_table, bind.
  pose proof (table_id_of_schema db_key (sa_name t) now s Hs) as H1.
  pose proof (table_id_of_cases db_key (sa_name t) now s) as C.
  destruct (table_id_of db_key (sa_name t) now s) as [s1 [e|tid]].
  - destruct Hs as [[ts Ht] _]. inversion C; congruence.
  - destruct H1 as [_ [rows Hf]]. by rewrite (write_columns_some _ _ _ _ Hf).
Qed.

Lemma reflect_table_writable (db_key : string) (loaded : exn + SATable) (a : Accessor) :
  queue_writable a → queue_writable (reflect_table db_key loaded a).1.
Proof.
  intros Ha. destruct loaded as [e|t]; [done|]. rewrite reflect_table_eq. cbv zeta.
  destruct (reflect_columns_fks _ _ _) as [e|fks] eqn:Hf; cbn [fst]; [exact Ha|].
  unfold queue_writable. cbn [write_queue set_write_queue put_entry set_metadata].
  apply Forall_app. split; [exact Ha|]. apply Forall_singleton. simpl.
  by eapply rcf_columns_result.
Qed.

Lemma reflect_tables_writable (db_key : string) (ts : list (exn + SATable)) : ∀ a,
  queue_writable a → queue_writable (reflect_tables db_key ts a).1.
Proof.
  induction ts as [|t ts IH]; intros a Ha; [done|]. simpl. unfold bind.
  pose proof (reflect_table_writable db_key t a Ha) as H1.
  destruct (reflect_table db_key t a) as [a1 [e|[]]]; [done|]. by apply IH.
Qed.

Lemma queue_writable_event (ev : event) (a : Accessor) :
  schema_exists (db a) → queue_writable a → queue_writable (run_event ev a).
Proof.
  intros Hs Ha. destruct ev as [e force t_read t_now|i reflected now|now|]; simpl.
  - rewrite get_metadata_eq by done. cbv zeta.
    by destruct (refresh_warranted force t_now _).
  - unfold run_reflection. destruct (pool a !! i) as [target|]; [|done].
    rewrite reflect_metadata_eq. cbv zeta. destruct reflected as [e|ts]; [done|].
    assert (queue_writable (set_pool (delete i) a)) as Ha' by exact Ha.
    pose proof (reflect_tables_writable (get_db_key (url target)) ts _ Ha') as H1.
    by destruct (reflect_tables _ ts _) as [a1 [e|[]]].
  - unfold save_step, queue_writable in *.
    destruct (write_queue a) as [|[k t] q] eqn:E; [by rewrite E|].
    cbn [write_queue set_write_queue set_db]. by apply Forall_cons in Ha as [_ Ha].
  - by rewrite flush_eq.
Qed.

Lemma queue_writable_events (evs : list event) : ∀ a,
  single_flight a → queue_writable a → queue_writable (run_events evs a).
Proof.
  induction evs as [|ev evs IH]; intros a Hsf Ha; [done|]. simpl.
  apply IH; [by apply single_flight_event|]. apply queue_writable_event; [apply Hsf|done].
Qed.

Lemma run_writable (q : list (string * SATable)) : ∀ nows s,
  schema_exists s →
  Forall (λ kt, columns_result (sa_columns kt.2) = inr tt) q →
  (MetadataSavingThread_run (turns_of q nows) s).2 = Waiting
  ∧ schema_exists (MetadataSavingThread_run (turns_of q nows) s).1.
Proof.
  induction q as [|[k t] q IH]; intros nows s Hs Hq; [done|].
  destruct nows as [|now nows]; [done|].
  apply Forall_cons in Hq as [Ht Hq]. simpl in Ht.
  unfold turns_of. cbn [zip_with MetadataSavingThread_run fst snd].
  pose proof (write_table_returns k t now s Hs Ht) as Hw.
  pose proof (write_table_schema k t now s Hs) as Hs'.
  destruct (write_table k t now s) as [s' [e|[]]]; [done|]. by apply IH.
Qed.

(** X13. The saving thread meets no error on what [reflect_table] has
    queued. In every state that calls of [get_metadata] and [flush],
    reflections and saved tables lead to, [run] writes the tables of the
    queue to the store one after the other, whatever the clock shows,
    without reaching its [except] clause: after them it waits for the
    next one, and the store still has its two tables. *)
Theorem saving_thread_meets_no_error (s : Store) (evs : list event) (nows : list Z) :
  let a := run_events evs (Accessor_init s) in
  let r := MetadataSavingThread_run (turns_of (write_queue a) nows) (db a) in
  r.2 = Waiting ∧ schema_exists r.1.
Proof.
  cbv zeta.
  pose proof (single_flight_events evs _ (single_flight_init s)) as [Hs _].
  apply run_writable; [exact Hs|].
  apply (queue_writable_events evs); [apply single_flight_init|]. constructor.
Qed.

Lemma run_app (pre : list turn) : ∀ s post,
  MetadataSavingThread_run (pre ++ post) s
  = match (MetadataSavingThread_run pre s).2 with
    | Waiting => MetadataSavingThread_run post (MetadataSavingThread_run pre s).1
    | _ => MetadataSavingThread_run pre s
    end.
Proof.
  induction pre as [|[k t stop now|] pre IH]; intros s post; [done| |done].
  cbn [app MetadataSavingThread_run]. destruct stop; [done|].
  destruct (write_table k t now s) as [s' [e|[]]]; [done|]. apply IH.
Qed.

(** X14. Once [run] has ended, nothing that is queued is written any
    more. If the write of a table raises, the exception is printed and
    the store stays as that write left it, whatever the queue holds
    after it; a pair that the thread gets when [stop_now] is set is not
    written, nor is anything after it. A table whose column has a
    foreign key to a table of another schema ends the thread in this
    way: its [write_table] raises [ValueError]. *)
Theorem saving_thread_ends_for_good (pre post : list turn) (s : Store) :
  (MetadataSavingThread_run pre s).2 = Waiting →
  let s1 := (MetadataSavingThread_run pre s).1 in
  (∀ k t now e,
     (write_table k t now s1).2 = inl e →
     MetadataSavingThread_run (pre ++ Got k t false now :: post) s
     = ((write_table k t now s1).1, Printed e))
  ∧ (∀ k t now,
       MetadataSavingThread_run (pre ++ Got k t true now :: post) s = (s1, Returned))
  ∧ MetadataSavingThread_run (pre ++ GotNones :: post) s = (s1, Returned)
  ∧ (∀ k now, schema_exists s1 →
       MetadataSavingThread_run (pre ++ Got k qualified_fk_table false now :: post) s
       = ((write_table k qualified_fk_table now s1).1, Printed ValueError)).
Proof.
  intros Hpre. cbv zeta.
  assert (∀ k t now e,
            (write_table k t now (MetadataSavingThread_run pre s).1).2 = inl e →
            MetadataSavingThread_run (pre ++ Got k t false now :: post) s
            = ((write_table k t now (MetadataSavingThread_run pre s).1).1, Printed e)) as H1.
  { intros k t now e Hw. rewrite run_app, Hpre. cbn [MetadataSavingThread_run].
    destruct (write_table k t now _) as [s' [e'|[]]]; simpl in *; congruence. }
  split_and!.
  - exact H1.
  - intros k t now. by rewrite run_app, Hpre.
  - by rewrite run_app, Hpre.
  - intros k now Hs. apply H1. unfold write_table, bind.
    pose proof (table_id_of_schema k (sa_name qualified_fk_table) now _ Hs) as Hs1.
    pose proof (table_id_of_cases k (sa_name qualified_fk_table) now
                  (MetadataSavingThread_run pre s).1) as C.
    destruct (table_id_of _ _ _ _) as [s1 [e|tid]].
    + destruct Hs as [[ts Ht] _]. inversion C; congruence.
    + destruct Hs1 as [_ [rows Hf]]. by rewrite (write_columns_some _ _ _ _ Hf).
Qed.

Lemma saving_thread_ends_for_good_witness :
  MetadataSavingThread_run
    ([Got "k" old_table false 1] ++ Got "k" qualified_fk_table false 2
       :: [Got "k" new_table false 3])
    (create_schema empty_store)
  = (mkStore (Some [mk_dbtable_row 1 "k" "old" 1; mk_dbtable_row 2 "k" "orders" 2])
             (Some [mk_dbfield_row 1 1 "id" "INTEGER" None]),
     Printed ValueError).
Proof.
  destruct (saving_thread_ends_for_good [Got "k" old_table false 1]
              [Got "k" new_table false 3] (create_schema empty_store) eq_refl)
    as (_ & _ & _ & H).
  rewrite (H "k" 2); [reflexivity|]. split; vm_compute; eauto.
Defined.

(** ** What the writers keep *)

Lemma upd_field_key (tid : Z) (ci : SAColumn * option FKInfo) (r : dbfield_row) :
  field_key (upd tid ci r) = field_key r.
Proof. unfold upd. by destruct (field_key_matches _ _ r). Qed.

Lemma upd_other_table (tid : Z) (ci : SAColumn * option FKInfo) (r : dbfield_row) :
  f_table_id r ≠ tid → upd tid ci r = r.
Proof.
  intros H. unfold upd, field_key_matches. rewrite bool_decide_false; [done|]. tauto.
Qed.

Lemma upsert_keeps (tid : Z) (ci : SAColumn * option FKInfo) (rows : list dbfield_row) :
  field_key <$> rows `prefix_of` field_key <$> upsert tid rows ci
  ∧ ∀ i r, rows !! i = Some r → f_table_id r ≠ tid → upsert tid rows ci !! i = Some r.
Proof.
  unfold upsert. destruct (existsb _ rows); split.
  - rewrite <- list_fmap_compose.
    erewrite (list_fmap_ext (field_key ∘ upd tid ci) field_key); [done|].
    intros i r _. apply upd_field_key.
  - intros i r Hi Hne. rewrite list_lookup_fmap, Hi. simpl. f_equal.
    by apply upd_other_table.
  - rewrite fmap_app. by apply prefix_app_r.
  - intros i r Hi _. rewrite lookup_app_l; [done|]. by eapply lookup_lt_Some.
Qed.

Lemma upserts_keep (tid : Z) (p : list (SAColumn * option FKInfo)) : ∀ rows,
  field_key <$> rows `prefix_of` field_key <$> foldl (upsert tid) rows p
  ∧ ∀ i r, rows !! i = Some r → f_table_id r ≠ tid →
           foldl (upsert tid) rows p !! i = Some r.
Proof.
  induction p as [|ci p IH]; intros rows; [done|]. simpl.
  destruct (upsert_keeps tid ci rows) as [H1 H2].
  destruct (IH (upsert tid rows ci)) as [H3 H4]. split.
  - by etrans.
  - intros i r Hi Hne. apply H4; [|done]. by apply H2.
Qed.

(** X15. [write_table] removes nothing, whether it returns or raises.
    The rows of [dbtable] stay as they are, with at most one row added
    at the end; every row of [dbfield] keeps its place, its id, its
    table and its name, and a field row that belongs to another table
    than the one written is not changed at all. So a table that the
    database has dropped stays in the store until [flush]. *)
Theorem write_table_keeps_rows (db_key : string) (t : SATable) (now : Z) (s : Store) :
  let s' := (write_table db_key t now s).1 in
  (∀ ts, dbtable s = Some ts →
     ∃ ts', dbtable s' = Some ts' ∧ ts `prefix_of` ts'
            ∧ (length ts' ≤ length ts + 1)%nat)
  ∧ (∀ fs, dbfield s = Some fs →
       ∃ fs', dbfield s' = Some fs'
              ∧ field_key <$> fs `prefix_of` field_key <$> fs'
              ∧ ∀ i r, fs !! i = Some r →
                  (∀ ts' tr, dbtable s' = Some ts' → tr ∈ ts' →
                             t_db_key tr = db_key → t_name tr = sa_name t →
                             f_table_id r ≠ t_id tr) →
                  fs' !! i = Some r).
Proof.
  cbv zeta. unfold write_table, bind.
  pose proof (table_id_of_cases db_key (sa_name t) now s) as C.
  destruct (table_id_of db_key (sa_name t) now s) as [s1 [e|tid]] eqn:H1; cbn [fst].
  - inversion C; subst. split; [congruence|]. intros fs Hf. exists fs. by split_and!.
  - destruct (table_id_of_row _ _ _ _ _ _ H1) as (Hf1 & ts1 & tr & Hts & Hin & Hid & Hk & Hn).
    rewrite write_columns_dbtable. split.
    + intros ts Ht. inversion C as [|rows r Hr Hfind|rows Hr Hfind]; subst.
      * exists ts. split_and!; [done|done|lia].
      * simpl. rewrite Ht in Hr. injection Hr as <-. eexists. split; [reflexivity|].
        split; [by apply prefix_app_r|]. rewrite length_app. simpl. lia.
    + intros fs Hf. rewrite <- Hf1 in Hf. rewrite (write_columns_some _ _ _ _ Hf).
      cbn [fst dbfield dbtable].
      destruct (upserts_keep tid (valid_prefix (sa_columns t)) fs) as [K1 K2].
      eexists. split; [reflexivity|]. split; [exact K1|].
      intros i r Hi Hother. apply K2; [done|]. rewrite <- Hid. by eapply Hother.
Qed.

Lemma write_table_keeps_rows_witness :
  ∃ fs', dbfield (write_table "k" new_table 9 store_with_orders_id).1 = Some fs'
         ∧ fs' !! 0%nat = Some (mk_dbfield_row 1 1 "id" "INTEGER" None).
Proof.
  destruct (write_table_keeps_rows "k" new_table 9 store_with_orders_id) as [_ H].
  destruct (H [mk_dbfield_row 1 1 "id" "INTEGER" None] eq_refl) as (fs' & E & _ & K).
  exists fs'. split; [exact E|]. apply K; [reflexivity|].
  intros ts' tr Hts Htr _ Hn. simpl.
  assert (dbtable (write_table "k" new_table 9 store_with_orders_id).1
          = Some [mk_dbtable_row 1 "k" "orders" 0; mk_dbtable_row 2 "k" "new" 9]) as E2
    by (vm_compute; reflexivity).
  rewrite E2 in Hts. injection Hts as <-.
  apply elem_of_cons in Htr as [->|Htr]; [discriminate|].
  apply list_elem_of_singleton in Htr as ->. discriminate.
Defined.

(** ** The first calls of [get_metadata] for a key *)

Lemma read_rows_none (db_key : string) (ts : list dbtable_row) (fs : list dbfield_row) :
  (∀ r, r ∈ ts → t_db_key r ≠ db_key) →
  read_rows db_key ts fs = [] ∧ max_created db_key ts = None.
Proof.
  intros H. unfold read_rows, max_created.
  assert (filter (λ t, t_db_key t = db_key) ts = []) as ->; [|done].
  induction ts as [|t ts IH]; [done|]. rewrite filter_cons, decide_False.
  - apply IH. intros r Hr. apply H. by right.
  - apply H. by left.
Qed.

(** X16. A database that the store knows nothing about is not reflected
    by a first [get_metadata] without [force]: the load finds no row,
    sets [created] to the clock and the call clears [isempty], so the
    entry counts as fresh. Nothing is handed to the pool by that call,
    nor by any later call without [force] that comes within
    [CACHE_MAX_AGE] of the first one; the entry they return has no
    table. *)
Theorem first_call_without_force_waits (e : Engine) (s : Store)
    (t_read t_now t_read' t_now' : Z) :
  (∀ ts r, dbtable s = Some ts → r ∈ ts → t_db_key r ≠ get_db_key (url e)) →
  t_now - t_read ≤ timedelta_seconds CACHE_MAX_AGE →
  t_now' - t_read ≤ timedelta_seconds CACHE_MAX_AGE →
  let r := get_metadata e false t_read t_now (Accessor_init s) in
  let r' := get_metadata e false t_read' t_now' r.1 in
  pool r.1 = [] ∧ pool r'.1 = []
  ∧ ∃ m, r.2 = inr m ∧ r'.2 = inr m
         ∧ isempty m = false ∧ reflecting m = false ∧ created m = t_read
         ∧ tables m = ∅ ∧ foreign_keys m = [].
Proof.
  intros Hnone Hage Hage'. cbv zeta.
  pose proof (create_schema_exists s) as Hs.
  set (key := get_db_key (url e)) in *.
  set (m := set_isempty false (set_created t_read MetaData_new)).
  assert (loaded_entry key t_read (Accessor_init s) = m) as Hl.
  { unfold loaded_entry. change (entry (Accessor_init s) key) with MetaData_new.
    cbn [isempty MetaData_new]. unfold read_entry.
    change (entry (Accessor_init s) key) with MetaData_new.
    destruct (read_rows_none key (default [] (dbtable (db (Accessor_init s))))
                (default [] (dbfield (db (Accessor_init s))))) as [-> ->]; [|done].
    intros r Hr. unfold Accessor_init, create_schema in Hr. simpl in Hr.
    destruct (dbtable s) as [ts|] eqn:Ht; [by eapply Hnone|by apply elem_of_nil in Hr]. }
  assert (refresh_warranted false t_now m = false) as Hw.
  { unfold refresh_warranted, m. simpl. apply andb_false_iff. left.
    apply Z.ltb_ge. unfold timedelta_seconds, CACHE_MAX_AGE in *. lia. }
  assert (refresh_warranted false t_now' m = false) as Hw'.
  { unfold refresh_warranted, m. simpl. apply andb_false_iff. left.
    apply Z.ltb_ge. unfold timedelta_seconds, CACHE_MAX_AGE in *. lia. }
  rewrite (get_metadata_eq e false t_read t_now (Accessor_init s)) by exact Hs.
  cbv zeta. fold key. rewrite Hl, Hw. cbn [fst snd].
  rewrite get_metadata_eq by exact Hs. cbv zeta. fold key.
  assert (loaded_entry key t_read' (put_entry key m (Accessor_init s)) = m) as ->.
  { unfold loaded_entry. by rewrite entry_put. }
  rewrite Hw'. cbn [fst snd]. split_and!; [done|done|].
  exists m. by split_and!.
Qed.

Lemma first_call_without_force_waits_witness :
  pool (get_metadata shop false 1000 1001 (Accessor_init empty_store)).1 = []
  ∧ pool (get_metadata shop false 2000 (1000 + timedelta_seconds 600)
            (get_metadata shop false 1000 1001 (Accessor_init empty_store)).1).1 = [].
Proof.
  destruct (first_call_without_force_waits shop empty_store 1000 1001 2000
              (1000 + timedelta_seconds 600)) as (H1 & H2 & _).
  - intros ts r Hts. discriminate.
  - vm_compute. discriminate.
  - vm_compute. discriminate.
  - split; [exact H1|exact H2].
Defined.

(** ** The keys and the store files of the package *)

Lemma sextet_of_char (n : N) :
  sextet_of (urlsafe_translate (b64_char n)) = (n mod 64)%N
  ∧ Ascii.eqb (urlsafe_translate (b64_char n)) "=" = false.
Proof.
  unfold b64_char. assert (N.to_nat (n mod 64) < 64)%nat as H.
  { pose proof (N.mod_lt n 64). lia. }
  rewrite <- (N2Nat.id (n mod 64)) at 2.
  revert H. generalize (N.to_nat (n mod 64)). intros k Hk.
  do 64 (destruct k as [|k]; [split; reflexivity|]). lia.
Qed.

Lemma bytes_of_sextets (x y z : N) :
  (x < 256)%N → (y < 256)%N → (z < 256)%N →
  let n := (x * 65536 + y * 256 + z)%N in
  let s1 := ((n / 262144) mod 64)%N in
  let s2 := ((n / 4096) mod 64)%N in
  let s3 := ((n / 64) mod 64)%N in
  let s4 := (n mod 64)%N in
  (s1 * 4 + s2 / 16 = x ∧ (s2 mod 16) * 16 + s3 / 4 = y ∧ (s3 mod 4) * 64 + s4 = z)%N.
Proof.
  intros Hx Hy Hz. cbv zeta.
  split_and!; zify; Z.to_euclidean_division_equations; lia.
Qed.

Lemma byte_of_sextets (a b c : ascii) :
  let n := (N_of_ascii a * 65536 + N_of_ascii b * 256 + N_of_ascii c)%N in
  let s1 := ((n / 262144) mod 64)%N in
  let s2 := ((n / 4096) mod 64)%N in
  let s3 := ((n / 64) mod 64)%N in
  let s4 := (n mod 64)%N in
  ascii_of_N (s1 * 4 + s2 / 16) = a
  ∧ ascii_of_N ((s2 mod 16) * 16 + s3 / 4) = b
  ∧ ascii_of_N ((s3 mod 4) * 64 + s4) = c.
Proof.
  cbv zeta.
  destruct (bytes_of_sextets (N_of_ascii a) (N_of_ascii b) (N_of_ascii c)
              (N_ascii_bounded a) (N_ascii_bounded b) (N_ascii_bounded c))
    as (-> & -> & ->).
  by rewrite !ascii_N_embedding.
Qed.

Lemma b64decode_encode_steps (l : list ascii) :
  b64decode (urlsafe_translate <$> b64encode l) = l
  ∧ (∀ a, b64decode (urlsafe_translate <$> b64encode (a :: l)) = a :: l)
  ∧ (∀ a b, b64decode (urlsafe_translate <$> b64encode (a :: b :: l)) = a :: b :: l).
Proof.
  induction l as [|x l (IH1 & IH2 & IH3)].
  - split_and!; [done| |].
    + intros a. cbn [b64encode fmap list_fmap b64decode].
      change (urlsafe_translate "=") with "="%char. cbn [Ascii.eqb Bool.eqb].
      f_equal. destruct (byte_of_sextets a "000" "000") as (H & _). cbv zeta in H.
      change (N_of_ascii "000") with 0%N in H.
      rewrite !N.mul_0_l, !N.add_0_r in H.
      destruct (sextet_of_char (N_of_ascii a * 65536 / 262144)) as [-> _].
      destruct (sextet_of_char (N_of_ascii a * 65536 / 4096)) as [-> _]. exact H.
    + intros a b. cbn [b64encode fmap list_fmap b64decode].
      change (urlsafe_translate "=") with "="%char.
      destruct (byte_of_sextets a b "000") as (H1 & H2 & _). cbv zeta in H1, H2.
      change (N_of_ascii "000") with 0%N in H1, H2. rewrite !N.add_0_r in H1, H2.
      set (n := (N_of_ascii a * 65536 + N_of_ascii b * 256)%N) in *.
      destruct (sextet_of_char (n / 262144)) as [-> _].
      destruct (sextet_of_char (n / 4096)) as [-> _].
      destruct (sextet_of_char (n / 64)) as [-> ->].
      cbn [Ascii.eqb Bool.eqb]. by rewrite H1, H2.
  - split_and!; [apply IH2|intros; apply IH3|].
    intros a b. cbn [b64encode fmap list_fmap b64decode].
    destruct (byte_of_sextets a b x) as (H1 & H2 & H3). cbv zeta in H1, H2, H3.
    set (n := (N_of_ascii a * 65536 + N_of_ascii b * 256 + N_of_ascii x)%N) in *.
    destruct (sextet_of_char (n / 262144)) as [-> _].
    destruct (sextet_of_char (n / 4096)) as [-> _].
    destruct (sextet_of_char (n / 64)) as [-> ->].
    destruct (sextet_of_char n) as [-> ->].
    by rewrite H1, H2, H3, IH1.
Qed.

Lemma urlsafe_b64encode_inj (s1 s2 : string) :
  urlsafe_b64encode s1 = urlsafe_b64encode s2 → s1 = s2.
Proof.
  unfold urlsafe_b64encode. intros H.
  apply (f_equal list_ascii_of_string) in H.
  rewrite !list_ascii_of_string_of_list_ascii in H.
  apply (f_equal b64decode) in H.
  rewrite !(proj1 (b64decode_encode_steps _)) in H.
  apply (f_equal string_of_list_ascii) in H.
  by rewrite !string_of_list_ascii_of_string in H.
Qed.

(** X17. Two engines have the same key in the package exactly when the
    texts of their URLs without password and query are the same: the
    url-safe base64 text can be read back. The store files that
    [engine_from_key] opens for their keys are the same file exactly
    then, so two databases share a store file only if their URL texts
    are equal. *)
Theorem pkg_store_file_per_url_text (profile : string) (e1 e2 : Engine) :
  (Pkg.get_db_key e1 = Pkg.get_db_key e2 ↔ Pkg.location e1 = Pkg.location e2)
  ∧ (Pkg.location (Pkg.engine_from_key profile (Pkg.get_db_key e1))
     = Pkg.location (Pkg.engine_from_key profile (Pkg.get_db_key e2))
     ↔ Pkg.location e1 = Pkg.location e2).
Proof.
  assert (Pkg.get_db_key e1 = Pkg.get_db_key e2 ↔ Pkg.location e1 = Pkg.location e2) as H1.
  { unfold Pkg.get_db_key, Pkg.location. split; [apply urlsafe_b64encode_inj|].
    by intros ->. }
  assert (∀ a b, Pkg.location (Pkg.engine_from_key profile a)
                 = Pkg.location (Pkg.engine_from_key profile b) ↔ a = b) as H2.
  { intros a b. split; [|by intros ->]. unfold Pkg.location, Pkg.engine_from_key, URL_str.
    cbn [url drivername username host port database]. intros H.
    repeat (apply string_app_inv_head in H). exact H. }
  split; [exact H1|]. by rewrite H2.
Qed.

(** ** A reflection of the package *)

Section PkgReflection.

Context {Data PStore PTable : Type}.
Context (Data_new : Data).
Context (update_tables : list PTable → Data → Data).
Context (persist_write_table : SATable → PStore → PStore * PTable).
Context (PStore_empty : PStore) (profile : string).

Lemma pkg_persist_tables_eq (l : nat) (en : Engine) (ts : list SATable) :
  ∀ (st : Pkg.State Data PStore) (d0 : Pkg.Database Data) (s0 : PStore),
    Pkg.heap _ _ st !! l = Some d0 →
    Pkg.files _ _ st !! Pkg.location en = Some s0 →
    let p := persisted update_tables persist_write_table ts (s0, Pkg.data _ d0) in
    Pkg.persist_tables Data PStore PTable update_tables persist_write_table
      PStore_empty l en ts st
    = (Pkg.mkState _ _ (Pkg.databases _ _ st)
         (<[l := Pkg.mkDatabase _ p.2 (Pkg.db_reflecting _ d0)]> (Pkg.heap _ _ st))
         (<[Pkg.location en := p.1]> (Pkg.files _ _ st))
         (Pkg.pool _ _ st), inr tt).
Proof.
  induction ts as [|sat ts IH]; intros st d0 s0 Hl Hf; cbv zeta.
  - simpl. unfold ret. f_equal. destruct st as [dbs hp fs pl]. simpl in *. f_equal.
    + symmetry. apply list_insert_id. by destruct d0.
    + symmetry. by apply insert_id.
  - cbn [Pkg.persist_tables persisted foldl]. unfold bind, gets, modify.
    cbv beta iota zeta. rewrite Hf. cbn [default].
    set (w := persist_write_table sat s0).
    set (st1 := Pkg.update_at Data PStore l _ _).
    assert (Pkg.heap _ _ st1 !! l
            = Some (Pkg.mkDatabase _ (update_tables [w.2] (Pkg.data _ d0))
                      (Pkg.db_reflecting _ d0))) as Hl1.
    { unfold st1, Pkg.update_at. cbn [Pkg.heap Pkg.set_heap Pkg.set_files]. rewrite Hl.
      rewrite list_lookup_insert_eq by (by eapply lookup_lt_Some). done. }
    assert (Pkg.files _ _ st1 !! Pkg.location en = Some w.1) as Hf1.
    { unfold st1, Pkg.update_at. cbn [Pkg.files Pkg.set_heap Pkg.set_files].
      by rewrite lookup_insert_eq. }
    rewrite (IH st1 _ _ Hl1 Hf1). cbv zeta. cbn [Pkg.data Pkg.db_reflecting fst snd].
    f_equal. unfold st1, Pkg.update_at.
    cbn [Pkg.databases Pkg.heap Pkg.files Pkg.pool Pkg.set_heap Pkg.set_files].
    rewrite Hl. f_equal.
    + by rewrite list_insert_insert_eq.
    + by rewrite insert_insert_eq.
Qed.

(** X18. A reflection of the package that returns builds the store file
    of its key anew: the file holds what [persist.write_table] makes of
    the reflected tables from empty tables, whatever it held before. The
    [Database] object of the task is updated in place with the written
    tables and its flag is unset at the end; no other file, no other
    object, and neither the cache nor the pool is touched. *)
Theorem pkg_reflect_db_rebuilds_store (t : Pkg.Task) (ts : list SATable)
    (st : Pkg.State Data PStore) (d : Pkg.Database Data) :
  Pkg.heap _ _ st !! Pkg.task_db t = Some d →
  let r := Pkg.reflect_db Data PStore PTable update_tables persist_write_table
             PStore_empty profile t (inr ts) st in
  let store := Pkg.location (Pkg.engine_from_key profile (Pkg.task_key t)) in
  let p := persisted update_tables persist_write_table ts (PStore_empty, Pkg.data _ d) in
  r.2 = inr tt
  ∧ Pkg.files _ _ r.1 !! store = Some p.1
  ∧ (∀ loc, loc ≠ store → Pkg.files _ _ r.1 !! loc = Pkg.files _ _ st !! loc)
  ∧ Pkg.deref _ _ Data_new r.1 (Pkg.task_db t) = Pkg.mkDatabase _ p.2 false
  ∧ (∀ l, l ≠ Pkg.task_db t →
       Pkg.deref _ _ Data_new r.1 l = Pkg.deref _ _ Data_new st l)
  ∧ Pkg.pool _ _ r.1 = Pkg.pool _ _ st
  ∧ Pkg.databases _ _ r.1 = Pkg.databases _ _ st.
Proof.
  intros Hd. cbv zeta. unfold Pkg.reflect_db, bind, modify, lift. cbv beta iota zeta.
  set (store := Pkg.location (Pkg.engine_from_key profile (Pkg.task_key t))).
  set (st1 := Pkg.create_schema _ _ _ _ _).
  assert (Pkg.heap _ _ st1 !! Pkg.task_db t
          = Some (Pkg.mkDatabase _ (Pkg.data _ d) true)) as Hl1.
  { unfold st1, Pkg.create_schema, Pkg.delete_schema, Pkg.update_at.
    cbn [Pkg.heap Pkg.set_heap Pkg.set_files]. rewrite Hd.
    rewrite list_lookup_insert_eq by (by eapply lookup_lt_Some). done. }
  assert (Pkg.files _ _ st1 !! store = Some PStore_empty) as Hf1.
  { unfold st1, Pkg.create_schema, Pkg.delete_schema.
    cbn [Pkg.files Pkg.set_heap Pkg.set_files]. fold store.
    by rewrite lookup_insert_eq, lookup_delete_eq. }
  rewrite (pkg_persist_tables_eq _ _ ts st1 _ _ Hl1 Hf1). cbv zeta. cbn [Pkg.data].
  set (p := persisted update_tables persist_write_table ts (PStore_empty, Pkg.data _ d)).
  cbn [fst snd Pkg.db_reflecting]. unfold Pkg.update_at, Pkg.deref.
  cbn [Pkg.heap Pkg.files Pkg.pool Pkg.databases Pkg.set_heap].
  assert (Pkg.task_db t < length (Pkg.heap _ _ st1))%nat as Hlt
    by (by eapply lookup_lt_Some).
  rewrite list_lookup_insert_eq by exact Hlt. rewrite list_insert_insert_eq.
  cbn [Pkg.set_db_reflecting Pkg.data].
  assert (Pkg.heap _ _ st1 = <[Pkg.task_db t := Pkg.mkDatabase _ (Pkg.data _ d) true]>
                                 (Pkg.heap _ _ st)) as Hh.
  { unfold st1, Pkg.create_schema, Pkg.delete_schema, Pkg.update_at.
    cbn [Pkg.heap Pkg.set_heap Pkg.set_files]. by rewrite Hd. }
  split_and!.
  - done.
  - by rewrite lookup_insert_eq.
  - intros loc Hloc. rewrite lookup_insert_ne by done.
    unfold st1, Pkg.create_schema, Pkg.delete_schema, Pkg.update_at.
    cbn [Pkg.files Pkg.set_heap Pkg.set_files]. fold store.
    by rewrite lookup_insert_ne, lookup_delete_ne.
  - by rewrite list_lookup_insert_eq.
  - intros l Hl. rewrite list_lookup_insert_ne by done. rewrite Hh.
    by rewrite list_lookup_insert_ne.
  - done.
  - done.
Qed.

End PkgReflection.

Lemma pkg_reflect_db_rebuilds_store_witness :
  let r := Pkg.reflect_db unit (list string) string (λ _ d, d)
             (λ satable s, (s ++ [sa_name satable], sa_name satable)) [] demo_profile
             (Pkg.mkTask (Pkg.get_db_key shop) 0 (url shop))
             (inr [old_table; new_table]) pkg_scheduled in
  r.2 = inr tt
  ∧ Pkg.files _ _ r.1 !! Pkg.location (Pkg.engine_from_key demo_profile
                                         (Pkg.get_db_key shop))
    = Some ["old"; "new"].
Proof.
  destruct (pkg_reflect_db_rebuilds_store (Data:=unit) (PStore:=list string) tt
              (λ _ d, d) (λ satable s, (s ++ [sa_name satable], sa_name satable))
              [] demo_profile (Pkg.mkTask (Pkg.get_db_key shop) 0 (url shop))
              [old_table; new_table] pkg_scheduled (Pkg.mkDatabase unit tt false)
              eq_refl) as (H1 & H2 & _).
  split; [exact H1|exact H2].
Defined.

(** These hold at concrete states of the package too. *)
Lemma pkg_get_metadata_while_reflecting_witness :
  let st := Pkg.mkState unit (list string) {[ Pkg.get_db_key shop := 0%nat ]}
              [Pkg.mkDatabase unit tt true] ∅ [] in
  let r := Pkg.get_metadata unit (list string) tt (λ _ _, true) (λ _, tt) []
             demo_profile shop true 1 2 st in
  Pkg.pool _ _ r.1 = [] ∧ r.2 = inr 0%nat.
Proof.
  destruct (pkg_get_metadata_while_reflecting (Data:=unit) (PStore:=list string) tt
              (λ _ _, true) (λ _, tt) [] demo_profile shop true 1 2
              (Pkg.mkState unit (list string) {[ Pkg.get_db_key shop := 0%nat ]}
                 [Pkg.mkDatabase unit tt true] ∅ []) 0%nat)
    as (H1 & H2 & _).
  - cbn [Pkg.databases]. by rewrite lookup_singleton_eq.
  - reflexivity.
  - split; [exact H1|exact H2].
Defined.

Lemma pkg_reflect_db_raises_keeps_flag_witness :
  let r := Pkg.reflect_db unit (list string) string (λ _ d, d)
             (λ satable s, (s ++ [sa_name satable], sa_name satable)) [] demo_profile
             (Pkg.mkTask (Pkg.get_db_key shop) 0 (url shop))
             (inl ReflectorError) pkg_scheduled in
  r.2 = inl ReflectorError
  ∧ Pkg.db_reflecting _ (Pkg.deref _ _ tt r.1 0) = true.
Proof.
  exact (pkg_reflect_db_raises_keeps_flag (Data:=unit) (PStore:=list string)
           (PTable:=string) tt (λ _ d, d)
           (λ satable s, (s ++ [sa_name satable], sa_name satable)) [] demo_profile
           (Pkg.mkTask (Pkg.get_db_key shop) 0 (url shop)) ReflectorError pkg_scheduled
           (ex_intro _ _ eq_refl)).
Defined.

Lemma pkg_flush_unseen_key_raises_witness :
  (Pkg.flush unit (list string) [] shop (Pkg.State_init unit (list string) ∅)).2
  = inl KeyError.
Proof.
  exact (proj1 (pkg_flush_unseen_key_raises (Data:=unit) (PStore:=list string) [] shop
                  (Pkg.State_init unit (list string) ∅) (lookup_empty _))).
Defined.

(** ** The read accessors after [get_metadata] *)

Lemma update_entry_id_present (db_key : string) (m : MetaData) (a : Accessor) :
  metadata a !! db_key = Some m → update_entry db_key id a = a.
Proof.
  intros H. unfold update_entry, set_metadata. rewrite H. simpl.
  rewrite insert_id by done. by destruct a.
Qed.

Lemma get_metadata_binds (e : Engine) (force : bool) (t_read t_now : Z) (a : Accessor) :
  schema_exists (db a) →
  ∃ m, (get_metadata e force t_read t_now a).2 = inr m
       ∧ metadata (get_metadata e force t_read t_now a).1 !! get_db_key (url e) = Some m.
Proof.
  intros Hs. rewrite get_metadata_eq by exact Hs. cbv zeta.
  destruct (refresh_warranted force t_now _); cbn [fst snd];
    eexists; (split; [reflexivity|]);
    cbn [metadata set_pool put_entry set_metadata]; by rewrite lookup_insert_eq.
Qed.

(** X19. After a call of [get_metadata] for an engine, the read accessors
    show the entry that the call returned: [tables], [reflecting],
    [types], and [fields] and [dottedfields] without a table, give that
    entry's attributes, and none of them changes the accessor. *)
Theorem accessors_show_returned_entry (e : Engine) (force : bool) (t_read t_now : Z)
    (a : Accessor) :
  schema_exists (db a) →
  let r := get_metadata e force t_read t_now a in
  ∃ m, r.2 = inr m
       ∧ CompletionDataAccessor.tables e r.1 = (r.1, inr (tables m))
       ∧ CompletionDataAccessor.reflecting e r.1 = (r.1, inr (reflecting m))
       ∧ CompletionDataAccessor.types e r.1 = (r.1, inr (types m))
       ∧ CompletionDataAccessor.fields e None r.1 = (r.1, inr (NameSet (fields m)))
       ∧ CompletionDataAccessor.dottedfields e None r.1
         = (r.1, inr (NameSet (dottedfields m))).
Proof.
  intros Hs. cbv zeta.
  destruct (get_metadata_binds e force t_read t_now a Hs) as (m & Hm & Hb).
  exists m. split; [exact Hm|].
  set (a' := (get_metadata e force t_read t_now a).1) in *.
  assert (entry a' (get_db_key (url e)) = m) as He by (unfold entry; by rewrite Hb).
  pose proof (update_entry_id_present _ _ _ Hb) as Hu.
  unfold CompletionDataAccessor.tables, CompletionDataAccessor.reflecting,
    CompletionDataAccessor.types, CompletionDataAccessor.fields,
    CompletionDataAccessor.dottedfields.
  cbn [truthy]. unfold bind, modify, gets, ret. rewrite Hu, He. by split_and!.
Qed.

Lemma accessors_show_returned_entry_witness :
  CompletionDataAccessor.reflecting shop
    (get_metadata shop true 0 0 (Accessor_init empty_store)).1
  = ((get_metadata shop true 0 0 (Accessor_init empty_store)).1, inr true).
Proof.
  destruct (accessors_show_returned_entry shop true 0 0 (Accessor_init empty_store)
              (create_schema_exists empty_store)) as (m & Hm & _ & Hr & _).
  rewrite Hr. f_equal. f_equal.
  assert (inr m = @inr exn _ (set_reflecting true
            (set_isempty false (set_created 0 MetaData_new)))) as E.
  { rewrite <- Hm. vm_compute. reflexivity. }
  by injection E as ->.
Defined.

(** ** [flush] and the write queue *)

Lemma write_table_dbtable (db_key : string) (t : SATable) (now : Z) (s : Store) :
  schema_exists s → (write_table db_key t now s).2 = inr tt →
  ∃ ts ts', dbtable s = Some ts ∧ dbtable (write_table db_key t now s).1 = Some ts'
            ∧ ts ⊆ ts'
            ∧ ∃ tr, tr ∈ ts' ∧ t_db_key tr = db_key ∧ t_name tr = sa_name t.
Proof.
  intros [[ts Ht] Hf] Hok. unfold write_table, bind in *.
  pose proof (table_id_of_cases db_key (sa_name t) now s) as C.
  destruct (table_id_of db_key (sa_name t) now s) as [s1 [e|tid]] eqn:H1; [done|].
  destruct (table_id_of_row _ _ _ _ _ _ H1) as (_ & ts1 & tr & Hts & Hin & _ & Hk & Hn).
  rewrite write_columns_dbtable. exists ts, ts1. split_and!; [done|done| |by exists tr].
  inversion C as [|rows r Hr Hfind|rows Hr Hfind]; subst.
  - rewrite Hts in Ht. by injection Ht as ->.
  - simpl in Hts. injection Hts as <-. rewrite Ht in Hr. injection Hr as <-.
    intros x Hx. apply elem_of_app. by left.
Qed.

Lemma run_writes_tables (q : list (string * SATable)) : ∀ nows s,
  schema_exists s →
  Forall (λ kt, columns_result (sa_columns kt.2) = inr tt) q →
  let r := MetadataSavingThread_run (turns_of q nows) s in
  (∀ ts, dbtable s = Some ts → ∃ ts', dbtable r.1 = Some ts' ∧ ts ⊆ ts')
  ∧ ∀ i k t, q !! i = Some (k, t) → (i < length nows)%nat →
      ∃ ts tr, dbtable r.1 = Some ts ∧ tr ∈ ts ∧ t_db_key tr = k ∧ t_name tr = sa_name t.
Proof.
  induction q as [|[k0 t0] q IH]; intros nows s Hs Hq; cbv zeta.
  - split; [intros ts Ht; by exists ts|]. intros i k t Hi. by rewrite lookup_nil in Hi.
  - destruct nows as [|now nows].
    { split; [intros ts Ht; by exists ts|]. intros i k t _ Hi. simpl in Hi. lia. }
    apply Forall_cons in Hq as [Ht0 Hq]. simpl in Ht0.
    unfold turns_of. cbn [zip_with MetadataSavingThread_run fst snd].
    pose proof (write_table_returns k0 t0 now s Hs Ht0) as Hw.
    pose proof (write_table_schema k0 t0 now s Hs) as Hs'.
    destruct (write_table_dbtable k0 t0 now s Hs Hw)
      as (ts & ts' & Hts & Hts' & Hsub & tr & Htr & Hk & Hn).
    destruct (write_table k0 t0 now s) as [s' [e|[]]]; [done|]. cbn [fst] in *.
    destruct (IH nows s' Hs' Hq) as [K1 K2]. fold (turns_of q nows). split.
    + intros ts0 Hts0. rewrite Hts in Hts0. injection Hts0 as <-.
      destruct (K1 ts' Hts') as (ts'' & E & Hsub'). exists ts''. split; [done|].
      by etrans.
    + intros [|i] k t Hi Hlen.
      * injection Hi as -> ->. destruct (K1 ts' Hts') as (ts'' & E & Hsub').
        exists ts'', tr. split_and!; try done. by apply Hsub'.
      * apply (K2 i k t Hi). simpl in Hlen. lia.
Qed.

(** X20. [flush] does not empty the write queue. In every state that
    calls of [get_metadata] and [flush], reflections and saved tables
    lead to, the tables that [reflect_table] has queued are still queued
    after [flush] has emptied the cache and the store, and the saving
    thread then writes them to the emptied store without an error: each
    of them has its row in [dbtable] again. *)
Theorem flush_keeps_write_queue (s : Store) (evs : list event) (nows : list Z) :
  let a := run_events evs (Accessor_init s) in
  let a' := (flush a).1 in
  let r := MetadataSavingThread_run (turns_of (write_queue a') nows) (db a') in
  write_queue a' = write_queue a
  ∧ db a' = mkStore (Some []) (Some [])
  ∧ r.2 = Waiting
  ∧ ∀ i k t, write_queue a !! i = Some (k, t) → (i < length nows)%nat →
      ∃ ts tr, dbtable r.1 = Some ts ∧ tr ∈ ts ∧ t_db_key tr = k ∧ t_name tr = sa_name t.
Proof.
  cbv zeta.
  pose proof (single_flight_events evs _ (single_flight_init s)) as [Hs _].
  assert (queue_writable (run_events evs (Accessor_init s))) as Hq.
  { apply (queue_writable_events evs); [apply single_flight_init|]. constructor. }
  rewrite flush_eq by exact Hs. cbn [fst write_queue db].
  assert (schema_exists (mkStore (Some []) (Some []))) as Hs0 by (by split).
  split_and!; [done|done| |].
  - by apply run_writable.
  - exact (proj2 (run_writes_tables _ nows _ Hs0 Hq)).
Qed.

Lemma flush_keeps_write_queue_witness :
  let a := run_events [EvGetMetadata shop true 0 0;
                       EvReflection 0 (inr [inr old_table]) 10; EvFlush]
             (Accessor_init empty_store) in
  write_queue a = [(get_db_key (url shop), old_table)]
  ∧ db a = mkStore (Some []) (Some [])
  ∧ (MetadataSavingThread_run (turns_of (write_queue a) [20]) (db a)).1
    = mkStore (Some [mk_dbtable_row 1 (get_db_key (url shop)) "old" 20])
              (Some [mk_dbfield_row 1 1 "id" "INTEGER" None]).
Proof.
  cbv zeta.
  destruct (flush_keeps_write_queue empty_store
              [EvGetMetadata shop true 0 0; EvReflection 0 (inr [inr old_table]) 10]
              [20]) as (H1 & H2 & _).
  cbv zeta in H1, H2.
  change (run_events [EvGetMetadata shop true 0 0;
                      EvReflection 0 (inr [inr old_table]) 10; EvFlush]
            (Accessor_init empty_store))
    with (flush (run_events [EvGetMetadata shop true 0 0;
                             EvReflection 0 (inr [inr old_table]) 10]
                   (Accessor_init empty_store))).1.
  rewrite H1, H2. split_and!; [vm_compute; reflexivity|reflexivity|].
  vm_compute. reflexivity.
Defined.

(** ** The age of what the store holds *)

Lemma max_created_newest (db_key : string) (ts : list dbtable_row) (tr : dbtable_row) :
  tr ∈ ts → t_db_key tr = db_key →
  (∀ r, r ∈ ts → t_db_key r = db_key → t_created r ≤ t_created tr) →
  max_created db_key ts = Some (t_created tr).
Proof.
  unfold max_created. intros Hin Hk Hmax.
  assert (tr ∈ filter (λ t, t_db_key t = db_key) ts) as Hin'.
  { by apply list_elem_of_filter. }
  assert (∀ r, r ∈ filter (λ t, t_db_key t = db_key) ts → t_created r ≤ t_created tr)
    as Hmax'.
  { intros r Hr. apply list_elem_of_filter in Hr as [? ?]. by apply Hmax. }
  clear Hin Hmax. induction (filter (λ t, t_db_key t = db_key) ts) as [|x l IH].
  - by apply elem_of_nil in Hin'.
  - simpl. apply elem_of_cons in Hin' as [<-|Hin'].
    + destruct (foldr _ None l) as [c|] eqn:E; [|done]. f_equal.
      assert (c ≤ t_created tr); [|lia].
      clear IH. revert c E. induction l as [|y l IHl]; intros c E; [done|].
      simpl in E. injection E as E.
      assert (t_created y ≤ t_created tr) by (apply Hmax'; right; by left).
      destruct (foldr _ None l) as [c'|] eqn:E'; [|lia].
      assert (c' ≤ t_created tr); [|lia].
      apply (IHl); [|done]. intros r Hr. apply Hmax'.
      apply elem_of_cons in Hr as [->|Hr]; [by left|]. right. by right.
    + rewrite IH; [|done|intros r Hr; apply Hmax'; by right]. f_equal.
      assert (t_created x ≤ t_created tr) by (apply Hmax'; by left). lia.
Qed.

Lemma write_table_known (db_key : string) (t : SATable) (now : Z) (s : Store)
    (ts : list dbtable_row) (r : dbtable_row) :
  dbtable s = Some ts → r ∈ ts → t_db_key r = db_key → t_name r = sa_name t →
  dbtable (write_table db_key t now s).1 = Some ts.
Proof.
  intros Ht Hr Hk Hn. unfold write_table, bind.
  pose proof (table_id_of_cases db_key (sa_name t) now s) as C.
  destruct (table_id_of db_key (sa_name t) now s) as [s1 [e|tid]]; cbn [fst].
  - inversion C; congruence.
  - rewrite write_columns_dbtable.
    inversion C as [|rows r' Hr' Hfind|rows Hr' Hfind]; subst; [done|].
    rewrite Ht in Hr'. injection Hr' as <-.
    apply find_none_existsb in Hfind.
    assert (existsb (table_key_matches (t_db_key r) (sa_name t)) ts = true); [|congruence].
    apply existsb_exists. exists r. split; [by apply list_elem_of_In|].
    unfold table_key_matches. by rewrite bool_decide_true.
Qed.

(** X26. The age that a new session sees is the age of the newest row of
    the key in [dbtable]. The first [get_metadata] of a new accessor on
    a store that holds rows for the key returns an entry whose [created]
    is the largest [created] among them, and it hands a reflection to
    the pool exactly when [force] is set or that time is more than
    [CACHE_MAX_AGE] before the clock. [write_table] for a table that has
    its row already leaves [dbtable] as it is: saving a known table
    again does not make the store any younger. *)
Theorem restart_age_is_newest_row (e : Engine) (force : bool) (s : Store)
    (ts : list dbtable_row) (tr : dbtable_row) (t_read t_now : Z) :
  let db_key := get_db_key (url e) in
  schema_exists s → dbtable s = Some ts →
  tr ∈ ts → t_db_key tr = db_key →
  (∀ r, r ∈ ts → t_db_key r = db_key → t_created r ≤ t_created tr) →
  let r := get_metadata e force t_read t_now (Accessor_init s) in
  (pool r.1 = [e] ↔
     force = true ∨ timedelta_seconds CACHE_MAX_AGE < t_now - t_created tr)
  ∧ (pool r.1 ≠ [e] → pool r.1 = [])
  ∧ (∃ m, r.2 = inr m ∧ created m = t_created tr ∧ isempty m = false)
  ∧ (∀ t now r0, r0 ∈ ts → t_db_key r0 = db_key → t_name r0 = sa_name t →
       dbtable (write_table db_key t now s).1 = Some ts).
Proof.
  cbv zeta. intros Hs Ht Hin Hk Hmax.
  set (db_key := get_db_key (url e)) in *.
  assert (db (Accessor_init s) = s) as Hdb.
  { unfold Accessor_init. simpl. by apply create_schema_keeps. }
  rewrite get_metadata_eq by (by rewrite Hdb). cbv zeta. fold db_key.
  set (m := loaded_entry db_key t_read (Accessor_init s)).
  assert (created m = t_created tr ∧ isempty m = false ∧ reflecting m = false)
    as (Hc & He & Hr).
  { split_and!; [|apply loaded_entry_not_empty|unfold m; by rewrite loaded_entry_reflecting].
    unfold m, loaded_entry. change (entry (Accessor_init s) db_key) with MetaData_new.
    cbn [isempty MetaData_new]. unfold read_entry. rewrite Hdb, Ht.
    cbn [created set_isempty set_created default].
    change (id ts) with ts. by rewrite (max_created_newest db_key ts tr Hin Hk Hmax). }
  pose proof (refresh_warranted_true force t_now m) as Hw.
  rewrite He, Hr, Hc in Hw.
  destruct (refresh_warranted force t_now m); cbn [fst snd pool set_pool put_entry
    set_metadata Accessor_init app].
  - split_and!.
    + split; [intros _|done]. destruct Hw as [[H _] _]; [done|].
      destruct H as [?|[?|?]]; [by left|done|by right].
    + done.
    + exists (set_reflecting true m). by split_and!.
    + intros t now r0 Hr0 Hk0 Hn0. by eapply write_table_known.
  - split_and!.
    + split; [done|]. intros H. destruct Hw as [_ Hw]. 
      assert (false = true); [|done]. apply Hw. split; [|done]. tauto.
    + done.
    + exists m. by split_and!.
    + intros t now r0 Hr0 Hk0 Hn0. by eapply write_table_known.
Qed.

Lemma restart_age_is_newest_row_witness :
  let s := (write_table (get_db_key (url shop)) old_table 1000
              (create_schema empty_store)).1 in
  pool (get_metadata shop false 5000 (1000 + timedelta_seconds 601)
          (Accessor_init s)).1 = [shop]
  ∧ dbtable (write_table (get_db_key (url shop)) old_table 9000 s).1 = dbtable s.
Proof.
  cbv zeta.
  set (s := (write_table (get_db_key (url shop)) old_table 1000
               (create_schema empty_store)).1).
  set (tr := mk_dbtable_row 1 (get_db_key (url shop)) "old" 1000).
  assert (dbtable s = Some [tr]) as Ht by (vm_compute; reflexivity).
  assert (schema_exists s) as Hs by (split; vm_compute; eauto).
  destruct (restart_age_is_newest_row shop false s [tr] tr 5000
              (1000 + timedelta_seconds 601) Hs Ht) as (H1 & _ & _ & H4).
  - by left.
  - reflexivity.
  - intros r Hr _. apply list_elem_of_singleton in Hr as ->. reflexivity.
  - split.
    + apply H1. right. vm_compute. reflexivity.
    + rewrite Ht. apply (H4 old_table 9000 tr); [by left|reflexivity|reflexivity].
Defined.

(** ** The object that a forced call of the package returns *)

Section PkgLiveObject.

Context {Data PStore PTable : Type}.
Context (Data_new : Data) (age_exceeds : Z → Data → bool).
Context (update_tables : list PTable → Data → Data).
Context (persist_read : PStore → Data).
Context (persist_write_table : SATable → PStore → PStore * PTable).
Context (PStore_empty : PStore) (profile : string).

Lemma pkg_reflect_db_eq (t : Pkg.Task) (ts : list SATable)
    (st : Pkg.State Data PStore) (d : Pkg.Database Data) :
  Pkg.heap _ _ st !! Pkg.task_db t = Some d →
  let p := persisted update_tables persist_write_table ts (PStore_empty, Pkg.data _ d) in
  Pkg.reflect_db Data PStore PTable update_tables persist_write_table
    PStore_empty profile t (inr ts) st
  = (Pkg.mkState _ _ (Pkg.databases _ _ st)
       (<[Pkg.task_db t := Pkg.mkDatabase _ p.2 false]> (Pkg.heap _ _ st))
       (<[Pkg.location (Pkg.engine_from_key profile (Pkg.task_key t)) := p.1]>
          (Pkg.files _ _ st))
       (Pkg.pool _ _ st), inr tt).
Proof.
  intros Hd. cbv zeta. unfold Pkg.reflect_db, bind, modify, lift. cbv beta iota zeta.
  set (store := Pkg.location (Pkg.engine_from_key profile (Pkg.task_key t))).
  set (st1 := Pkg.create_schema _ _ _ _ _).
  assert (Pkg.heap _ _ st1 = <[Pkg.task_db t := Pkg.mkDatabase _ (Pkg.data _ d) true]>
                                 (Pkg.heap _ _ st)) as Hh.
  { unfold st1, Pkg.create_schema, Pkg.delete_schema, Pkg.update_at.
    cbn [Pkg.heap Pkg.set_heap Pkg.set_files]. by rewrite Hd. }
  assert (Pkg.task_db t < length (Pkg.heap _ _ st))%nat as Hlt
    by (by eapply lookup_lt_Some).
  assert (Pkg.heap _ _ st1 !! Pkg.task_db t
          = Some (Pkg.mkDatabase _ (Pkg.data _ d) true)) as Hl1.
  { rewrite Hh. by rewrite list_lookup_insert_eq. }
  assert (Pkg.files _ _ st1 = <[store := PStore_empty]> (delete store (Pkg.files _ _ st)))
    as Hfs.
  { unfold st1, Pkg.create_schema, Pkg.delete_schema.
    cbn [Pkg.files Pkg.set_heap Pkg.set_files]. fold store.
    by rewrite lookup_delete_eq. }
  assert (Pkg.files _ _ st1 !! store = Some PStore_empty) as Hf1.
  { rewrite Hfs. by rewrite lookup_insert_eq. }
  rewrite (pkg_persist_tables_eq update_tables persist_write_table PStore_empty
             _ _ ts st1 _ _ Hl1 Hf1).
  cbv zeta. cbn [Pkg.data fst snd Pkg.db_reflecting]. unfold Pkg.update_at, Pkg.set_heap.
  cbn [Pkg.heap Pkg.files Pkg.pool Pkg.databases].
  assert (Pkg.task_db t < length (Pkg.heap _ _ st1))%nat as Hlt1
    by (by eapply lookup_lt_Some).
  rewrite list_lookup_insert_eq by exact Hlt1.
  rewrite list_insert_insert_eq. cbn [Pkg.set_db_reflecting Pkg.data].
  rewrite Hh, Hfs, list_insert_insert_eq, insert_insert_eq, insert_delete_eq.
  reflexivity.
Qed.

(** X27. The [Database] that [get_metadata(force=True)] returns is the
    object that the reflection it has scheduled works on. When the call
    finds no reflection under way, it reads a new object from the
    store, binds it to the key, hands it to the pool and returns it; a
    [reflect_db] of that task that returns has then updated that very
    object with the written tables and left its flag unset, and the key
    is still bound to it. *)
Theorem pkg_forced_call_returns_live_object (e : Engine) (t1 t2 : Z)
    (ts : list SATable) (st : Pkg.State Data PStore) :
  Pkg.found_reflecting _ _ Data_new st e = false →
  let key := Pkg.get_db_key e in
  let r := Pkg.get_metadata Data PStore Data_new age_exceeds persist_read PStore_empty
             profile e true t1 t2 st in
  ∃ l, r.2 = inr l
       ∧ Pkg.pool _ _ r.1 = Pkg.pool _ _ st ++ [Pkg.mkTask key l (url e)]
       ∧ Pkg.databases _ _ r.1 !! key = Some l
       ∧ Pkg.deref _ _ Data_new r.1 l
         = Pkg.mkDatabase _ (Pkg.stored_data _ _ persist_read PStore_empty profile st e)
             false
       ∧ let r2 := Pkg.reflect_db Data PStore PTable update_tables persist_write_table
                     PStore_empty profile (Pkg.mkTask key l (url e)) (inr ts) r.1 in
         let p := persisted update_tables persist_write_table ts
                    (PStore_empty,
                     Pkg.stored_data _ _ persist_read PStore_empty profile st e) in
         r2.2 = inr tt
         ∧ Pkg.databases _ _ r2.1 !! key = Some l
         ∧ Pkg.deref _ _ Data_new r2.1 l = Pkg.mkDatabase _ p.2 false.
Proof.
  intros Hfl. cbv zeta.
  set (key := Pkg.get_db_key e).
  set (rd := Pkg.mkDatabase _ (Pkg.stored_data _ _ persist_read PStore_empty profile st e)
               false).
  assert (∃ st0,
            Pkg.get_metadata Data PStore Data_new age_exceeds persist_read PStore_empty
              profile e true t1 t2 st
            = (Pkg.set_pool _ _ (λ p, p ++ [Pkg.mkTask key (length (Pkg.heap _ _ st0))
                                              (url e)])
                 (Pkg.set_databases _ _ <[key := length (Pkg.heap _ _ st0)]>
                    (Pkg.set_heap _ _ (λ h, h ++ [rd]) st0)),
               inr (length (Pkg.heap _ _ st0)))
            ∧ Pkg.pool _ _ st0 = Pkg.pool _ _ st) as (st0 & Heq & Hpool).
  { rewrite pkg_get_metadata_eq. cbv zeta.
    set (s0 := Pkg.create_schema Data PStore PStore_empty _ st).
    assert (Pkg.stored_data _ _ persist_read PStore_empty profile s0 e
            = Pkg.stored_data _ _ persist_read PStore_empty profile st e) as Hsd.
    { unfold Pkg.stored_data, s0. cbn [Pkg.files Pkg.create_schema Pkg.set_files].
      by rewrite lookup_insert_eq. }
    unfold Pkg.found_reflecting in Hfl. fold key in Hfl |- *.
    destruct (Pkg.databases _ _ st !! key) as [l|] eqn:Hl.
    - exists s0. rewrite pkg_get_metadata_found_eq. cbv zeta.
      change (Pkg.deref _ _ Data_new s0 l) with (Pkg.deref _ _ Data_new st l).
      rewrite Hfl, Hsd. done.
    - set (s1 := Pkg.set_databases Data PStore _ _).
      exists s1. rewrite pkg_get_metadata_found_eq. cbv zeta.
      assert (Pkg.deref _ _ Data_new s1 (length (Pkg.heap _ _ st))
              = Pkg.mkDatabase _ Data_new false) as ->
        by (apply (pkg_deref_bound Data_new s0)).
      cbn [Pkg.db_reflecting].
      assert (Pkg.stored_data _ _ persist_read PStore_empty profile s1 e
              = Pkg.stored_data _ _ persist_read PStore_empty profile st e) as ->
        by exact Hsd.
      done. }
  rewrite Heq. cbn [fst snd]. exists (length (Pkg.heap _ _ st0)).
  set (l := length (Pkg.heap _ _ st0)).
  set (st' := Pkg.set_pool _ _ _ _).
  assert (Pkg.heap _ _ st' !! l = Some rd) as Hl.
  { unfold st'. cbn [Pkg.heap Pkg.set_pool Pkg.set_databases Pkg.set_heap].
    by rewrite list_lookup_middle. }
  assert (Pkg.databases _ _ st' !! key = Some l) as Hk.
  { unfold st'. cbn [Pkg.databases Pkg.set_pool Pkg.set_databases Pkg.set_heap].
    by rewrite lookup_insert_eq. }
  split_and!.
  - done.
  - unfold st'. cbn [Pkg.pool Pkg.set_pool Pkg.set_databases Pkg.set_heap].
    by rewrite Hpool.
  - exact Hk.
  - unfold Pkg.deref. by rewrite Hl.
  - rewrite (pkg_reflect_db_eq (Pkg.mkTask key l (url e)) ts st' rd Hl). done.
  - rewrite (pkg_reflect_db_eq (Pkg.mkTask key l (url e)) ts st' rd Hl). exact Hk.
  - rewrite (pkg_reflect_db_eq (Pkg.mkTask key l (url e)) ts st' rd Hl). cbv zeta.
    unfold Pkg.deref. cbn [fst Pkg.heap Pkg.task_db Pkg.data].
    rewrite list_lookup_insert_eq by (by eapply lookup_lt_Some). done.
Qed.

End PkgLiveObject.

Lemma pkg_forced_call_returns_live_object_witness :
  let r := Pkg.get_metadata unit (list string) tt (λ _ _, false) (λ _, tt) []
             demo_profile shop true 1 2 pkg_after_reflection in
  r.2 = inr 1%nat
  ∧ Pkg.databases _ _ r.1 !! Pkg.get_db_key shop = Some 1%nat.
Proof.
  destruct (pkg_forced_call_returns_live_object (Data:=unit) (PStore:=list string)
              (PTable:=string) tt (λ _ _, false) (λ _ d, d) (λ _, tt)
              (λ satable s, (s ++ [sa_name satable], sa_name satable)) [] demo_profile
              shop 1 2 [] pkg_after_reflection) as (l & H1 & _ & H3 & _).
  - unfold Pkg.found_reflecting, pkg_after_reflection. cbn [Pkg.databases].
    by rewrite lookup_singleton_eq.
  - cbv zeta in *.
    assert (@inr exn nat l = inr 1%nat) as E by (rewrite <- H1; vm_compute; reflexivity).
    injection E as ->. split; [exact H1|exact H3].
Defined.

(** ** Foreign keys through the store *)

Lemma valid_prefix_all (cols : list SAColumn) :
  columns_result cols = inr tt →
  (valid_prefix cols).*1 = cols
  ∧ ∀ ci, ci ∈ valid_prefix cols → _get_foreign_key_info ci.1 = inr ci.2.
Proof.
  induction cols as [|c cols IH]; intros H; [split; [done|]; by intros ci Hci%elem_of_nil|].
  simpl in *. destruct (_get_foreign_key_info c) as [e|i] eqn:Hi; [done|].
  destruct (IH H) as [IH1 IH2]. split; [simpl; f_equal; exact IH1|].
  intros ci Hci. apply elem_of_cons in Hci as [->|Hci]; [done|by apply IH2].
Qed.

Lemma rcf_fold (tn : string) (cols : list SAColumn) : ∀ fks0 fks,
  reflect_columns_fks tn cols fks0 = inr fks →
  fks = foldl (λ f ci, fks_of_column tn ci.1 ci.2 f) fks0 (valid_prefix cols).
Proof.
  induction cols as [|c cols IH]; intros fks0 fks H; simpl in *; [by simplify_eq|].
  destruct (_get_foreign_key_info c) as [e|i]; [done|]. simpl. by apply IH.
Qed.

Lemma upsert_fresh (tid : Z) (rows : list dbfield_row) (ci : SAColumn * option FKInfo) :
  (∀ r, r ∈ rows → ¬ (f_table_id r = tid ∧ f_name r = col_name ci.1)) →
  upsert tid rows ci
  = rows ++ [mk_dbfield_row (next_rowid (f_id <$> rows)) tid (col_name ci.1)
               (col_type ci.1) ci.2].
Proof.
  intros H. unfold upsert.
  destruct (existsb (field_key_matches tid (col_name ci.1)) rows) eqn:E; [|done].
  apply existsb_exists in E as (r & Hr & Hm). apply list_elem_of_In in Hr.
  unfold field_key_matches in Hm. apply bool_decide_eq_true in Hm. by destruct (H r Hr).
Qed.

Lemma upserts_fresh (tid : Z) (tn : string) (p : list (SAColumn * option FKInfo)) :
  ∀ rows,
    NoDup ((λ ci, col_name ci.1) <$> p) →
    (∀ r ci, r ∈ rows → ci ∈ p → ¬ (f_table_id r = tid ∧ f_name r = col_name ci.1)) →
    (λ r, mkResultRow tn (f_name r) (f_type r) (f_fk r))
      <$> filter (λ f, f_table_id f = tid) (foldl (upsert tid) rows p)
    = ((λ r, mkResultRow tn (f_name r) (f_type r) (f_fk r))
         <$> filter (λ f, f_table_id f = tid) rows) ++ (row_of tn <$> p).
Proof.
  induction p as [|ci p IH]; intros rows Hnd Hfresh; [by rewrite app_nil_r|].
  cbn [foldl]. rewrite fmap_cons in Hnd. apply NoDup_cons in Hnd as [Hci Hnd].
  rewrite upsert_fresh by (intros r Hr; apply Hfresh; [done|by left]).
  rewrite IH; [|done|].
  - rewrite filter_app, filter_cons, filter_nil, decide_True by done.
    rewrite fmap_app, fmap_cons. cbn [fmap list_fmap f_name f_type f_fk].
    rewrite <- app_assoc. reflexivity.
  - intros r cj Hr Hcj. apply elem_of_app in Hr as [Hr|Hr].
    + apply Hfresh; [done|by right].
    + apply list_elem_of_singleton in Hr as ->. simpl. intros [_ Hn].
      apply Hci. rewrite Hn. apply list_elem_of_fmap. by exists cj.
Qed.

Lemma read_rows_one_table (db_key : string) (tr : dbtable_row) (fs : list dbfield_row) :
  t_db_key tr = db_key →
  read_rows db_key [tr] fs
  = (λ r, mkResultRow (t_name tr) (f_name r) (f_type r) (f_fk r))
      <$> filter (λ f, f_table_id f = t_id tr) fs.
Proof.
  intros Hk. unfold read_rows. rewrite filter_cons, filter_nil, decide_True by done.
  cbn [mbind list_bind]. rewrite app_nil_r.
  induction (filter (λ f, f_table_id f = t_id tr) fs) as [|f l IH]; [done|].
  cbn [mbind list_bind fmap list_fmap] in *. by rewrite IH.
Qed.

Lemma read_rows_fks (tn : string) (p : list (SAColumn * option FKInfo)) : ∀ st,
  (foldl read_row st (row_of tn <$> p)).2 = foldl (read_fks_step tn) st.2 p.
Proof.
  induction p as [|ci p IH]; intros st; [done|].
  rewrite fmap_cons. cbn [foldl]. rewrite IH. f_equal.
  unfold read_row, read_fks_step, row_of. cbn [r_fk r_tablename r_fieldname].
  destruct ci.2 as [i|]; [|done]. by destruct (truthy (constraint_name i)).
Qed.

Lemma fks_append_some_key (n tn rt col rc : string) (fks : list (string * FkDict)) :
  fks_append (Some n) tn rt col rc (some_key <$> fks)
  = some_key <$> fks_append n tn rt col rc fks.
Proof.
  unfold fks_append.
  assert (Some n ∈ (some_key <$> fks).*1 ↔ n ∈ fks.*1) as Hin.
  { rewrite <- list_fmap_compose. split.
    - intros H. apply list_elem_of_fmap in H as ([k d] & E & H). simpl in E.
      injection E as ->. apply list_elem_of_fmap. by exists (k, d).
    - intros H. apply list_elem_of_fmap in H as ([k d] & -> & H).
      apply list_elem_of_fmap. by exists (k, d). }
  destruct (decide (n ∈ fks.*1)) as [Hn|Hn].
  - rewrite !bool_decide_true by tauto. rewrite <- !list_fmap_compose.
    apply list_fmap_ext. intros j [k d] _. unfold some_key. simpl.
    destruct (decide (k = n)) as [->|Hne].
    + by rewrite decide_True.
    + rewrite decide_False; [done|]. intros E. by injection E.
  - rewrite !bool_decide_false by tauto. by rewrite fmap_app.
Qed.

Lemma reflect_fks_some_key (tn : string) (p : list (SAColumn * option FKInfo)) :
  ∀ fks,
    (∀ ci i, ci ∈ p → ci.2 = Some i →
             truthy (constraint_name i) = true ∧ referenced_column i ≠ "") →
    foldl (λ f ci, fks_of_column tn ci.1 ci.2 f) (some_key <$> fks) p
    = some_key <$> foldl (read_fks_step tn) fks p.
Proof.
  induction p as [|ci p IH]; intros fks Hnamed; [done|]. cbn [foldl].
  assert (fks_of_column tn ci.1 ci.2 (some_key <$> fks)
          = some_key <$> read_fks_step tn fks ci) as ->.
  { unfold fks_of_column, read_fks_step. destruct ci.2 as [i|] eqn:Ei; [|done].
    destruct (Hnamed ci i) as [Hn Hrc]; [by left|done|]. rewrite Hn.
    assert (truthy (Some (referenced_column i)) = true) as ->.
    { simpl. apply negb_true_iff. by apply String.eqb_neq. }
    destruct (constraint_name i) as [n|]; [|done]. cbn [default].
    apply fks_append_some_key. }
  apply IH. intros cj i Hcj. apply Hnamed. by right.
Qed.

Lemma fks_append_columns {K} `{EqDecision K} (name : K) (tn rt col rc : string)
    (fks : list (K * FkDict)) :
  NoDup fks.*1 →
  concat (d_columns <$> (fks_append name tn rt col rc fks).*2)
  ≡ₚ col :: concat (d_columns <$> fks.*2).
Proof.
  intros Hnd. unfold fks_append. case_bool_decide as Hin.
  - induction fks as [|[k d] fks IH]; [by apply elem_of_nil in Hin|].
    cbn [fmap list_fmap fst snd concat] in *. apply NoDup_cons in Hnd as [Hk Hnd].
    destruct (decide (k = name)) as [->|Hne].
    + cbn [snd d_columns dict_append].
      assert (((λ kd : K * FkDict,
                  if decide (kd.1 = name) then (kd.1, dict_append col rc kd.2) else kd)
                 <$> fks) = fks) as ->.
      { apply fmap_fixed. intros [k' d'] Hkd. simpl. rewrite decide_False; [done|].
        intros ->. apply Hk. apply list_elem_of_fmap. by exists (name, d'). }
      rewrite <- app_assoc. rewrite (Permutation_app_comm (d_columns d)).
      rewrite <- !app_assoc. simpl. apply Permutation_cons; [done|].
      by rewrite Permutation_app_comm.
    + cbn [snd]. apply elem_of_cons in Hin as [?|Hin]; [done|].
      rewrite (IH Hnd Hin). symmetry. apply Permutation_middle.
  - rewrite !fmap_app, concat_app. simpl. rewrite ?app_nil_r.
    by rewrite Permutation_app_comm.
Qed.

Lemma read_fks_keys_NoDup (tn : string) (p : list (SAColumn * option FKInfo)) : ∀ fks,
  NoDup fks.*1 → NoDup (foldl (read_fks_step tn) fks p).*1.
Proof.
  induction p as [|ci p IH]; intros fks Hnd; [done|]. cbn [foldl]. apply IH.
  unfold read_fks_step. destruct ci.2 as [i|]; [|done].
  destruct (truthy _); [|done]. rewrite fks_append_keys. by apply add_key_NoDup.
Qed.

Lemma read_fks_columns (tn : string) (p : list (SAColumn * option FKInfo)) : ∀ fks,
  NoDup fks.*1 →
  concat (d_columns <$> (foldl (read_fks_step tn) fks p).*2)
  ≡ₚ concat (d_columns <$> fks.*2) ++ fk_columns p.
Proof.
  induction p as [|ci p IH]; intros fks Hnd; [by rewrite app_nil_r|].
  cbn [foldl]. unfold fk_columns. cbn [omap list_omap]. fold (fk_columns p).
  unfold read_fks_step at 2. destruct ci.2 as [i|]; cbn [mbind option_bind]; [|by apply IH].
  destruct (truthy (constraint_name i)); [|by apply IH].
  rewrite IH by (rewrite fks_append_keys; by apply add_key_NoDup).
  rewrite fks_append_columns by done. apply Permutation_middle.
Qed.

Lemma read_fks_paired (tn : string) (p : list (SAColumn * option FKInfo)) : ∀ fks,
  Forall (λ kd, paired_dict kd.2) fks →
  Forall (λ kd, paired_dict kd.2) (foldl (read_fks_step tn) fks p).
Proof.
  induction p as [|ci p IH]; intros fks Hall; [done|]. cbn [foldl]. apply IH.
  unfold read_fks_step. destruct ci.2 as [i|]; [|done].
  destruct (truthy _); [|done]. by apply fks_append_paired.
Qed.

Lemma fk_columns_sublist (p : list (SAColumn * option FKInfo)) :
  fk_columns p `sublist_of` (λ ci, col_name ci.1) <$> p.
Proof.
  induction p as [|ci p IH]; [done|]. unfold fk_columns. cbn [omap list_omap].
  fold (fk_columns p). rewrite fmap_cons.
  destruct ci.2 as [i|]; cbn [mbind option_bind]; [|by apply sublist_cons].
  destruct (truthy _); [by apply sublist_skip|by apply sublist_cons].
Qed.

Lemma NoDup_concat_nonempty {A} (ls : list (list A)) :
  NoDup (concat ls) → Forall (λ l, l ≠ []) ls → NoDup ls.
Proof.
  induction ls as [|l ls IH]; intros Hnd Hne; [constructor|].
  simpl in Hnd. apply NoDup_app in Hnd as (Hl & Hdisj & Hls).
  apply Forall_cons in Hne as [Hl0 Hne]. apply NoDup_cons. split; [|by apply IH].
  intros Hin. destruct l as [|x l]; [done|].
  apply (Hdisj x); [by left|]. apply list_elem_of_In, in_concat.
  exists (x :: l). split; [by apply list_elem_of_In|by left].
Qed.

Lemma merge_fks_NoDup (news : list ForeignKey) : ∀ l,
  NoDup (l ++ news) → foldl merge_fk l news = l ++ news.
Proof.
  induction news as [|fk news IH]; intros l Hnd; [by rewrite app_nil_r|]. cbn [foldl].
  assert (fk ∉ l) as Hfk.
  { apply NoDup_app in Hnd as (_ & Hd & _). intros H. apply (Hd fk H). by left. }
  assert (remove_first fk l = l) as Hrm.
  { clear -Hfk. induction l as [|x l IH]; [done|]. simpl.
    rewrite decide_False by (intros ->; apply Hfk; by left).
    f_equal. apply IH. intros H. apply Hfk. by right. }
  unfold merge_fk. rewrite Hrm. rewrite IH; rewrite <- app_assoc; done.
Qed.

Lemma read_fks_NoDup (tn : string) (p : list (SAColumn * option FKInfo)) :
  NoDup ((λ ci, col_name ci.1) <$> p) →
  NoDup (fk_of_dict <$> (foldl (read_fks_step tn) [] p).*2).
Proof.
  intros Hnd. apply (NoDup_fmap_1 columns). rewrite <- list_fmap_compose.
  change (columns ∘ fk_of_dict) with d_columns.
  apply NoDup_concat_nonempty.
  - rewrite (read_fks_columns tn p []) by constructor. simpl.
    eapply sublist_NoDup; [exact Hnd|apply fk_columns_sublist].
  - apply Forall_fmap. apply Forall_fmap.
    eapply Forall_impl; [apply (read_fks_paired tn p []); constructor|].
    intros [k d] [_ H1] E. simpl in *. rewrite E in H1. simpl in H1. lia.
Qed.

Lemma read_fks_step_named (tn k : string) (fks : list (string * FkDict))
    (ci : SAColumn * option FKInfo) :
  fk_name ci = Some k →
  read_fks_step tn fks ci
  = fks_append k tn (ref_table ci) (col_name ci.1) (ref_column ci) fks.
Proof.
  unfold fk_name, read_fks_step, ref_table, ref_column.
  destruct ci.2 as [i|]; [|done]. cbn [mbind option_bind fmap option_fmap option_map default].
  destruct (truthy (constraint_name i)); [|done]. by intros ->.
Qed.

Lemma read_fks_step_unnamed (tn : string) (fks : list (string * FkDict))
    (ci : SAColumn * option FKInfo) :
  fk_name ci = None → read_fks_step tn fks ci = fks.
Proof.
  unfold fk_name, read_fks_step. destruct ci.2 as [i|]; [|done].
  cbn [mbind option_bind]. destruct (truthy (constraint_name i)) eqn:E; [|done].
  intros H. rewrite H in E. discriminate E.
Qed.

Lemma named_snoc (k : string) (p : list (SAColumn * option FKInfo))
    (ci : SAColumn * option FKInfo) :
  named k (p ++ [ci]) = named k p ++ (if decide (fk_name ci = Some k) then [ci] else []).
Proof. unfold named. rewrite filter_app, filter_cons, filter_nil. by case_decide. Qed.

Lemma named_nil (k : string) (p : list (SAColumn * option FKInfo)) :
  k ∉ omap fk_name p → named k p = [].
Proof.
  intros H. unfold named. induction p as [|ci p IH]; [done|].
  rewrite filter_cons. cbn [omap list_omap] in H.
  destruct (fk_name ci) as [k'|] eqn:E.
  - rewrite decide_False by (intros [= ->]; apply H; by left).
    apply IH. intros Hin. apply H. by right.
  - rewrite decide_False by done. by apply IH.
Qed.

Lemma named_not_nil (k : string) (p : list (SAColumn * option FKInfo)) :
  k ∈ omap fk_name p → named k p ≠ [].
Proof.
  intros H. apply list_elem_of_omap in H as (ci & Hci & Hk).
  assert (ci ∈ named k p) as Hin by (by apply list_elem_of_filter).
  intros E. rewrite E in Hin. by apply elem_of_nil in Hin.
Qed.

Lemma dict_of_other (tn k : string) (p : list (SAColumn * option FKInfo))
    (ci : SAColumn * option FKInfo) :
  fk_name ci ≠ Some k → dict_of tn k (p ++ [ci]) = dict_of tn k p.
Proof.
  intros H. unfold dict_of. rewrite named_snoc, decide_False by done.
  by rewrite app_nil_r.
Qed.

Lemma dict_of_append (tn k : string) (p : list (SAColumn * option FKInfo))
    (ci : SAColumn * option FKInfo) :
  fk_name ci = Some k → named k p ≠ [] →
  dict_of tn k (p ++ [ci]) = dict_append (col_name ci.1) (ref_column ci) (dict_of tn k p).
Proof.
  intros H Hne. unfold dict_of, dict_append. rewrite named_snoc, decide_True by done.
  cbn [d_table d_columns d_referenced_table d_referenced_columns].
  rewrite !fmap_app. cbn [fmap list_fmap]. f_equal.
  destruct (named k p); [done|reflexivity].
Qed.

Lemma dict_of_first (tn k : string) (p : list (SAColumn * option FKInfo))
    (ci : SAColumn * option FKInfo) :
  fk_name ci = Some k → named k p = [] →
  dict_of tn k (p ++ [ci]) = mkFkDict tn [col_name ci.1] (ref_table ci) [ref_column ci].
Proof.
  intros H Hnil. unfold dict_of. rewrite named_snoc, decide_True, Hnil by done.
  reflexivity.
Qed.

(** The dict of [read] after the rows of the columns [p]: one value for
    each constraint name, in the order in which the names first come. *)
Lemma read_fks_build (tn : string) (p : list (SAColumn * option FKInfo)) :
  foldl (read_fks_step tn) [] p
  = (λ k, (k, dict_of tn k p)) <$> foldl add_key [] (omap fk_name p).
Proof.
  induction p as [|ci p IH] using rev_ind; [done|].
  rewrite foldl_app. cbn [foldl]. rewrite IH. clear IH.
  rewrite omap_app, foldl_app. cbn [omap list_omap].
  set (keys := foldl add_key [] (omap fk_name p)).
  assert (∀ k, k ∈ keys ↔ k ∈ omap fk_name p) as Hkeys.
  { intros k. unfold keys. rewrite elem_of_add_keys. set_solver. }
  destruct (fk_name ci) as [k|] eqn:E.
  - rewrite (read_fks_step_named tn k) by done. cbn [foldl].
    unfold fks_append, add_key. rewrite <- list_fmap_compose.
    change (fst ∘ (λ k0, (k0, dict_of tn k0 p))) with (@id string). rewrite list_fmap_id.
    case_bool_decide as Hin.
    + rewrite <- list_fmap_compose. apply list_fmap_ext. intros j k' Hj. cbn.
      case_decide as Hk.
      * subst k'. f_equal. symmetry. apply dict_of_append; [done|].
        apply named_not_nil. by apply Hkeys.
      * f_equal. symmetry. apply dict_of_other. congruence.
    + rewrite fmap_app. cbn [fmap list_fmap]. f_equal.
      * apply list_fmap_ext. intros j k' Hj. f_equal. symmetry. apply dict_of_other.
        intros H. assert (k' = k) as -> by congruence.
        apply list_elem_of_lookup_2 in Hj. done.
      * f_equal. f_equal. symmetry. apply dict_of_first; [done|].
        apply named_nil. by rewrite <- Hkeys.
  - rewrite read_fks_step_unnamed by done. cbn [foldl].
    apply list_fmap_ext. intros j k' Hj. f_equal. symmetry. apply dict_of_other.
    by rewrite E.
Qed.

Lemma fk_keys_Permutation (p p' : list (SAColumn * option FKInfo)) :
  p ≡ₚ p' →
  foldl add_key [] (omap fk_name p) ≡ₚ foldl add_key [] (omap fk_name p').
Proof.
  intros Hp. apply NoDup_Permutation.
  - apply add_keys_NoDup. constructor.
  - apply add_keys_NoDup. constructor.
  - intros k. rewrite !elem_of_add_keys, !list_elem_of_omap.
    split; intros [H|(ci & Hci & Hk)]; try (by apply elem_of_nil in H);
      right; exists ci; (split; [|done]).
    + by rewrite <- Hp.
    + by rewrite Hp.
Qed.

Lemma zip_fmap_same {A B C} (f : A → B) (g : A → C) (l : list A) :
  zip (f <$> l) (g <$> l) = (λ x, (f x, g x)) <$> l.
Proof. induction l as [|x l IH]; [done|]. cbn. by rewrite <- IH. Qed.

Lemma dict_of_same_links (tn k : string) (p p' : list (SAColumn * option FKInfo)) :
  p ≡ₚ p' →
  (∀ ci cj, ci ∈ p → cj ∈ p → fk_name ci = Some k → fk_name cj = Some k →
            ref_table ci = ref_table cj) →
  same_links (fk_of_dict (dict_of tn k p')) (fk_of_dict (dict_of tn k p)).
Proof.
  intros Hp Hrt.
  assert (named k p ≡ₚ named k p') as Hn by (unfold named; by rewrite Hp).
  unfold same_links, links, fk_of_dict, dict_of.
  cbn [table reftable columns refcolumns d_table d_columns d_referenced_table
       d_referenced_columns].
  split; [done|]. split.
  - destruct (named k p') as [|cj q'] eqn:E'.
    + apply Permutation_nil_r in Hn. by rewrite Hn.
    + destruct (named k p) as [|ci q] eqn:E.
      { symmetry in Hn. by apply Permutation_nil_r in Hn. }
      cbn [head fmap option_fmap option_map default].
      assert (ci ∈ named k p) as Hci by (rewrite E; by left).
      assert (cj ∈ named k p) as Hcj by (rewrite E, Hn; by left).
      apply list_elem_of_filter in Hci as [? ?]. apply list_elem_of_filter in Hcj as [? ?].
      by apply Hrt.
  - rewrite !zip_fmap_same. by rewrite Hn.
Qed.

Lemma fmap_Permutation_inv {A B} (f : A → B) (l : list B) (k : list A) :
  l ≡ₚ f <$> k → ∃ k', l = f <$> k' ∧ k ≡ₚ k'.
Proof.
  intros H. change (f <$> k) with (map f k) in H.
  destruct (Permutation_map_inv f k H) as (k' & -> & Hk). by exists k'.
Qed.

(** The foreign keys that [read] builds from the rows of the columns
    [p'] are, up to their order and the order of their columns, those
    it builds from the rows of [p], whenever [p'] is [p] in another
    order and the columns of one constraint refer to one table. *)
Lemma read_fks_any_order (tn : string) (p p' : list (SAColumn * option FKInfo)) :
  p ≡ₚ p' →
  (∀ ci cj k, ci ∈ p → cj ∈ p → fk_name ci = Some k → fk_name cj = Some k →
              ref_table ci = ref_table cj) →
  ∃ l, l ≡ₚ fk_of_dict <$> (foldl (read_fks_step tn) [] p').*2
       ∧ Forall2 same_links l (fk_of_dict <$> (foldl (read_fks_step tn) [] p).*2).
Proof.
  intros Hp Hrt. rewrite !read_fks_build. rewrite <- !list_fmap_compose.
  exists ((fk_of_dict ∘ snd ∘ (λ k, (k, dict_of tn k p')))
            <$> foldl add_key [] (omap fk_name p)).
  split.
  - apply fmap_Permutation. by apply fk_keys_Permutation.
  - apply Forall2_fmap. apply Forall_Forall2_diag. apply Forall_forall. intros k _.
    cbn. apply dict_of_same_links; [done|]. intros ci cj. by apply Hrt.
Qed.

(** X28. Foreign keys come back from the store as [reflect_table] made
    them, whatever the order in which the store gives its rows. Take a
    table whose name has no capital letter and whose columns have
    different names, each foreign key of which has a constraint with a
    name, the columns of one constraint referring to one table.
    [write_table] writes it to an empty store. The [select] of [read]
    has no [order by]: for every order in which it may return the rows
    of the table, the foreign keys that the loop of [read] builds from
    them match those that [reflect_table] has put into an empty entry
    for the table, one to one and in whatever order the dicts are gone
    through: the same table, the same referenced table and the same
    pairs of a column and the column it refers to. The [read] of the
    model is the loop on one of these orders. *)
Theorem foreign_keys_through_store (db_key : string) (t : SATable) (now now' : Z) :
  lower (sa_name t) = sa_name t →
  NoDup (col_name <$> sa_columns t) →
  (∀ col i, col ∈ sa_columns t → _get_foreign_key_info col = inr (Some i) →
            truthy (constraint_name i) = true ∧ referenced_column i ≠ "") →
  (∀ c1 c2 i1 i2, c1 ∈ sa_columns t → c2 ∈ sa_columns t →
                  _get_foreign_key_info c1 = inr (Some i1) →
                  _get_foreign_key_info c2 = inr (Some i2) →
                  constraint_name i1 = constraint_name i2 →
                  referenced_table i1 = referenced_table i2) →
  (reflect_table db_key (inr t) (Accessor_init empty_store)).2 = inr tt →
  let cached := entry (reflect_table db_key (inr t) (Accessor_init empty_store)).1 db_key in
  let w := write_table db_key t now (create_schema empty_store) in
  w.2 = inr tt
  ∧ ∃ ts fs,
      dbtable w.1 = Some ts ∧ dbfield w.1 = Some fs
      ∧ foreign_keys (entry (read db_key now' (Accessor_init w.1)).1 db_key)
        = fk_of_dict <$> (foldl read_row (MetaData_new, []) (read_rows db_key ts fs)).2.*2
      ∧ ∀ rows, rows ≡ₚ read_rows db_key ts fs →
          ∃ l, l ≡ₚ fk_of_dict <$> (foldl read_row (MetaData_new, []) rows).2.*2
               ∧ Forall2 same_links l (foreign_keys cached).
Proof.
  intros Hlow Hnd Hnamed Hone Hok. cbv zeta.
  rewrite reflect_table_eq in Hok |- *. cbv zeta in Hok |- *. rewrite Hlow in Hok |- *.
  destruct (reflect_columns_fks (sa_name t) (sa_columns t) []) as [ex|fks] eqn:Hf;
    [done|]. clear Hok.
  pose proof (rcf_columns_result _ _ _ _ Hf) as Hcr.
  destruct (valid_prefix_all _ Hcr) as [Hp1 Hp2].
  set (p := valid_prefix (sa_columns t)) in *.
  assert (NoDup ((λ ci, col_name ci.1) <$> p)) as Hndp.
  { rewrite <- Hp1 in Hnd. by rewrite <- list_fmap_compose in Hnd. }
  assert (∀ ci, ci ∈ p → ci.1 ∈ sa_columns t) as Hpin.
  { intros ci Hci. rewrite <- Hp1. apply list_elem_of_fmap. by exists ci. }
  assert (∀ ci i, ci ∈ p → ci.2 = Some i →
                  truthy (constraint_name i) = true ∧ referenced_column i ≠ "") as Hnp.
  { intros ci i Hci Hi. apply (Hnamed ci.1); [by apply Hpin|].
    rewrite (Hp2 ci Hci). by rewrite Hi. }
  assert (∀ ci cj k, ci ∈ p → cj ∈ p → fk_name ci = Some k → fk_name cj = Some k →
                     ref_table ci = ref_table cj) as Hrt.
  { intros ci cj k Hci Hcj Hi Hj. unfold fk_name, ref_table in *.
    destruct ci.2 as [i|] eqn:Ei; [|done]. destruct cj.2 as [j|] eqn:Ej; [|done].
    cbn [mbind option_bind fmap option_fmap option_map default] in *.
    destruct (truthy (constraint_name i)); [|done].
    destruct (truthy (constraint_name j)); [|done].
    apply (Hone ci.1 cj.1); [by apply Hpin|by apply Hpin| | |congruence].
    - rewrite (Hp2 ci Hci). by rewrite Ei.
    - rewrite (Hp2 cj Hcj). by rewrite Ej. }
  (* the cache *)
  apply rcf_fold in Hf. fold p in Hf.
  pose proof (reflect_fks_some_key (sa_name t) p [] Hnp) as Hrs.
  change (some_key <$> []) with (@nil (option string * FkDict)) in Hrs.
  rewrite Hrs in Hf. clear Hrs.
  set (rf := foldl (read_fks_step (sa_name t)) [] p) in *.
  assert (fks.*2 = rf.*2) as Hsnd.
  { rewrite Hf. rewrite <- list_fmap_compose. by apply list_fmap_ext. }
  cbn [fst]. change (entry (set_write_queue ?f ?x) db_key) with (entry x db_key).
  rewrite entry_put. unfold merged_entry. cbn [foreign_keys set_foreign_keys].
  rewrite rce_foreign_keys. cbn [foreign_keys set_isempty add_table].
  change (foreign_keys (entry (Accessor_init empty_store) db_key)) with (@nil ForeignKey).
  rewrite Hsnd, merge_fks_NoDup by (by apply read_fks_NoDup). cbn [app].
  (* the store *)
  unfold write_table, bind.
  change (table_id_of db_key (sa_name t) now (create_schema empty_store))
    with (mkStore (Some [mk_dbtable_row 1 db_key (sa_name t) now]) (Some []), @inr exn Z 1).
  cbv iota beta.
  rewrite (write_columns_some 1 (sa_columns t)
             (mkStore (Some [mk_dbtable_row 1 db_key (sa_name t) now]) (Some [])) []
             eq_refl). fold p.
  cbn [fst snd dbtable]. split; [exact Hcr|].
  set (fs := foldl (upsert 1) [] p).
  set (s' := mkStore (Some [mk_dbtable_row 1 db_key (sa_name t) now]) (Some fs)).
  exists [mk_dbtable_row 1 db_key (sa_name t) now], fs.
  assert (read_rows db_key [mk_dbtable_row 1 db_key (sa_name t) now] fs
          = row_of (sa_name t) <$> p) as Hrows.
  { rewrite read_rows_one_table by reflexivity. cbn [t_name t_id].
    unfold fs. rewrite (upserts_fresh 1 (sa_name t) p []); [|done|].
    - by rewrite filter_nil.
    - intros r ci Hr. by apply elem_of_nil in Hr. }
  split_and!; [done|done| |].
  - assert (db (Accessor_init s') = s') as Hdb by reflexivity.
    unfold read. rewrite Hdb. cbn [dbtable dbfield s' fst].
    rewrite update_entry_put, entry_put. reflexivity.
  - intros rows Hperm. rewrite Hrows in Hperm.
    apply fmap_Permutation_inv in Hperm as (p' & -> & Hp).
    rewrite (read_rows_fks (sa_name t) p' (MetaData_new, [])). cbn [snd].
    by apply read_fks_any_order.
Qed.

Lemma foreign_keys_through_store_witness :
  let t := mkSATable "line"
             [mkSAColumn "o" "INTEGER" [mkSAForeignKey (Some (Some "fk1")) "orders.id"];
              mkSAColumn "n" "INTEGER" [mkSAForeignKey (Some (Some "fk1")) "orders.no"]] in
  foreign_keys (entry (reflect_table "k" (inr t) (Accessor_init empty_store)).1 "k")
  = [mkForeignKey "line" ["o"; "n"] "orders" ["id"; "no"]]
  ∧ ∃ l, l ≡ₚ fk_of_dict
                <$> (foldl read_row (MetaData_new, [])
                       [mkResultRow "line" "n" "INTEGER" (Some (mkFKInfo (Some "fk1") 1 "orders" "no"));
                        mkResultRow "line" "o" "INTEGER" (Some (mkFKInfo (Some "fk1") 1 "orders" "id"))]).2.*2
         ∧ Forall2 same_links l [mkForeignKey "line" ["o"; "n"] "orders" ["id"; "no"]].
Proof.
  cbv zeta. split; [vm_compute; reflexivity|].
  destruct (foreign_keys_through_store "k"
              (mkSATable "line"
                 [mkSAColumn "o" "INTEGER" [mkSAForeignKey (Some (Some "fk1")) "orders.id"];
                  mkSAColumn "n" "INTEGER" [mkSAForeignKey (Some (Some "fk1")) "orders.no"]])
              5 9)
    as (_ & ts & fs & Hts & Hfs & _ & H).
  - reflexivity.
  - cbn [sa_columns fmap list_fmap col_name]. apply NoDup_cons. split.
    + intros Hin. apply list_elem_of_singleton in Hin. discriminate.
    + apply NoDup_singleton.
  - intros col i Hcol Hi. cbn [sa_columns] in Hcol.
    apply elem_of_cons in Hcol as [->|Hcol].
    + vm_compute in Hi. injection Hi as <-. split; [reflexivity|discriminate].
    + apply list_elem_of_singleton in Hcol as ->. vm_compute in Hi. injection Hi as <-.
      split; [reflexivity|discriminate].
  - intros c1 c2 i1 i2 H1 H2 E1 E2 _. cbn [sa_columns] in H1, H2.
    apply elem_of_cons in H1 as [->|H1]; [|apply list_elem_of_singleton in H1 as ->];
      (apply elem_of_cons in H2 as [->|H2]; [|apply list_elem_of_singleton in H2 as ->]);
      vm_compute in E1, E2; injection E1 as <-; injection E2 as <-; reflexivity.
  - vm_compute. reflexivity.
  - vm_compute in Hts, Hfs. injection Hts as <-. injection Hfs as <-.
    apply H. vm_compute. apply perm_swap.
Defined.

(** ** The writers of the store, row by row *)

Lemma upsert_as_map (tid : Z) (rows : list dbfield_row) (ci : SAColumn * option FKInfo) :
  upsert tid rows ci
  = (upd tid ci <$> rows)
    ++ (if existsb (field_key_matches tid (col_name ci.1)) rows then []
        else [mk_dbfield_row (next_rowid (f_id <$> rows)) tid (col_name ci.1)
                (col_type ci.1) ci.2]).
Proof.
  unfold upsert. destruct (existsb _ rows) eqn:E; [by rewrite app_nil_r|]. f_equal.
  symmetry. apply fmap_fixed. intros r Hr. unfold upd.
  destruct (field_key_matches tid (col_name ci.1) r) eqn:Hm; [|done].
  assert (existsb (field_key_matches tid (col_name ci.1)) rows = true); [|congruence].
  apply existsb_exists. exists r. split; [by apply list_elem_of_In|done].
Qed.

Lemma upd_unique_key (tid : Z) (ci : SAColumn * option FKInfo) (r : dbfield_row) :
  unique_key (upd tid ci r) = unique_key r.
Proof. unfold upd. by destruct (field_key_matches _ _ r). Qed.

Lemma upd_all_unique_key (tid : Z) (p : list (SAColumn * option FKInfo)) (r : dbfield_row) :
  unique_key (upd_all tid p r) = unique_key r.
Proof.
  destruct (upd_all_shape tid p r) as (_ & H1 & H2). unfold unique_key. by rewrite H1, H2.
Qed.

Lemma upd_all_cons (tid : Z) (ci : SAColumn * option FKInfo)
    (p : list (SAColumn * option FKInfo)) (r : dbfield_row) :
  upd_all tid (ci :: p) r = upd_all tid p (upd tid ci r).
Proof. reflexivity. Qed.

Lemma carries_one_upd (tid : Z) (q : list (SAColumn * option FKInfo))
    (ci : SAColumn * option FKInfo) (r : dbfield_row) :
  carries_one q r → carries_one (q ++ [ci]) (upd tid ci r).
Proof.
  intros (cj & Hcj & Hn & Ht & Hf). unfold upd.
  destruct (field_key_matches tid (col_name ci.1) r) eqn:Hm.
  - exists ci. split; [apply elem_of_app; right; by left|]. simpl.
    unfold field_key_matches in Hm. apply bool_decide_eq_true in Hm as [_ Hm]. done.
  - exists cj. split; [apply elem_of_app; by left|done].
Qed.

Lemma carries_one_upd_all (tid : Z) (p : list (SAColumn * option FKInfo)) :
  ∀ q r, carries_one q r → carries_one (q ++ p) (upd_all tid p r).
Proof.
  induction p as [|ci p IH]; intros q r H; [by rewrite app_nil_r|].
  rewrite upd_all_cons. replace (q ++ ci :: p) with ((q ++ [ci]) ++ p)
    by (by rewrite <- app_assoc).
  apply IH. by apply carries_one_upd.
Qed.

Lemma upd_all_written (tid : Z) (p : list (SAColumn * option FKInfo)) (r : dbfield_row) :
  f_table_id r = tid → (∃ ci, ci ∈ p ∧ col_name ci.1 = f_name r) →
  carries_one p (upd_all tid p r).
Proof.
  intros Ht. induction p as [|ci p IH] using rev_ind.
  - intros (ci & Hci & _). by apply elem_of_nil in Hci.
  - intros (cj & Hcj & Hn). rewrite upd_all_snoc.
    destruct (upd_all_shape tid p r) as (_ & S1 & S2).
    destruct (decide (col_name ci.1 = f_name r)) as [E|Hne].
    + unfold upd, field_key_matches. rewrite bool_decide_true by (by rewrite S1, S2).
      exists ci. split; [apply elem_of_app; right; by left|]. simpl. by rewrite S2.
    + apply elem_of_app in Hcj as [Hcj|Hcj].
      * unfold upd, field_key_matches. rewrite bool_decide_false by (rewrite S2; naive_solver).
        destruct IH as (ck & Hck & ?); [by exists cj|].
        exists ck. split; [apply elem_of_app; by left|done].
      * apply list_elem_of_singleton in Hcj as ->. done.
Qed.

Lemma upd_all_untouched (tid : Z) (p : list (SAColumn * option FKInfo)) (r : dbfield_row) :
  (¬ ∃ ci, ci ∈ p ∧ unique_key r = (tid, col_name ci.1)) → upd_all tid p r = r.
Proof.
  intros H. apply upd_all_no_match. intros ci Hci. unfold field_key_matches.
  apply bool_decide_eq_false. intros [H1 H2]. apply H. exists ci. split; [done|].
  unfold unique_key. by rewrite H1, H2.
Qed.

(** The rows after the columns [p]: the rows that were there, each with
    the updates of the columns of its key, and after them one new row
    for each key that was not there. *)
Lemma upserts_shape (tid : Z) (p : list (SAColumn * option FKInfo)) : ∀ rows,
  ∃ added,
    foldl (upsert tid) rows p = (upd_all tid p <$> rows) ++ added
    ∧ (∀ r, r ∈ added → f_table_id r = tid ∧ carries_one p r
                        ∧ unique_key r ∉ unique_key <$> rows)
    ∧ NoDup (unique_key <$> added).
Proof.
  induction p as [|ci p IH]; intros rows.
  - exists []. split_and!.
    + unfold upd_all. simpl. by rewrite list_fmap_id, app_nil_r.
    + intros r Hr. by apply elem_of_nil in Hr.
    + constructor.
  - cbn [foldl]. destruct (IH (upsert tid rows ci)) as (added1 & E & Hadd & Hnd).
    rewrite E. clear E.
    assert (unique_key <$> (upd tid ci <$> rows) = unique_key <$> rows) as Hkeys.
    { rewrite <- list_fmap_compose. apply list_fmap_ext. intros i r _.
      apply upd_unique_key. }
    rewrite upsert_as_map in *.
    destruct (existsb (field_key_matches tid (col_name ci.1)) rows) eqn:Ex.
    + rewrite app_nil_r in *. exists added1. split_and!.
      * rewrite <- list_fmap_compose. done.
      * intros r Hr. destruct (Hadd r Hr) as (H1 & (cj & Hcj & H2) & H3).
        split_and!; [done|exists cj; split; [by right|done]|].
        by rewrite Hkeys in H3.
      * done.
    + set (new := mk_dbfield_row (next_rowid (f_id <$> rows)) tid (col_name ci.1)
                    (col_type ci.1) ci.2) in *.
      exists (upd_all tid p new :: added1).
      assert (unique_key new ∉ unique_key <$> rows) as Hnew.
      { intros Hin. apply list_elem_of_fmap in Hin as (r & Hk & Hr).
        assert (existsb (field_key_matches tid (col_name ci.1)) rows = true); [|congruence].
        apply existsb_exists. exists r. split; [by apply list_elem_of_In|].
        unfold field_key_matches. apply bool_decide_eq_true.
        unfold unique_key in Hk. simpl in Hk. by injection Hk as <- <-. }
      split_and!.
      * rewrite fmap_app, <- list_fmap_compose, <- app_assoc. done.
      * intros r Hr. apply elem_of_cons in Hr as [->|Hr].
        -- destruct (upd_all_shape tid p new) as (_ & S1 & S2). split_and!.
           ++ by rewrite S1.
           ++ apply (carries_one_upd_all tid p [ci] new). exists ci. split; [by left|done].
           ++ by rewrite upd_all_unique_key.
        -- destruct (Hadd r Hr) as (H1 & (cj & Hcj & H2) & H3).
           split_and!; [done|exists cj; split; [by right|done]|].
           intros Hin. apply H3. rewrite fmap_app, Hkeys. apply elem_of_app. by left.
      * rewrite fmap_cons. apply NoDup_cons. split; [|done].
        rewrite upd_all_unique_key. intros Hin.
        apply list_elem_of_fmap in Hin as (r & Hk & Hr).
        destruct (Hadd r Hr) as (_ & _ & H3). apply H3. rewrite <- Hk.
        rewrite fmap_app. apply elem_of_app. right. by left.
Qed.

Lemma valid_prefix_sound (cols : list SAColumn) (ci : SAColumn * option FKInfo) :
  ci ∈ valid_prefix cols → ci.1 ∈ cols ∧ _get_foreign_key_info ci.1 = inr ci.2.
Proof.
  induction cols as [|c cols IH]; simpl; [by intros H%elem_of_nil|].
  destruct (_get_foreign_key_info c) as [e|i] eqn:Hi; [by intros H%elem_of_nil|].
  intros H. apply elem_of_cons in H as [->|H]; [split; [by left|done]|].
  destruct (IH H). split; [by right|done].
Qed.

Lemma carries_one_carries (tid : Z) (t : SATable) (r : dbfield_row) :
  f_table_id r = tid → carries_one (valid_prefix (sa_columns t)) r → carries tid t r.
Proof.
  intros Ht (ci & Hci & H1 & H2 & H3). split; [done|].
  destruct (valid_prefix_sound _ _ Hci) as [Hin Hi]. by exists ci.1, ci.2.
Qed.

Lemma valid_prefix_complete (cols : list SAColumn) (c : SAColumn) :
  columns_result cols = inr tt → c ∈ cols →
  ∃ ci, ci ∈ valid_prefix cols ∧ ci.1 = c.
Proof.
  intros Hok Hc. destruct (valid_prefix_all cols Hok) as [H1 _].
  rewrite <- H1 in Hc. apply list_elem_of_fmap in Hc as (ci & -> & Hci). by exists ci.
Qed.

(** [write_table] seen from its rows: where the table and its field
    rows end up. *)
Lemma write_table_rows (db_key : string) (t : SATable) (now : Z) (s : Store)
    (rows : list dbfield_row) :
  is_Some (dbtable s) → dbfield s = Some rows →
  ∃ ts' tr,
    write_table db_key t now s
    = (mkStore (Some ts')
         (Some (foldl (upsert (t_id tr)) rows (valid_prefix (sa_columns t)))),
       columns_result (sa_columns t))
    ∧ tr ∈ ts' ∧ t_db_key tr = db_key ∧ t_name tr = sa_name t.
Proof.
  intros [ts Ht] Hf. unfold write_table, bind.
  pose proof (table_id_of_cases db_key (sa_name t) now s) as C.
  destruct (table_id_of db_key (sa_name t) now s) as [s1 [e|tid]] eqn:H1.
  { inversion C; congruence. }
  destruct (table_id_of_row _ _ _ _ _ _ H1) as (Hf1 & ts1 & tr & Hts & Hin & Hid & Hk & Hn).
  rewrite Hf in Hf1. rewrite (write_columns_some _ _ _ _ Hf1). rewrite Hts, <- Hid.
  by exists ts1, tr.
Qed.

(** C4. [write_table], whose statements the engine runs each in a
    transaction of its own, never ends in the uniqueness violation of an
    insert: where the insert of a column is refused, the step of the
    column is the update of the rows with the same [(table_id, name)],
    and it returns. Over the whole call every field row that was there keeps its place, its id
    and its key; it is left as it was when no column of the table has
    its key, and when [write_table] returns and a column has its key it
    holds the type and the foreign-key attributes of a column of that
    name. The rows added are at the end, one for each key that had no
    row, none for a key that had one, and when [write_table] returns
    every column has its row. [write] on a [sqlite3] connection never
    ends in the violation either, and the update for the same key is
    run; but the refused insert has rolled the open transaction back
    first, so the update is that of the committed store: the connection
    then sees the committed rows, those of the key with the new type,
    and nothing of what was uncommitted. An insert that is not refused
    adds its row to what the connection sees. *)
Theorem uniqueness_violation_becomes_update :
  (∀ db_key t now s, (write_table db_key t now s).2 ≠ inl IntegrityError)
  ∧ (∀ table_id column info s,
       _get_foreign_key_info column = inr info →
       (insert_dbfield table_id (col_name column) (col_type column) info s).2
         = inl IntegrityError →
       write_column table_id column s
       = update_dbfield table_id (col_name column)
           (set_field_all (col_type column) info) s
       ∧ (write_column table_id column s).2 = inr tt)
  ∧ (∀ db_key t now s rows,
       is_Some (dbtable s) → dbfield s = Some rows →
       let r := write_table db_key t now s in
       ∃ ts' tr rows',
         dbtable r.1 = Some ts' ∧ tr ∈ ts' ∧ t_db_key tr = db_key ∧ t_name tr = sa_name t
         ∧ dbfield r.1 = Some rows'
         ∧ (∀ i old, rows !! i = Some old →
              ∃ new, rows' !! i = Some new ∧ f_id new = f_id old
                     ∧ unique_key new = unique_key old
                     ∧ (new = old ∨ carries (t_id tr) t new)
                     ∧ ((¬ ∃ c, c ∈ sa_columns t
                                ∧ unique_key old = (t_id tr, col_name c)) → new = old)
                     ∧ (r.2 = inr tt →
                        (∃ c, c ∈ sa_columns t ∧ unique_key old = (t_id tr, col_name c)) →
                        carries (t_id tr) t new))
         ∧ (∀ i new, rows' !! i = Some new → (length rows ≤ i)%nat →
              carries (t_id tr) t new ∧ unique_key new ∉ unique_key <$> rows)
         ∧ NoDup (unique_key <$> drop (length rows) rows')
         ∧ (r.2 = inr tt → ∀ c, c ∈ sa_columns t →
              ∃ new, new ∈ rows' ∧ unique_key new = (t_id tr, col_name c)
                     ∧ carries (t_id tr) t new))
  ∧ (∀ db_key tbl field type_ now c,
       (Sqconn.write db_key tbl field type_ now c).2 ≠ inl IntegrityError)
  ∧ (∀ db_key tbl field type_ now c vts vrows tr,
       dbtable (seen c) = Some vts → dbfield (seen c) = Some vrows →
       List.find (table_key_matches db_key tbl) vts = Some tr →
       let r := Sqconn.write db_key tbl field type_ now c in
       (existsb (field_key_matches (t_id tr) field) vrows = true →
          r = execute (update_dbfield (t_id tr) field (set_field_type type_))
                (mkConnection (committed c) (committed c))
          ∧ committed r.1 = committed c
          ∧ ∀ crows, dbfield (committed c) = Some crows →
              r.2 = inr tt
              ∧ dbtable (seen r.1) = dbtable (committed c)
              ∧ dbfield (seen r.1)
                = Some ((λ row, if field_key_matches (t_id tr) field row
                                then set_field_type type_ row else row) <$> crows))
       ∧ (existsb (field_key_matches (t_id tr) field) vrows = false →
          r = (mkConnection (committed c)
                 (mkStore (Some vts)
                    (Some (vrows ++ [mk_dbfield_row (next_rowid (f_id <$> vrows))
                                       (t_id tr) field type_ None]))),
               inr tt))).
Proof.
  split_and!.
  - intros db_key t now s. unfold write_table, bind.
    destruct (table_id_of db_key (sa_name t) now s) as [s1 [e|tid]] eqn:H1.
    + apply table_id_of_raises in H1 as [_ ->]. done.
    + apply write_columns_no_integrity.
  - intros table_id column info s Hi Hins.
    unfold write_column, bind, lift, try_except. rewrite Hi.
    unfold insert_dbfield, update_dbfield in *.
    destruct (dbfield s) as [rows|] eqn:Hf; [|done].
    destruct (existsb _ rows); simpl in *; [by rewrite Hf|done].
  - intros db_key t now s rows Ht Hf. cbv zeta.
    destruct (write_table_rows db_key t now s rows Ht Hf) as (ts' & tr & -> & Hin & Hk & Hn).
    cbn [fst snd dbtable dbfield].
    set (tid := t_id tr). set (p := valid_prefix (sa_columns t)).
    destruct (upserts_shape tid p rows) as (added & E & Hadd & Hnd).
    rewrite E. exists ts', tr, ((upd_all tid p <$> rows) ++ added).
    split_and!; try done.
    + intros i old Hi. exists (upd_all tid p old).
      destruct (upd_all_shape tid p old) as (S0 & S1 & S2).
      split_and!.
      * rewrite lookup_app_l by (rewrite length_fmap; by eapply lookup_lt_Some).
        by rewrite list_lookup_fmap, Hi.
      * done.
      * apply upd_all_unique_key.
      * destruct (decide (Exists (λ ci, unique_key old = (tid, col_name ci.1)) p))
          as [Hex|Hno].
        -- right. apply Exists_exists in Hex as (ci & Hci & Hkey).
           unfold unique_key in Hkey. injection Hkey as Hk1 Hk2.
           apply carries_one_carries; [by rewrite S1|].
           apply upd_all_written; [done|]. by exists ci.
        -- left. apply upd_all_untouched. intros (ci & Hci & Hkey). apply Hno.
           apply Exists_exists. by exists ci.
      * intros Hno. apply upd_all_untouched. intros (ci & Hci & Hkey). apply Hno.
        exists ci.1. split; [|done]. by apply valid_prefix_sound in Hci as [? _].
      * intros Hok (c & Hc & Hkey).
        destruct (valid_prefix_complete _ c Hok Hc) as (ci & Hci & <-).
        unfold unique_key in Hkey. injection Hkey as Hk1 Hk2.
        apply carries_one_carries; [by rewrite S1|].
        apply upd_all_written; [done|]. by exists ci.
    + intros i new Hi Hlen.
      rewrite lookup_app_r in Hi by (by rewrite length_fmap).
      apply list_elem_of_lookup_2 in Hi.
      destruct (Hadd new Hi) as (H1 & H2 & H3). split; [|done].
      by apply carries_one_carries.
    + rewrite <- (length_fmap (upd_all tid p) rows), drop_app_length. exact Hnd.
    + intros Hok c Hc.
      destruct (valid_prefix_complete _ c Hok Hc) as (ci & Hci & <-).
      destruct (settled_fold tid p [] rows) as [_ Hpres].
      { split; [done|]. intros cj Hcj. by apply elem_of_nil in Hcj. }
      simpl in Hpres. specialize (Hpres ci Hci).
      rewrite E in Hpres. apply existsb_exists in Hpres as (new & Hnew & Hm).
      apply list_elem_of_In in Hnew.
      unfold field_key_matches in Hm. apply bool_decide_eq_true in Hm as [Hm1 Hm2].
      exists new. split; [done|]. split; [unfold unique_key; by rewrite Hm1, Hm2|].
      apply elem_of_app in Hnew as [Hnew|Hnew].
      * apply list_elem_of_fmap in Hnew as (old & -> & Hold).
        destruct (upd_all_shape tid p old) as (S0 & S1 & S2).
        apply carries_one_carries; [done|]. apply upd_all_written; [by rewrite <- S1|].
        exists ci. split; [done|]. by rewrite <- S2.
      * destruct (Hadd new Hnew) as (H1 & H2 & _). by apply carries_one_carries.
  - intros db_key tbl field type_ now c. unfold Sqconn.write, bind.
    unfold execute at 1, select_table_id.
    destruct (dbtable (seen c)) as [vts|] eqn:Ht; [|done]. cbn [fst snd].
    destruct (List.find (table_key_matches db_key tbl) vts) as [tr|] eqn:Hfind;
      cbn [fmap option_fmap option_map].
    + unfold ret. unfold try_except, execute, insert_dbfield, update_dbfield.
      cbn [seen committed]. rewrite Ht. cbn [seen].
      destruct (dbfield (mkStore (Some vts) (dbfield (seen c)))) as [vrows|] eqn:Hf;
        cbn [dbfield] in Hf; rewrite ?Hf; [|done].
      destruct (existsb _ vrows); cbn [seen committed]; [|done].
      rewrite decide_True by done. by destruct (dbfield (committed c)).
    + unfold execute at 1, insert_dbtable. cbn [seen]. rewrite Ht.
      rewrite (find_none_existsb _ _ Hfind). cbn [fst snd].
      unfold try_except, execute, insert_dbfield, update_dbfield. cbn [seen committed dbfield].
      destruct (dbfield (seen c)) as [vrows|]; [|done].
      destruct (existsb _ vrows); cbn [seen committed]; [|done].
      rewrite decide_True by done. by destruct (dbfield (committed c)).
  - intros db_key tbl field type_ now c vts vrows tr Ht Hf Hfind. cbv zeta.
    assert (Sqconn.write db_key tbl field type_ now c
                 = try_except
                     (execute (insert_dbfield (t_id tr) field type_ None))
                     IntegrityError
                     (execute (update_dbfield (t_id tr) field (set_field_type type_))) c)
      as Hw.
    { unfold Sqconn.write, bind. unfold execute at 1, select_table_id.
      rewrite Ht. cbn [fst snd]. rewrite Hfind. cbn [fmap option_fmap option_map].
      unfold ret. destruct c as [cm sn]. cbn [seen committed] in *. reflexivity. }
    rewrite Hw. clear Hw. split.
    + intros Hex.
      assert (try_except (execute (insert_dbfield (t_id tr) field type_ None))
                IntegrityError
                (execute (update_dbfield (t_id tr) field (set_field_type type_))) c
              = execute (update_dbfield (t_id tr) field (set_field_type type_))
                  (mkConnection (committed c) (committed c))) as ->.
      { unfold try_except. unfold execute at 1, insert_dbfield.
        rewrite Hf, Hex. by rewrite decide_True. }
      unfold execute, update_dbfield. cbn [seen committed]. split; [done|].
      destruct (dbfield (committed c)) as [crows|]; cbn [fst snd seen committed dbfield dbtable].
      * split; [done|]. intros ? [= <-]. done.
      * split; [done|]. intros ? [=].
    + intros Hex. unfold try_except. unfold execute at 1, insert_dbfield.
      rewrite Hf, Hex. by rewrite Ht.
Qed.

Lemma uniqueness_violation_becomes_update_witness :
  let c := mkConnection store_with_orders_id
             (mkStore (Some [mk_dbtable_row 1 "k" "orders" 0])
                (Some [mk_dbfield_row 1 1 "id" "INTEGER" None;
                       mk_dbfield_row 2 1 "total" "NUMERIC" None])) in
  (execute (insert_dbfield 1 "id" "BIGINT" None) c).2 = inl IntegrityError
  ∧ Sqconn.write "k" "orders" "id" "BIGINT" 9 c
    = (mkConnection store_with_orders_id
         (mkStore (Some [mk_dbtable_row 1 "k" "orders" 0])
            (Some [mk_dbfield_row 1 1 "id" "BIGINT" None])), inr tt).
Proof.
  cbv zeta. split; [reflexivity|].
  destruct uniqueness_violation_becomes_update as (_ & _ & _ & _ & H).
  destruct (H "k" "orders" "id" "BIGINT" 9
              (mkConnection store_with_orders_id
                 (mkStore (Some [mk_dbtable_row 1 "k" "orders" 0])
                    (Some [mk_dbfield_row 1 1 "id" "INTEGER" None;
                           mk_dbfield_row 2 1 "total" "NUMERIC" None])))
              [mk_dbtable_row 1 "k" "orders" 0]
              [mk_dbfield_row 1 1 "id" "INTEGER" None;
               mk_dbfield_row 2 1 "total" "NUMERIC" None]
              (mk_dbtable_row 1 "k" "orders" 0) eq_refl eq_refl eq_refl) as [Hyes _].
  destruct (Hyes eq_refl) as (E & _). rewrite E. reflexivity.
Defined.

(** C4 as stated fails for [write] on a connection: the first call
    inserts the field row, which stays uncommitted; the insert of the
    second call is refused, the transaction is rolled back, and the
    update that follows finds no row. The call returns, and the row that
    was there has not been updated: it is gone, with its table row. *)
Lemma write_twice_in_transaction_loses_row :
  let c1 := (Sqconn.write "k" "orders" "id" "INTEGER" 5 fresh_connection).1 in
  let r := Sqconn.write "k" "orders" "id" "BIGINT" 6 c1 in
  seen c1 = mkStore (Some [mk_dbtable_row 1 "k" "orders" 5])
              (Some [mk_dbfield_row 1 1 "id" "INTEGER" None])
  ∧ (execute (insert_dbfield 1 "id" "BIGINT" None) c1).2 = inl IntegrityError
  ∧ r.2 = inr tt
  ∧ seen r.1 = mkStore (Some []) (Some [])
  ∧ seen (commit r.1) = mkStore (Some []) (Some [])
  ∧ ¬ ∃ rows row, dbfield (seen r.1) = Some rows ∧ row ∈ rows
                   ∧ unique_key row = (1, "id").
Proof.
  cbv zeta. split_and!; try reflexivity.
  intros (rows & row & Hrows & Hin & _). vm_compute in Hrows. injection Hrows as <-.
  by apply elem_of_nil in Hin.
Qed.

(** On a connection that has no transaction open, and a store in which
    every field row has the id of a table row, [write] on the connection
    is [write] statement by statement: the refused insert has nothing to
    roll back. *)
Lemma sqconn_write_no_transaction (db_key tbl field type_ : string) (now : Z) (s : Store)
    (tables : list dbtable_row) (rows : list dbfield_row) :
  dbtable s = Some tables → dbfield s = Some rows →
  (∀ r, r ∈ rows → ∃ t, t ∈ tables ∧ t_id t = f_table_id r) →
  let r := Sqconn.write db_key tbl field type_ now (mkConnection s s) in
  seen r.1 = (write db_key tbl field type_ now s).1
  ∧ r.2 = (write db_key tbl field type_ now s).2
  ∧ committed r.1 = s.
Proof.
  intros Ht Hf Hown. cbv zeta.
  assert (Sqconn.write db_key tbl field type_ now (mkConnection s s)
          = (mkConnection s (write db_key tbl field type_ now s).1,
             (write db_key tbl field type_ now s).2)) as ->; [|done].
  unfold Sqconn.write, write, table_id_of, bind.
  unfold execute at 1, select_table_id. cbn [seen committed]. rewrite Ht. cbn [fst snd].
  destruct (List.find (table_key_matches db_key tbl) tables) as [tr|] eqn:Hfind;
    cbn [fmap option_fmap option_map].
  - unfold ret, try_except, execute, insert_dbfield, update_dbfield. cbn [seen committed].
    rewrite Hf. destruct (existsb _ rows); cbn [seen committed fst snd]; [|done].
    rewrite !decide_True by done. by rewrite Hf.
  - unfold execute at 1, insert_dbtable. cbn [seen committed]. rewrite Ht.
    rewrite (find_none_existsb _ _ Hfind). cbn [fst snd].
    unfold try_except, execute, insert_dbfield, update_dbfield.
    cbn [seen committed dbfield dbtable]. rewrite Hf.
    assert (existsb (field_key_matches (next_rowid (t_id <$> tables)) field) rows = false)
      as ->; [|done].
    apply not_true_is_false. intros Hex. apply existsb_exists in Hex as (r & Hr & Hm).
    apply list_elem_of_In in Hr. unfold field_key_matches in Hm.
    apply bool_decide_eq_true in Hm as [Hm _].
    destruct (Hown r Hr) as (t & Htin & Hid).
    assert (t_id t < next_rowid (t_id <$> tables)); [|lia].
    apply next_rowid_above, list_elem_of_fmap. by exists t.
Qed.
